(** * cursor_mapper: a shallow embedding of [src/main.cpp]

    The program tracks the monitor topology, detects through which edge of a
    monitor rectangle a mouse movement leaves, and remaps the cursor
    proportionally onto the neighbouring monitor.

    - [LONG] values are 32-bit signed integers (Windows), modelled as [Z] with
      the wrap-around of the arithmetic written out ([wrap_long]).
    - [double] values are IEEE 754 binary64 numbers, modelled by the
      [spec_float] type of the standard library with [prec = 53] and
      [emax = 1024]; every operation rounds to nearest, ties to even, and an
      expression is evaluated one operation at a time.
    - A division is a step that fails on a zero denominator, so the functions
      that divide live in the [option] monad.
    - The globals of the program form the record [State]; the operating
      system calls the hook procedure needs are the fields of [Env].
    - The fields of [RECT] and [POINT] carry a prefix ([rc_left], [px]);
      the enumerator [Edge::None] is [Edge_None]. *)

From Stdlib Require Import ZArith List Bool Lia String Ascii.
From Stdlib Require Import Floats.SpecFloat.
From Stdlib Require Import Permutation Sorted.
From Stdlib Require Import Decimal DecimalPos DecimalZ DecimalString.
Import ListNotations.

Open Scope Z_scope.

(** ** LONG arithmetic *)

Definition LONG_MIN : Z := -2147483648.
Definition LONG_MAX : Z := 2147483647.

Definition wrap_long (z : Z) : Z := (z + 2147483648) mod 4294967296 - 2147483648.

Definition long_add (a b : Z) : Z := wrap_long (a + b).
Definition long_sub (a b : Z) : Z := wrap_long (a - b).

Definition in_long (z : Z) : Prop := LONG_MIN <= z <= LONG_MAX.

(** ** double arithmetic (binary64) *)

Module Double.

Definition prec : Z := 53.
Definition emax : Z := 1024.

Definition double : Type := spec_float.

Definition add : double -> double -> double := SFadd prec emax.
Definition sub : double -> double -> double := SFsub prec emax.
Definition mul : double -> double -> double := SFmul prec emax.
Definition div : double -> double -> double := SFdiv prec emax.
Definition abs : double -> double := SFabs.
Definition opp : double -> double := SFopp.

Definition eqb : double -> double -> bool := SFeqb.
Definition ltb : double -> double -> bool := SFltb.
Definition leb : double -> double -> bool := SFleb.
Definition gtb (a b : double) : bool := ltb b a.
Definition geb (a b : double) : bool := leb b a.
Definition neqb (a b : double) : bool := negb (eqb a b).

(** Conversion of an integer to double; exact below 2^53. *)
Definition of_long (z : Z) : double := binary_normalize prec emax z 0 false.

Definition zero : double := S754_zero false.
Definition one : double := of_long 1.
Definition two : double := of_long 2.

(** The literal [1e-9]: the binary64 number nearest to 10^-9,
    0x1.12e0be826d695p-30. *)
Definition tol : double := S754_finite false 4835703278458517 (-82).

(** [std::lround]: nearest integer, halfway cases away from zero.  The C
    standard leaves the result unspecified when the value does not fit a
    [long] (or is not a number); the model returns [LONG_MIN] there, which
    is what the x86 conversion instruction produces. *)
Definition lround (d : double) : Z :=
  match d with
  | S754_zero _ => 0
  | S754_finite s m e =>
      let mag :=
        match e with
        | Zneg k =>
            let q := Z.shiftr (Zpos m) (Zpos k) in
            if Z.testbit (Zpos m) (Zpos k - 1) then q + 1 else q
        | _ => Z.shiftl (Zpos m) e
        end in
      let v := if s then - mag else mag in
      if (LONG_MIN <=? v) && (v <=? LONG_MAX) then v else LONG_MIN
  | _ => LONG_MIN
  end.

(** [std::clamp(v, lo, hi)] on doubles. *)
Definition clamp (v lo hi : double) : double :=
  if ltb v lo then lo else if ltb hi v then hi else v.

End Double.

Abbreviation double := Double.double.

(** [std::clamp(v, lo, hi)] on longs.  The library requires [lo <= hi] and
    leaves the call undefined otherwise; the value is then the one of the
    form [min(max(v, lo), hi)], which is [hi]. *)
Definition clamp_long (v lo hi : Z) : Z := Z.min (Z.max v lo) hi.

(** ** Data structures *)

Record POINT := mkPOINT { px : Z; py : Z }.

Record RECT := mkRECT { rc_left : Z; rc_top : Z; rc_right : Z; rc_bottom : Z }.

Inductive Edge := Edge_None | Left | Right | Top | Bottom.

Definition Edge_eqb (a b : Edge) : bool :=
  match a, b with
  | Edge_None, Edge_None | Left, Left | Right, Right
  | Top, Top | Bottom, Bottom => true
  | _, _ => false
  end.

Record HitResult := mkHit { edge : Edge; t : double; coord : double }.

(** ** Edge detection: [FindExitEdge] *)

(** The locals [outward] and [horiz] of the lambda [tryEdge]. *)
Definition outward (dx dy : double) (e : Edge) : bool :=
  (Edge_eqb e Left && Double.ltb dx Double.zero) ||
  (Edge_eqb e Right && Double.gtb dx Double.zero) ||
  (Edge_eqb e Top && Double.ltb dy Double.zero) ||
  (Edge_eqb e Bottom && Double.gtb dy Double.zero).

Definition horiz (e : Edge) : bool := Edge_eqb e Left || Edge_eqb e Right.

(** The lambda [tryEdge] of [FindExitEdge]; the captured [best] is passed in
    and the updated value returned. *)
Definition tryEdge (dx dy : double) (best : HitResult)
    (e : Edge) (t0 along : double) : HitResult :=
  if Double.ltb t0 (Double.opp Double.tol) || Double.gtb t0 Double.one then best
  else if Double.ltb t0 Double.tol && negb (outward dx dy e) then best
  else if Double.ltb t0 (Double.sub (t best) Double.tol) then mkHit e t0 along
  else if Double.ltb (Double.abs (Double.sub t0 (t best))) Double.tol then
    let best1 :=
      if horiz e && Double.geb (Double.abs dx) (Double.abs dy)
      then mkHit e t0 along else best in
    if negb (horiz e) && Double.gtb (Double.abs dy) (Double.abs dx)
    then mkHit e t0 along else best1
  else best.

(** A division whose evaluation with a zero denominator is an error. *)
Definition checked_div (a b : double) : option double :=
  if Double.eqb b Double.zero then None else Some (Double.div a b).

Definition bind {A B : Type} (m : option A) (f : A -> option B) : option B :=
  match m with
  | Some a => f a
  | None => None
  end.

Notation "x <- m ;; k" := (bind m (fun x => k))
  (at level 61, m at next level, right associativity).

Definition segment_dx (p0 p1 : POINT) : double :=
  Double.sub (Double.of_long (px p1)) (Double.of_long (px p0)).
Definition segment_dy (p0 p1 : POINT) : double :=
  Double.sub (Double.of_long (py p1)) (Double.of_long (py p0)).

Definition initial_best : HitResult := mkHit Edge_None Double.two Double.zero.

(** One of the two tests against a vertical boundary line [x = bound]. *)
Definition try_vertical_line (p0 : POINT) (rc : RECT) (dx dy : double)
    (e : Edge) (bound : Z) (best : HitResult) : option HitResult :=
  if Double.neqb dx Double.zero then
    t0 <- checked_div (Double.of_long (long_sub bound (px p0))) dx ;;
    let y := Double.add (Double.of_long (py p0)) (Double.mul t0 dy) in
    if Double.geb y (Double.of_long (rc_top rc)) &&
       Double.leb y (Double.of_long (rc_bottom rc))
    then Some (tryEdge dx dy best e t0 y)
    else Some best
  else Some best.

(** One of the two tests against a horizontal boundary line [y = bound]. *)
Definition try_horizontal_line (p0 : POINT) (rc : RECT) (dx dy : double)
    (e : Edge) (bound : Z) (best : HitResult) : option HitResult :=
  if Double.neqb dy Double.zero then
    t0 <- checked_div (Double.of_long (long_sub bound (py p0))) dy ;;
    let x := Double.add (Double.of_long (px p0)) (Double.mul t0 dx) in
    if Double.geb x (Double.of_long (rc_left rc)) &&
       Double.leb x (Double.of_long (rc_right rc))
    then Some (tryEdge dx dy best e t0 x)
    else Some best
  else Some best.

Definition FindExitEdge (p0 p1 : POINT) (rc : RECT) : option HitResult :=
  let dx := segment_dx p0 p1 in
  let dy := segment_dy p0 p1 in
  best <- try_vertical_line p0 rc dx dy Right (rc_right rc) initial_best ;;
  best <- try_vertical_line p0 rc dx dy Left (rc_left rc) best ;;
  best <- try_horizontal_line p0 rc dx dy Bottom (rc_bottom rc) best ;;
  try_horizontal_line p0 rc dx dy Top (rc_top rc) best.

(** ** Percentage mapping: [RemapCursor] *)

Definition RemapCursor (src dst : RECT) (e : Edge) (hitCoord : double)
    : option POINT :=
  let '(ovStart, ovEnd, srcStart, srcEnd, dstStart, dstEnd) :=
    match e with
    | Left | Right =>
        (Z.max (rc_top src) (rc_top dst), Z.min (rc_bottom src) (rc_bottom dst),
         rc_top src, rc_bottom src, rc_top dst, rc_bottom dst)
    | _ =>
        (Z.max (rc_left src) (rc_left dst), Z.min (rc_right src) (rc_right dst),
         rc_left src, rc_right src, rc_left dst, rc_right dst)
    end in
  let srcLen := long_sub srcEnd srcStart in
  let dstLen := long_sub dstEnd dstStart in
  if (long_sub ovEnd ovStart <=? 0) || (srcLen <=? 0) || (dstLen <=? 0) then None
  else
    let pct := Double.div (Double.sub hitCoord (Double.of_long srcStart))
                          (Double.of_long srcLen) in
    let pct := Double.clamp pct Double.zero Double.one in
    let mapped :=
      long_add dstStart (Double.lround (Double.mul pct (Double.of_long dstLen))) in
    let mapped := clamp_long mapped (long_add dstStart 1) (long_sub dstEnd 2) in
    match e with
    | Right => Some (mkPOINT (long_add (rc_left dst) 1) mapped)
    | Left => Some (mkPOINT (long_sub (rc_right dst) 2) mapped)
    | Bottom => Some (mkPOINT mapped (long_add (rc_top dst) 1))
    | Top => Some (mkPOINT mapped (long_sub (rc_bottom dst) 2))
    | Edge_None => None
    end.

(** ** Monitor records and the topology signature *)

Definition HMONITOR : Type := Z.
Definition nullptr : HMONITOR := 0.

Definition CCHDEVICENAME : nat := 32.

(** [device] is the array [WCHAR device[CCHDEVICENAME]], a list of 16-bit
    code units; a list shorter than the array stands for the array padded
    with zeros. *)
Record MonitorInfo := mkMonitorInfo {
  handle : HMONITOR;
  rc : RECT;
  primary : bool;
  device : list Z
}.

(** [wmemcmp(a, b, n)]: sign of the first differing code unit. *)
Fixpoint wmemcmp (a b : list Z) (n : nat) : Z :=
  match n with
  | O => 0
  | S n' =>
      let ca := hd 0 a in
      let cb := hd 0 b in
      if ca <? cb then -1
      else if cb <? ca then 1
      else wmemcmp (tl a) (tl b) n'
  end.

(** The comparison lambda given to [std::sort]. *)
Definition monitor_less (a b : MonitorInfo) : bool :=
  let cmp := wmemcmp (device a) (device b) CCHDEVICENAME in
  if negb (cmp =? 0) then cmp <? 0
  else if negb (rc_left (rc a) =? rc_left (rc b))
       then rc_left (rc a) <? rc_left (rc b)
       else rc_top (rc a) <? rc_top (rc b).

(** [std::sort] leaves the vector a permutation of itself in which no
    element sorts before an earlier one, and promises nothing about the order
    of elements that tie.  The model is the insertion sort the library runs
    on short ranges: every element is moved towards the front past the
    elements it is less than.  What is proved below of a sorted vector rests
    on its being a sorted permutation and on equal inputs being sorted
    alike, or is stated for vectors without ties, where there is only one
    sorted permutation. *)
Fixpoint sort_insert {A : Type} (less : A -> A -> bool) (l : list A) (v : A)
    : list A :=
  match l with
  | [] => [v]
  | h :: tl0 => if less v h then v :: h :: tl0 else h :: sort_insert less tl0 v
  end.

Definition std_sort {A : Type} (less : A -> A -> bool) (l : list A) : list A :=
  fold_left (sort_insert less) l [].

(** [printf]'s [%ld] and [%d]. *)
Definition format_ld (z : Z) : string := NilZero.string_of_int (Z.to_int z).
Definition format_bool (b : bool) : string := if b then "1" else "0".

(** The loop that appends the device name, narrowed to [char], up to its
    first zero code unit. *)
Fixpoint narrow_device (d : list Z) (n : nat) : string :=
  match n, d with
  | S n', c :: d' =>
      if c =? 0 then EmptyString
      else String (ascii_of_N (Z.to_N (c mod 256))) (narrow_device d' n')
  | _, _ => EmptyString
  end.

Definition signature_entry (m : MonitorInfo) : string :=
  (format_ld (rc_left (rc m)) ++ "," ++ format_ld (rc_top (rc m)) ++ "," ++
   format_ld (rc_right (rc m)) ++ "," ++ format_ld (rc_bottom (rc m)) ++ "," ++
   format_bool (primary m) ++ "," ++
   narrow_device (device m) CCHDEVICENAME ++ ";")%string.

Fixpoint concat_entries (mons : list MonitorInfo) : string :=
  match mons with
  | [] => EmptyString
  | m :: rest => (signature_entry m ++ concat_entries rest)%string
  end.

(** [BuildTopoSignature] sorts its argument in place and returns the
    signature: the model returns both. *)
Definition BuildTopoSignature (mons : list MonitorInfo)
    : list MonitorInfo * string :=
  let sorted := std_sort monitor_less mons in
  (sorted, concat_entries sorted).

Definition topo_signature (mons : list MonitorInfo) : string :=
  snd (BuildTopoSignature mons).

(** ** Global state and monitor enumeration *)

Record State := mkState {
  g_monitors : list MonitorInfo;
  g_topoSignature : string;
  g_lastMonitor : HMONITOR;
  g_lastPos : POINT;
  g_suppressing : bool
}.

Definition unknown_pos : POINT := mkPOINT LONG_MIN LONG_MIN.

Definition initial_state : State :=
  mkState [] EmptyString nullptr unknown_pos false.

Record MONITORINFOEXW := mkMONITORINFOEXW {
  rcMonitor : RECT;
  dwFlags : Z;
  szDevice : list Z
}.

Definition MONITORINFOF_PRIMARY : Z := 1.

(** What the system hands to the enumeration callback for one display: the
    handle, and the result of [GetMonitorInfoW] on it. *)
Definition Display : Type := (HMONITOR * option MONITORINFOEXW)%type.

Definition MonitorEnumProc (out : list MonitorInfo) (d : Display)
    : list MonitorInfo :=
  match snd d with
  | Some mi =>
      out ++ [mkMonitorInfo (fst d) (rcMonitor mi)
                (negb (Z.land (dwFlags mi) MONITORINFOF_PRIMARY =? 0))
                (firstn CCHDEVICENAME (szDevice mi))]
  | None => out
  end.

Definition EnumDisplayMonitors (displays : list Display) : list MonitorInfo :=
  fold_left MonitorEnumProc displays [].

Definition RefreshMonitors (displays : list Display) (st : State) : State :=
  let fresh := EnumDisplayMonitors displays in
  let '(fresh, sig) := BuildTopoSignature fresh in
  if String.eqb sig (g_topoSignature st) then st
  else mkState fresh sig nullptr unknown_pos (g_suppressing st).

(** ** The low-level mouse hook *)

Fixpoint FindMonitor (mons : list MonitorInfo) (h : HMONITOR)
    : option MonitorInfo :=
  match mons with
  | [] => None
  | m :: rest => if handle m =? h then Some m else FindMonitor rest h
  end.

Definition HC_ACTION : Z := 0.
Definition WM_MOUSEMOVE : Z := 512.
Definition LLMHF_INJECTED : Z := 1.

Record MSLLHOOKSTRUCT := mkMSLLHOOKSTRUCT { pt : POINT; flags : Z }.

(** What the hook procedure returns: [1] (the event is swallowed), or the
    result of [CallNextHookEx] on the arguments handed on. *)
Inductive LRESULT :=
| Swallow
| CallNextHookEx (nCode wParam : Z) (ms : MSLLHOOKSTRUCT).

(** The system calls of the hook.  [SetCursorPos] runs while the globals are
    live and the system may call the hook again before it returns, so it
    takes the state and gives back the state it leaves. *)
Record Env := mkEnv {
  MonitorFromPoint : POINT -> HMONITOR;
  SetCursorPos : Z -> Z -> State -> State * bool
}.

Definition set_suppressing (b : bool) (st : State) : State :=
  mkState (g_monitors st) (g_topoSignature st) (g_lastMonitor st)
          (g_lastPos st) b.

Definition set_last (h : HMONITOR) (p : POINT) (st : State) : State :=
  mkState (g_monitors st) (g_topoSignature st) h p (g_suppressing st).

Definition POINT_eqb (a b : POINT) : bool := (px a =? px b) && (py a =? py b).

(** The block guarded by the crossing test.  [Some (st, true)] stands for
    [return 1]; [Some (st, false)] for falling through to [done]. *)
Definition handle_crossing (env : Env) (p : POINT) (curMon : HMONITOR)
    (st : State) : option (State * bool) :=
  if negb (g_lastMonitor st =? nullptr) &&
     negb (curMon =? g_lastMonitor st) &&
     negb (px (g_lastPos st) =? LONG_MIN)
  then
    match FindMonitor (g_monitors st) (g_lastMonitor st),
          FindMonitor (g_monitors st) curMon with
    | Some src, Some dst =>
        hit <- FindExitEdge (g_lastPos st) p (rc src) ;;
        if negb (Edge_eqb (edge hit) Edge_None) then
          match RemapCursor (rc src) (rc dst) (edge hit) (coord hit) with
          | Some mapped =>
              if negb (POINT_eqb mapped p) then
                let st1 := set_suppressing true st in
                let '(st2, ok) := SetCursorPos env (px mapped) (py mapped) st1 in
                let st3 := set_suppressing false st2 in
                if ok
                then Some (set_last (MonitorFromPoint env mapped) mapped st3, true)
                else Some (st3, false)
              else Some (st, false)
          | None => Some (st, false)
          end
        else Some (st, false)
    | _, _ => Some (st, false)
    end
  else Some (st, false).

(** The code after the label [done]. *)
Definition track_position (env : Env) (wParam : Z) (ms : MSLLHOOKSTRUCT)
    (st : State) : State :=
  if wParam =? WM_MOUSEMOVE then
    let cur := MonitorFromPoint env (pt ms) in
    if negb (cur =? nullptr) then set_last cur (pt ms) st else st
  else st.

Definition MouseHookProc (env : Env) (nCode wParam : Z) (ms : MSLLHOOKSTRUCT)
    (st : State) : option (State * LRESULT) :=
  if (nCode =? HC_ACTION) && (wParam =? WM_MOUSEMOVE) then
    if negb (Z.land (flags ms) LLMHF_INJECTED =? 0)
    then Some (st, CallNextHookEx nCode wParam ms)
    else if g_suppressing st
    then Some (st, CallNextHookEx nCode wParam ms)
    else
      let p := pt ms in
      let curMon := MonitorFromPoint env p in
      if curMon =? nullptr
      then Some (track_position env wParam ms st, CallNextHookEx nCode wParam ms)
      else
        r <- handle_crossing env p curMon st ;;
        if snd r then Some (fst r, Swallow)
        else Some (track_position env wParam ms (fst r),
                   CallNextHookEx nCode wParam ms)
  else Some (st, CallNextHookEx nCode wParam ms).

(** A system whose [SetCursorPos] delivers the injected move event to the
    hook before it returns [ok]. *)
Definition reentrant_SetCursorPos (mfp : POINT -> HMONITOR) (ok : bool)
    (x0 y0 : Z) (st : State) : State * bool :=
  let inner := mkEnv mfp (fun _ _ s => (s, false)) in
  match MouseHookProc inner HC_ACTION WM_MOUSEMOVE
          (mkMSLLHOOKSTRUCT (mkPOINT x0 y0) LLMHF_INJECTED) st with
  | Some (st', _) => (st', ok)
  | None => (st, ok)
  end.

Definition reentrant_env (mfp : POINT -> HMONITOR) (ok : bool) : Env :=
  mkEnv mfp (reentrant_SetCursorPos mfp ok).

(** ** The window procedure and the entry point *)

Definition WM_CLOSE : Z := 16.
Definition WM_SETTINGCHANGE : Z := 26.
Definition WM_DISPLAYCHANGE : Z := 126.
Definition WM_TIMER : Z := 275.
Definition TIMER_TOPO_CHECK : Z := 1.

(** What the window procedure does besides changing the globals: it returns
    0, after [PostQuitMessage(0)] or not, or the result of [DefWindowProc]. *)
Inductive WNDRESULT :=
| Return0 (quit_posted : bool)
| DefWindowProc (msg wParam : Z).

(** [displays] is what the system would enumerate when the message is
    handled. *)
Definition WndProc (displays : list Display) (msg wParam : Z) (st : State)
    : State * WNDRESULT :=
  if (msg =? WM_DISPLAYCHANGE) || (msg =? WM_SETTINGCHANGE)
  then (RefreshMonitors displays st, Return0 false)
  else if msg =? WM_TIMER
  then ((if wParam =? TIMER_TOPO_CHECK then RefreshMonitors displays st else st),
        Return0 false)
  else if msg =? WM_CLOSE then (st, Return0 true)
  else (st, DefWindowProc msg wParam).

(** The system calls of [main] that acquire or release something. *)
Inductive SystemCall :=
| SetProcessDpiAwarenessContext
| SetConsoleCtrlHandler
| RegisterClassW
| CreateWindowExW
| SetTimer
| SetWindowsHookExW
| UnhookWindowsHookEx
| KillTimer
| DestroyWindow.

(** Whether the fallible calls of the start-up succeed. *)
Record Startup := mkStartup {
  RegisterClassW_ok : bool;
  CreateWindowExW_ok : bool;
  SetTimer_ok : bool;
  SetWindowsHookExW_ok : bool
}.

(** What reaches the program while [main] sits in its message loop: a call
    of the hook procedure, or a message dispatched to the window
    procedure.  A run of the loop is described by the finite sequence of
    what reached the program before [GetMessage] returned 0 or -1; a run in
    which [GetMessage] never does so has no such sequence, and the model
    says nothing of how it would end. *)
Inductive Input :=
| HookCall (nCode wParam : Z) (ms : MSLLHOOKSTRUCT)
| WindowMessage (displays : list Display) (msg wParam : Z).

Definition dispatch (env : Env) (st : State) (i : Input) : option State :=
  match i with
  | HookCall nCode wParam ms =>
      r <- MouseHookProc env nCode wParam ms st ;; Some (fst r)
  | WindowMessage displays msg wParam =>
      Some (fst (WndProc displays msg wParam st))
  end.

(** The message loop of a run in which [GetMessage] returns 0 or -1 after
    [inputs]: the recursion follows the given sequence, so that the loop
    ends is part of what is given. *)
Fixpoint message_loop (env : Env) (inputs : list Input) (st : State)
    : option State :=
  match inputs with
  | [] => Some st
  | i :: rest => st' <- dispatch env st i ;; message_loop env rest st'
  end.

(** [main]: the calls made, the final globals and the exit code.
    [displays] is the first enumeration, [inputs] what reaches the program
    before [GetMessage] ends the loop. *)
Definition main (env : Env) (os : Startup) (displays : list Display)
    (inputs : list Input) : option (list SystemCall * State * Z) :=
  let calls := [SetProcessDpiAwarenessContext; SetConsoleCtrlHandler] in
  let st := RefreshMonitors displays initial_state in
  match g_monitors st with
  | [] => Some (calls, st, 1)
  | _ :: _ =>
      let calls := calls ++ [RegisterClassW] in
      if negb (RegisterClassW_ok os) then Some (calls, st, 1)
      else
        let calls := calls ++ [CreateWindowExW] in
        if negb (CreateWindowExW_ok os) then Some (calls, st, 1)
        else
          let calls := calls ++ [SetTimer] in
          if negb (SetTimer_ok os) then Some (calls ++ [DestroyWindow], st, 1)
          else
            let calls := calls ++ [SetWindowsHookExW] in
            if negb (SetWindowsHookExW_ok os)
            then Some (calls ++ [DestroyWindow], st, 1)
            else
              st' <- message_loop env inputs st ;;
              Some (calls ++ [UnhookWindowsHookEx; KillTimer; DestroyWindow],
                    st', 0)
  end.

(** ** Definitions used to state the properties *)

(** *** Integers as doubles *)

Definition shl (q : positive) (n : nat) : positive := Nat.iter n xO q.

(** The binary64 number of value [q * 2^E], for [q] of at most 53 bits: the
    mantissa is [q] shifted to 53 bits. *)
Definition normal (s : bool) (q : positive) (E : Z) : double :=
  let d := Zpos (digits2_pos q) in
  S754_finite s (shl q (Z.to_nat (53 - d))) (E - (53 - d)).

(** The binary64 number whose value is the integer [z], for [|z| < 2^53]. *)
Definition exact (z : Z) : double :=
  match z with
  | Z0 => S754_zero false
  | Zpos p => normal false p 0
  | Zneg p => normal true p 0
  end.

Definition small (z : Z) : Prop := Z.abs z < 2 ^ 53.

Definition signed (s : bool) (m : positive) : Z := cond_Zopp s (Zpos m).

(** A double that is not above zero: a zero, a negative number, or no number
    at all. *)
Definition not_positive (d : double) : Prop :=
  match d with
  | S754_zero _ | S754_finite true _ _ | S754_infinity true | S754_nan => True
  | _ => False
  end.

Definition long_point (p : POINT) : Prop := in_long (px p) /\ in_long (py p).

Definition long_rect (r : RECT) : Prop :=
  in_long (rc_left r) /\ in_long (rc_top r) /\
  in_long (rc_right r) /\ in_long (rc_bottom r).

(** *** The selection rule of [FindExitEdge], stated on a list of candidates *)

Record Candidate := mkCandidate {
  c_edge : Edge;
  c_t : double;
  c_along : double
}.

Definition hit_of (c : Candidate) : HitResult :=
  mkHit (c_edge c) (c_t c) (c_along c).

(** A candidate is accepted when its parameter lies in [-1e-9, 1] and, if
    it is below [1e-9], the segment leaves through that very boundary. *)
Definition accepted (dx dy : double) (c : Candidate) : bool :=
  negb (Double.ltb (c_t c) (Double.opp Double.tol) ||
        Double.gtb (c_t c) Double.one) &&
  (if Double.ltb (c_t c) Double.tol then outward dx dy (c_edge c) else true).

(** The tie-break: Left/Right wins when [|dx| >= |dy|], Top/Bottom when
    [|dy| > |dx|]. *)
Definition wins_tie (dx dy : double) (e : Edge) : bool :=
  if horiz e then Double.geb (Double.abs dx) (Double.abs dy)
  else Double.gtb (Double.abs dy) (Double.abs dx).

(** A candidate replaces the held hit when it is earlier by more than the
    tolerance, or within the tolerance and wins the tie-break. *)
Definition replaces (dx dy : double) (held : HitResult) (c : Candidate) : bool :=
  Double.ltb (c_t c) (Double.sub (t held) Double.tol) ||
  (Double.ltb (Double.abs (Double.sub (c_t c) (t held))) Double.tol &&
   wins_tie dx dy (c_edge c)).

Definition consider (dx dy : double) (held : HitResult) (c : Candidate)
    : HitResult :=
  if accepted dx dy c && replaces dx dy held c then hit_of c else held.

Definition select (dx dy : double) (cands : list Candidate) : HitResult :=
  fold_left (consider dx dy) cands initial_best.

(** The crossing of the line [x = bound], when the segment is not vertical
    and the crossing lies within the vertical extent of the rectangle. *)
Definition vertical_candidate (p0 p1 : POINT) (r : RECT) (e : Edge) (bound : Z)
    : list Candidate :=
  let dx := segment_dx p0 p1 in
  let dy := segment_dy p0 p1 in
  if Double.neqb dx Double.zero then
    let t0 := Double.div (Double.of_long (long_sub bound (px p0))) dx in
    let y := Double.add (Double.of_long (py p0)) (Double.mul t0 dy) in
    if Double.geb y (Double.of_long (rc_top r)) &&
       Double.leb y (Double.of_long (rc_bottom r))
    then [mkCandidate e t0 y] else []
  else [].

Definition horizontal_candidate (p0 p1 : POINT) (r : RECT) (e : Edge) (bound : Z)
    : list Candidate :=
  let dx := segment_dx p0 p1 in
  let dy := segment_dy p0 p1 in
  if Double.neqb dy Double.zero then
    let t0 := Double.div (Double.of_long (long_sub bound (py p0))) dy in
    let x := Double.add (Double.of_long (px p0)) (Double.mul t0 dx) in
    if Double.geb x (Double.of_long (rc_left r)) &&
       Double.leb x (Double.of_long (rc_right r))
    then [mkCandidate e t0 x] else []
  else [].

(** The boundary candidates in the order the source examines them. *)
Definition boundary_candidates (p0 p1 : POINT) (r : RECT) : list Candidate :=
  vertical_candidate p0 p1 r Right (rc_right r) ++
  vertical_candidate p0 p1 r Left (rc_left r) ++
  horizontal_candidate p0 p1 r Bottom (rc_bottom r) ++
  horizontal_candidate p0 p1 r Top (rc_top r).

(** *** Positions relative to a rectangle *)

(** Not on a boundary line of the rectangle. *)
Definition strictly_inside (p : POINT) (r : RECT) : Prop :=
  rc_left r < px p < rc_right r /\ rc_top r < py p < rc_bottom r.

(** At least one pixel away from the first and from the last pixel of the
    rectangle, on both axes. *)
Definition inset_inside (p : POINT) (r : RECT) : Prop :=
  rc_left r + 1 <= px p <= rc_right r - 2 /\
  rc_top r + 1 <= py p <= rc_bottom r - 2.

(** The extent of a rectangle along the axis [RemapCursor] maps on for an
    edge: vertical for Left/Right, horizontal otherwise. *)
Definition axis_start (e : Edge) (r : RECT) : Z :=
  match e with Left | Right => rc_top r | _ => rc_left r end.
Definition axis_end (e : Edge) (r : RECT) : Z :=
  match e with Left | Right => rc_bottom r | _ => rc_right r end.

Definition axis_length (e : Edge) (r : RECT) : Z := axis_end e r - axis_start e r.

Definition axis_overlap (e : Edge) (src dst : RECT) : Z :=
  Z.min (axis_end e src) (axis_end e dst) -
  Z.max (axis_start e src) (axis_start e dst).

(** *** Sorting *)

(** The order tells apart the elements of the list that differ. *)
Definition ties_equal {A : Type} (less : A -> A -> bool) (l : list A) : Prop :=
  forall a b, In a l -> In b l ->
    less a b = false -> less b a = false -> a = b.

(** *** Monitor records as the signature sees them *)

(** The [n] code units of a device array. *)
Fixpoint device_array (d : list Z) (n : nat) : list Z :=
  match n with
  | O => []
  | S n' => hd 0 d :: device_array (tl d) n'
  end.

(** The tuple (rectangle, primary flag, device name) of a record. *)
Definition monitor_tuple (m : MonitorInfo) : RECT * bool * list Z :=
  (rc m, primary m, device_array (device m) CCHDEVICENAME).

(** The record without its handle. *)
Definition forget_handle (m : MonitorInfo) : MonitorInfo :=
  mkMonitorInfo nullptr (rc m) (primary m)
    (device_array (device m) CCHDEVICENAME).

(** What the signature shows of a record: the device name narrowed to
    [char] and cut at its first zero. *)
Definition printed_tuple (m : MonitorInfo) : RECT * bool * string :=
  (rc m, primary m, narrow_device (device m) CCHDEVICENAME).

(** Two records share the sort key: device name, left and top. *)
Definition same_sort_key (a b : MonitorInfo) : Prop :=
  device_array (device a) CCHDEVICENAME = device_array (device b) CCHDEVICENAME /\
  rc_left (rc a) = rc_left (rc b) /\ rc_top (rc a) = rc_top (rc b).

(** The sort key tells apart the records of the list that differ. *)
Definition keys_distinct (l : list MonitorInfo) : Prop :=
  forall a b, In a l -> In b l -> same_sort_key a b ->
    monitor_tuple a = monitor_tuple b.

Fixpoint has_char (c : ascii) (s : string) : bool :=
  match s with
  | EmptyString => false
  | String c' s' => Ascii.eqb c c' || has_char c s'
  end.

Definition plain_name (m : MonitorInfo) : Prop :=
  has_char ";" (narrow_device (device m) CCHDEVICENAME) = false.
(** *** A two-monitor arrangement used in the examples *)

(** The code units of ["\\.\DISPLAY1"] and ["\\.\DISPLAY2"]. *)
Definition display1_name : list Z := [92; 92; 46; 92; 68; 73; 83; 80; 76; 65; 89; 49].
Definition display2_name : list Z := [92; 92; 46; 92; 68; 73; 83; 80; 76; 65; 89; 50].

Definition example_displays : list Display :=
  [(1, Some (mkMONITORINFOEXW (mkRECT 0 0 1920 1080) 1 display1_name));
   (2, Some (mkMONITORINFOEXW (mkRECT 1920 0 2560 1440) 0 display2_name))].

Definition example_MonitorFromPoint (p : POINT) : HMONITOR :=
  if (0 <=? px p) && (px p <? 1920) && (0 <=? py p) && (py p <? 1080) then 1
  else if (1920 <=? px p) && (px p <? 2560) && (0 <=? py p) && (py p <? 1440)
  then 2 else nullptr.

(** The state after the first refresh and a move event at (1919, 540). *)
Definition tracking_state : State :=
  set_last 1 (mkPOINT 1919 540) (RefreshMonitors example_displays initial_state).

(** *** The held snapshot *)

(** No element sorts before an earlier one. *)
Definition sorted_by {A : Type} (less : A -> A -> bool) (l : list A) : Prop :=
  StronglySorted (fun a b => less b a = false) l.

(** The held signature is the concatenation of the entries of the held
    monitor list, in the order the list is held in, and the list is in
    sorted order. *)
Definition topology_consistent (st : State) : Prop :=
  g_topoSignature st = concat_entries (g_monitors st) /\
  sorted_by monitor_less (g_monitors st).

(** A system whose relocation call, made with the suppression flag set,
    comes back with the globals as it found them. *)
Definition relocation_keeps_state (env : Env) : Prop :=
  forall x0 y0 s,
    g_suppressing s = true -> fst (SetCursorPos env x0 y0 s) = s.

(** The record [MonitorEnumProc] builds for a display. *)
Definition record_of (h : HMONITOR) (mi : MONITORINFOEXW) : MonitorInfo :=
  mkMonitorInfo h (rcMonitor mi)
    (negb (Z.land (dwFlags mi) MONITORINFOF_PRIMARY =? 0))
    (firstn CCHDEVICENAME (szDevice mi)).

(** *** The crossings [FindExitEdge] computes *)

(** What the test of one boundary line puts up as a candidate. *)
Definition vertical_crossing (p0 p1 : POINT) (r : RECT) (bound : Z)
    (c : Candidate) : Prop :=
  Double.neqb (segment_dx p0 p1) Double.zero = true /\
  c_t c = Double.div (Double.of_long (long_sub bound (px p0))) (segment_dx p0 p1) /\
  c_along c = Double.add (Double.of_long (py p0))
                         (Double.mul (c_t c) (segment_dy p0 p1)) /\
  Double.geb (c_along c) (Double.of_long (rc_top r)) = true /\
  Double.leb (c_along c) (Double.of_long (rc_bottom r)) = true.

Definition horizontal_crossing (p0 p1 : POINT) (r : RECT) (bound : Z)
    (c : Candidate) : Prop :=
  Double.neqb (segment_dy p0 p1) Double.zero = true /\
  c_t c = Double.div (Double.of_long (long_sub bound (py p0))) (segment_dy p0 p1) /\
  c_along c = Double.add (Double.of_long (px p0))
                         (Double.mul (c_t c) (segment_dx p0 p1)) /\
  Double.geb (c_along c) (Double.of_long (rc_left r)) = true /\
  Double.leb (c_along c) (Double.of_long (rc_right r)) = true.

(** The coordinate of a point along the axis [RemapCursor] maps on. *)
Definition along_coordinate (e : Edge) (p : POINT) : Z :=
  match e with Left | Right => py p | _ => px p end.

(** *** Straight moves *)

(** A double in (0, 1]: positive, with an exponent below that of 1, or 1
    itself. *)
Definition unit_fraction (d : double) : Prop :=
  match d with
  | S754_finite false m e => e < -52 \/ (e = -52 /\ m = 4503599627370496%positive)
  | _ => False
  end.

(** The parameter of a crossing between the start point, included, and the
    end point, included. *)
Definition exit_parameter (d : double) : Prop :=
  unit_fraction d \/ exists s, d = S754_zero s.

(** Within the rectangle, its boundary lines included. *)
Definition within (p : POINT) (r : RECT) : Prop :=
  rc_left r <= px p <= rc_right r /\ rc_top r <= py p <= rc_bottom r.

(** The end point lies straight along an axis from the start point, on or
    beyond the boundary line of the edge. *)
Definition leaves_straight (e : Edge) (p0 p1 : POINT) (r : RECT) : Prop :=
  match e with
  | Right => py p1 = py p0 /\ px p0 < px p1 /\ rc_right r <= px p1
  | Left => py p1 = py p0 /\ px p1 < px p0 /\ px p1 <= rc_left r
  | Bottom => px p1 = px p0 /\ py p0 < py p1 /\ rc_bottom r <= py p1
  | Top => px p1 = px p0 /\ py p1 < py p0 /\ py p1 <= rc_top r
  | Edge_None => False
  end.

(** The coordinate of a point across the axis [RemapCursor] maps on. *)
Definition across_coordinate (e : Edge) (p : POINT) : Z :=
  match e with Left | Right => px p | _ => py p end.

(** Where [RemapCursor] puts the cursor across the boundary: one pixel in
    from the destination's first pixel, or from its last. *)
Definition entry_coordinate (e : Edge) (dst : RECT) : Z :=
  match e with
  | Right => long_add (rc_left dst) 1
  | Left => long_sub (rc_right dst) 2
  | Bottom => long_add (rc_top dst) 1
  | Top => long_sub (rc_bottom dst) 2
  | Edge_None => 0
  end.

(** *** The buffer of [BuildTopoSignature] *)

(** [snprintf(buf, size, ...)]: at most [size - 1] characters of the
    formatted text are stored. *)
Definition snprintf (size : nat) (text : string) : string :=
  substring 0 (size - 1) text.

(** The text of the [snprintf] call of [BuildTopoSignature]. *)
Definition formatted_rectangle (m : MonitorInfo) : string :=
  (format_ld (rc_left (rc m)) ++ "," ++ format_ld (rc_top (rc m)) ++ "," ++
   format_ld (rc_right (rc m)) ++ "," ++ format_ld (rc_bottom (rc m)) ++ "," ++
   format_bool (primary m) ++ ",")%string.

(** One pass of the loop of [BuildTopoSignature], with the buffer. *)
Definition buffered_entry (m : MonitorInfo) : string :=
  (snprintf 256 (formatted_rectangle m) ++
   narrow_device (device m) CCHDEVICENAME ++ ";")%string.

(** * Properties *)

(** ** Integers held in doubles

    A [LONG] converted to double is represented exactly; differences of such
    numbers are exact, and comparisons agree with those of the integers. *)

Lemma shl_S q n : shl q (S n) = xO (shl q n).
Proof. reflexivity. Qed.

Lemma shl_add q n m : shl (shl q n) m = shl q (n + m).
Proof.
  unfold shl. rewrite Nat.add_comm. now rewrite Nat.iter_add.
Qed.

Lemma Zpos_shl q n : Zpos (shl q n) = Zpos q * 2 ^ Z.of_nat n.
Proof.
  induction n as [|n IH].
  - simpl. lia.
  - rewrite shl_S. change (Zpos (shl q n)~0) with (2 * Zpos (shl q n)).
    rewrite IH, Nat2Z.inj_succ, Z.pow_succ_r by lia. lia.
Qed.

Lemma digits_shl q n :
  Zpos (digits2_pos (shl q n)) = Zpos (digits2_pos q) + Z.of_nat n.
Proof.
  induction n as [|n IH].
  - simpl. lia.
  - rewrite shl_S. simpl digits2_pos. rewrite Pos2Z.inj_succ, IH. lia.
Qed.

Lemma pos_iter_shl q d : Pos.iter xO q d = shl q (Pos.to_nat d).
Proof.
  unfold shl. rewrite Pos2Nat.inj_iter. 
  induction (Pos.to_nat d); simpl; congruence.
Qed.

Lemma iter_pos_nat {A} (f : A -> A) p x :
  iter_pos f p x = Nat.iter (Pos.to_nat p) f x.
Proof.
  revert x. induction p as [p IH|p IH|]; intro x; simpl iter_pos.
  - rewrite !IH. rewrite Pos2Nat.inj_xI.
    replace (S (2 * Pos.to_nat p))%nat with (Pos.to_nat p + (Pos.to_nat p + 1))%nat by lia.
    rewrite !Nat.iter_add. simpl. reflexivity.
  - rewrite !IH. rewrite Pos2Nat.inj_xO.
    replace (2 * Pos.to_nat p)%nat with (Pos.to_nat p + Pos.to_nat p)%nat by lia.
    rewrite Nat.iter_add. reflexivity.
  - reflexivity.
Qed.

Lemma shr_1_shl q n :
  Nat.iter n shr_1 (Build_shr_record (Zpos (shl q n)) false false)
  = Build_shr_record (Zpos q) false false.
Proof.
  induction n as [|n IH].
  - reflexivity.
  - rewrite Nat.iter_succ_r. rewrite shl_S. simpl shr_1. exact IH.
Qed.

Lemma pow2_pred d : 1 <= d -> 2 ^ d = 2 * 2 ^ (d - 1).
Proof.
  intro H. replace d with (Z.succ (d - 1)) at 1 by lia.
  apply Z.pow_succ_r. lia.
Qed.

Lemma digits_pos_bounds p :
  2 ^ (Zpos (digits2_pos p) - 1) <= Zpos p < 2 ^ Zpos (digits2_pos p).
Proof.
  induction p as [p IH|p IH|]; simpl digits2_pos.
  - rewrite Pos2Z.inj_succ. change (Zpos p~1) with (2 * Zpos p + 1).
    rewrite (pow2_pred (Z.succ _)) by lia.
    replace (Z.succ (Zpos (digits2_pos p)) - 1) with (Zpos (digits2_pos p)) by lia.
    pose proof (pow2_pred (Zpos (digits2_pos p)) ltac:(lia)) as H.
    revert IH H. generalize (2 ^ Z.pos (digits2_pos p)) (2 ^ (Z.pos (digits2_pos p) - 1)). lia.
  - rewrite Pos2Z.inj_succ. change (Zpos p~0) with (2 * Zpos p).
    rewrite (pow2_pred (Z.succ _)) by lia.
    replace (Z.succ (Zpos (digits2_pos p)) - 1) with (Zpos (digits2_pos p)) by lia.
    pose proof (pow2_pred (Zpos (digits2_pos p)) ltac:(lia)) as H.
    revert IH H. generalize (2 ^ Z.pos (digits2_pos p)) (2 ^ (Z.pos (digits2_pos p) - 1)). lia.
  - simpl. lia.
Qed.

Lemma shr_fexp_shl q n e :
  Zpos (digits2_pos q) = 53 -> -1074 <= e + Z.of_nat n ->
  shr_fexp Double.prec Double.emax (Zpos (shl q n)) e loc_Exact
  = (Build_shr_record (Zpos q) false false, e + Z.of_nat n).
Proof.
  intros Hd He. unfold shr_fexp, Zdigits2. rewrite digits_shl, Hd.
  replace (fexp Double.prec Double.emax (53 + Z.of_nat n + e) - e) with (Z.of_nat n)
    by (unfold fexp, emin, Double.prec, Double.emax; lia).
  destruct n as [|n].
  - cbn [Z.of_nat shr shr_record_of_loc shl Nat.iter nat_rect]. f_equal. lia.
  - cbn [Z.of_nat shr shr_record_of_loc]. rewrite iter_pos_nat.
    rewrite SuccNat2Pos.id_succ. now rewrite shr_1_shl.
Qed.

Lemma binary_round_aux_shl s q n e :
  Zpos (digits2_pos q) = 53 -> -1074 <= e + Z.of_nat n <= 971 ->
  binary_round_aux Double.prec Double.emax s (Zpos (shl q n)) e loc_Exact
  = S754_finite s q (e + Z.of_nat n).
Proof.
  intros Hd He. unfold binary_round_aux.
  rewrite shr_fexp_shl by (trivial; lia).
  cbn [shr_m loc_of_shr_record round_nearest_even].
  change (Zpos q) with (Zpos (shl q 0)) at 1.
  rewrite shr_fexp_shl by (trivial; simpl; lia).
  cbn [shr_m Z.of_nat]. rewrite Z.add_0_r.
  destruct (Z.leb_spec (e + Z.of_nat n) (Double.emax - Double.prec)) as [_|Hbad]; [reflexivity|].
  unfold Double.emax, Double.prec in Hbad. lia.
Qed.

Lemma binary_round_shl s q j e :
  Zpos (digits2_pos q) <= 53 ->
  -1074 <= e + Z.of_nat j - (53 - Zpos (digits2_pos q)) <= 971 ->
  binary_round Double.prec Double.emax s (shl q j) e = normal s q (e + Z.of_nat j).
Proof.
  intros Hd Hr. unfold binary_round, normal.
  set (d := Zpos (digits2_pos q)) in *.
  assert (Hf : fexp Double.prec Double.emax (Zpos (digits2_pos (shl q j)) + e)
               = d + Z.of_nat j + e - 53).
  { rewrite digits_shl. fold d. unfold fexp, emin, Double.prec, Double.emax. lia. }
  assert (Hd53 : Zpos (digits2_pos (shl q (Z.to_nat (53 - d)))) = 53).
  { rewrite digits_shl. fold d. lia. }
  rewrite Hf. unfold shl_align.
  destruct (d + Z.of_nat j + e - 53 - e) as [|n|n] eqn:Hn.
  - replace j with (Z.to_nat (53 - d) + 0)%nat at 1 by lia.
    rewrite <- shl_add, binary_round_aux_shl; [f_equal| exact Hd53 |]; 
      rewrite ?Nat2Z.inj_0; lia.
  - replace j with (Z.to_nat (53 - d) + Pos.to_nat n)%nat at 1 by lia.
    rewrite <- shl_add, binary_round_aux_shl; [f_equal| exact Hd53 |]; lia.
  - rewrite pos_iter_shl, shl_add.
    replace (j + Pos.to_nat n)%nat with (Z.to_nat (53 - d) + 0)%nat by lia.
    rewrite <- shl_add, binary_round_aux_shl; [f_equal| exact Hd53 |];
      rewrite ?Nat2Z.inj_0; lia.
Qed.




Lemma small_digits p : Zpos p < 2 ^ 53 -> Zpos (digits2_pos p) <= 53.
Proof.
  intro H. destruct (digits_pos_bounds p) as [Hlo _].
  destruct (Z.le_gt_cases (Zpos (digits2_pos p)) 53) as [|Hgt]; [assumption|].
  assert (2 ^ 53 <= 2 ^ (Zpos (digits2_pos p) - 1)).
  { apply Z.pow_le_mono_r; lia. }
  lia.
Qed.

Lemma of_long_exact z : small z -> Double.of_long z = exact z.
Proof.
  unfold small, Double.of_long, exact, binary_normalize. intro H.
  destruct z as [|p|p]; [reflexivity| |].
  - change p with (shl p 0) at 1. rewrite binary_round_shl.
    + reflexivity.
    + apply small_digits. simpl in H. lia.
    + pose proof (small_digits p ltac:(simpl in H; lia)).
      change (Z.of_nat 0) with 0. lia.
  - change p with (shl p 0) at 1. rewrite binary_round_shl.
    + reflexivity.
    + apply small_digits. simpl in H. lia.
    + pose proof (small_digits p ltac:(simpl in H; lia)).
      change (Z.of_nat 0) with 0. lia.
Qed.

Lemma Zneg_shl q n : Zneg (shl q n) = Zneg q * 2 ^ Z.of_nat n.
Proof.
  change (Zneg (shl q n)) with (- Zpos (shl q n)).
  rewrite Zpos_shl. change (Zneg q) with (- Zpos q). lia.
Qed.

Lemma binary_normalize_scaled c k :
  small c ->
  binary_normalize Double.prec Double.emax (c * 2 ^ Z.of_nat k) (- Z.of_nat k) false = exact c.
Proof.
  intro Hc. unfold small in Hc. destruct c as [|p|p].
  - reflexivity.
  - rewrite <- Zpos_shl. unfold binary_normalize, exact.
    pose proof (small_digits p ltac:(lia)).
    rewrite binary_round_shl by lia. f_equal. lia.
  - rewrite <- Zneg_shl. unfold binary_normalize, exact.
    pose proof (small_digits p ltac:(lia)).
    rewrite binary_round_shl by lia. f_equal. lia.
Qed.

Lemma shl_align_fst m e e' :
  e' <= e -> Zpos (fst (shl_align m e e')) = Zpos m * 2 ^ (e - e').
Proof.
  intro H. unfold shl_align. destruct (e' - e) as [|d|d] eqn:Hd.
  - replace (e - e') with 0 by lia. simpl fst. lia.
  - lia.
  - simpl fst. rewrite pos_iter_shl, Zpos_shl. f_equal. f_equal. lia.
Qed.


Lemma normal_scaled s p e' :
  Zpos (digits2_pos p) <= 53 -> e' <= Zpos (digits2_pos p) - 53 ->
  match normal s p 0 with
  | S754_finite s' m e =>
      cond_Zopp s' (Zpos (fst (shl_align m e e'))) = signed s p * 2 ^ (- e')
  | _ => False
  end.
Proof.
  intros Hd He. unfold normal. rewrite shl_align_fst by lia.
  rewrite Zpos_shl. rewrite Z2Nat.id by lia.
  rewrite <- Z.mul_assoc, <- Z.pow_add_r by lia.
  replace (53 - Z.pos (digits2_pos p) + (0 - (53 - Z.pos (digits2_pos p)) - e'))
    with (- e') by lia.
  unfold signed. destruct s; cbn [cond_Zopp]; ring.
Qed.

Ltac sub_by_alignment sa sb pa pb :=
  let Da := fresh "Da" in
  let Db := fresh "Db" in
  let Sa := fresh "Sa" in
  let Sb := fresh "Sb" in
  pose proof (small_digits pa ltac:(lia)) as Da;
  pose proof (small_digits pb ltac:(lia)) as Db;
  unfold exact at 1 2;
  set (ez := Z.min (Zpos (digits2_pos pa) - 53) (Zpos (digits2_pos pb) - 53));
  pose proof (normal_scaled sa pa ez Da ltac:(lia)) as Sa;
  pose proof (normal_scaled sb pb ez Db ltac:(lia)) as Sb;
  unfold normal in *; cbn [SFsub];
  replace (Z.min (0 - (53 - Z.pos (digits2_pos pa)))
                 (0 - (53 - Z.pos (digits2_pos pb)))) with ez by lia;
  rewrite Sa, Sb; unfold signed, cond_Zopp;
  rewrite <- Z.mul_sub_distr_r;
  replace ez with (- Z.of_nat (Z.to_nat (- ez))) at 2 by lia;
  replace (- ez) with (Z.of_nat (Z.to_nat (- ez))) at 1 by lia;
  now rewrite binary_normalize_scaled.

(** Subtraction of two integers held in doubles is exact. *)
Lemma exact_sub a b :
  Z.abs a < 2 ^ 52 -> Z.abs b < 2 ^ 52 ->
  SFsub Double.prec Double.emax (exact a) (exact b) = exact (a - b).
Proof.
  intros Ha Hb.
  assert (Hab : small (a - b)).
  { unfold small. change (2 ^ 53) with (2 ^ 52 + 2 ^ 52). lia. }
  assert (H52 : 2 ^ 52 < 2 ^ 53) by reflexivity.
  destruct a as [|pa|pa], b as [|pb|pb]; try reflexivity.
  - sub_by_alignment false false pa pb.
  - sub_by_alignment false true pa pb.
  - sub_by_alignment true false pa pb.
  - sub_by_alignment true true pa pb.
Qed.

Lemma shl_compare a b n : (shl a n ?= shl b n)%positive = (a ?= b)%positive.
Proof.
  induction n as [|n IH]; [reflexivity|].
  rewrite !shl_S. exact IH.
Qed.

Lemma digits_lt_lt a b :
  Zpos (digits2_pos a) < Zpos (digits2_pos b) -> (a < b)%positive.
Proof.
  intro H. destruct (digits_pos_bounds a) as [_ Ha].
  destruct (digits_pos_bounds b) as [Hb _].
  assert (2 ^ Zpos (digits2_pos a) <= 2 ^ (Zpos (digits2_pos b) - 1))
    by (apply Z.pow_le_mono_r; lia).
  lia.
Qed.

Lemma normal_compare a b :
  SFcompare (normal false a 0) (normal false b 0) = Some (a ?= b)%positive.
Proof.
  unfold normal. cbn [SFcompare]. f_equal.
  destruct (Z.compare_spec (0 - (53 - Zpos (digits2_pos a)))
                           (0 - (53 - Zpos (digits2_pos b)))) as [He|He|He].
  - replace (Zpos (digits2_pos b)) with (Zpos (digits2_pos a)) by lia.
    apply shl_compare.
  - symmetry. apply Pos.compare_lt_iff. apply digits_lt_lt. lia.
  - symmetry. apply Pos.compare_gt_iff. apply digits_lt_lt. lia.
Qed.

Lemma normal_compare_neg a b :
  SFcompare (normal true a 0) (normal true b 0) = Some (CompOpp (a ?= b)%positive).
Proof.
  unfold normal. cbn [SFcompare]. f_equal.
  destruct (Z.compare_spec (0 - (53 - Zpos (digits2_pos a)))
                           (0 - (53 - Zpos (digits2_pos b)))) as [He|He|He].
  - replace (Zpos (digits2_pos b)) with (Zpos (digits2_pos a)) by lia.
    f_equal. apply shl_compare.
  - assert (Hlt : (a < b)%positive) by (apply digits_lt_lt; lia).
    apply Pos.compare_lt_iff in Hlt. now rewrite Hlt.
  - assert (Hlt : (b < a)%positive) by (apply digits_lt_lt; lia).
    apply Pos.compare_gt_iff in Hlt. now rewrite Hlt.
Qed.

Lemma exact_compare a b : SFcompare (exact a) (exact b) = Some (a ?= b).
Proof.
  destruct a as [|pa|pa], b as [|pb|pb]; try reflexivity.
  - apply normal_compare.
  - cbn [exact]. rewrite normal_compare_neg. reflexivity.
Qed.

Lemma exact_abs a : SFabs (exact a) = exact (Z.abs a).
Proof. destruct a; reflexivity. Qed.

Lemma exact_ltb a b : SFltb (exact a) (exact b) = (a <? b).
Proof. unfold SFltb, Z.ltb. rewrite exact_compare. now destruct (a ?= b). Qed.

Lemma exact_leb a b : SFleb (exact a) (exact b) = (a <=? b).
Proof. unfold SFleb, Z.leb. rewrite exact_compare. now destruct (a ?= b). Qed.

Lemma exact_eqb a b : SFeqb (exact a) (exact b) = (a =? b).
Proof.
  unfold SFeqb. rewrite exact_compare.
  destruct (Z.eqb_spec a b), (Z.compare_spec a b); (reflexivity || lia).
Qed.

(** The literal [1e-9] is the quotient of 1 by 10^9, rounded once. *)
Lemma tol_nearest :
  Double.tol = Double.div Double.one (Double.of_long 1000000000).
Proof. vm_compute. reflexivity. Qed.

Lemma in_long_small z : in_long z -> small z.
Proof.
  unfold in_long, small, LONG_MIN, LONG_MAX. intro H.
  change (2 ^ 53) with 9007199254740992. lia.
Qed.

Lemma in_long_abs z : in_long z -> Z.abs z < 2 ^ 52.
Proof.
  unfold in_long, LONG_MIN, LONG_MAX. intro H.
  change (2 ^ 52) with 4503599627370496. lia.
Qed.

Lemma of_long_long z : in_long z -> Double.of_long z = exact z.
Proof. intro H. apply of_long_exact, in_long_small, H. Qed.

Lemma wrap_long_id z : in_long z -> wrap_long z = z.
Proof.
  unfold in_long, LONG_MIN, LONG_MAX, wrap_long. intro H.
  rewrite Z.mod_small by lia. lia.
Qed.

Lemma wrap_long_range z : in_long (wrap_long z).
Proof.
  unfold in_long, LONG_MIN, LONG_MAX, wrap_long.
  pose proof (Z.mod_pos_bound (z + 2147483648) 4294967296 ltac:(lia)). lia.
Qed.

Lemma long_sub_exact a b : in_long (a - b) -> long_sub a b = a - b.
Proof. apply wrap_long_id. Qed.

Lemma long_add_exact a b : in_long (a + b) -> long_add a b = a + b.
Proof. apply wrap_long_id. Qed.

Lemma sub_of_long a b :
  in_long a -> in_long b ->
  Double.sub (Double.of_long a) (Double.of_long b) = exact (a - b).
Proof.
  intros Ha Hb. rewrite !of_long_long by assumption.
  apply exact_sub; now apply in_long_abs.
Qed.

Lemma segment_dx_exact p0 p1 :
  long_point p0 -> long_point p1 -> segment_dx p0 p1 = exact (px p1 - px p0).
Proof. intros [H0 _] [H1 _]. now apply sub_of_long. Qed.

Lemma segment_dy_exact p0 p1 :
  long_point p0 -> long_point p1 -> segment_dy p0 p1 = exact (py p1 - py p0).
Proof. intros [_ H0] [_ H1]. now apply sub_of_long. Qed.

Lemma ltb_exact a b : Double.ltb (exact a) (exact b) = (a <? b).
Proof. apply exact_ltb. Qed.

Lemma leb_exact a b : Double.leb (exact a) (exact b) = (a <=? b).
Proof. apply exact_leb. Qed.

Lemma eqb_exact a b : Double.eqb (exact a) (exact b) = (a =? b).
Proof. apply exact_eqb. Qed.

Lemma abs_exact a : Double.abs (exact a) = exact (Z.abs a).
Proof. apply exact_abs. Qed.

(** Adding a zero to an integer held in a double gives the integer back. *)
Lemma add_exact_zero a s : Double.add (exact a) (S754_zero s) = exact a.
Proof. destruct a, s; reflexivity. Qed.

(** A zero times an integer held in a double is a zero. *)
Lemma mul_zero_exact s a : exists s', Double.mul (S754_zero s) (exact a) = S754_zero s'.
Proof. destruct a; eexists; reflexivity. Qed.

(** Comparisons do not see the sign of a zero. *)
Lemma compare_zero_sign s d : SFcompare (S754_zero s) d = SFcompare (S754_zero false) d.
Proof. destruct d; reflexivity. Qed.

(** ** [FindExitEdge]: structure *)

Lemma tryEdge_consider dx dy best e t0 along :
  tryEdge dx dy best e t0 along = consider dx dy best (mkCandidate e t0 along).
Proof.
  unfold tryEdge, consider, accepted, replaces, wins_tie, hit_of.
  cbn [c_t c_edge c_along].
  destruct (Double.ltb t0 (Double.opp Double.tol) || Double.gtb t0 Double.one);
    [reflexivity|].
  cbn [negb andb].
  destruct (Double.ltb t0 Double.tol); cbn [andb].
  - destruct (outward dx dy e); cbn [negb]; [|reflexivity].
    destruct (Double.ltb t0 (Double.sub (t best) Double.tol)); [reflexivity|].
    cbn [orb].
    destruct (Double.ltb (Double.abs (Double.sub t0 (t best))) Double.tol);
      [|reflexivity].
    cbn [andb]. destruct (horiz e); cbn [negb andb].
    + now destruct (Double.geb (Double.abs dx) (Double.abs dy)).
    + now destruct (Double.gtb (Double.abs dy) (Double.abs dx)).
  - destruct (Double.ltb t0 (Double.sub (t best) Double.tol)); [reflexivity|].
    cbn [orb].
    destruct (Double.ltb (Double.abs (Double.sub t0 (t best))) Double.tol);
      [|reflexivity].
    cbn [andb]. destruct (horiz e); cbn [negb andb].
    + now destruct (Double.geb (Double.abs dx) (Double.abs dy)).
    + now destruct (Double.gtb (Double.abs dy) (Double.abs dx)).
Qed.

Lemma checked_div_nonzero a b :
  Double.neqb b Double.zero = true -> checked_div a b = Some (Double.div a b).
Proof.
  unfold Double.neqb, checked_div. now destruct (Double.eqb b Double.zero).
Qed.

Lemma try_vertical_line_candidates p0 p1 r e bound best :
  try_vertical_line p0 r (segment_dx p0 p1) (segment_dy p0 p1) e bound best
  = Some (fold_left (consider (segment_dx p0 p1) (segment_dy p0 p1))
            (vertical_candidate p0 p1 r e bound) best).
Proof.
  unfold try_vertical_line, vertical_candidate.
  destruct (Double.neqb (segment_dx p0 p1) Double.zero) eqn:Hdx; [|reflexivity].
  rewrite checked_div_nonzero by assumption. cbn [bind].
  match goal with |- context [if ?c then _ else _] => destruct c end;
    cbn [fold_left]; [|reflexivity].
  now rewrite tryEdge_consider.
Qed.

Lemma try_horizontal_line_candidates p0 p1 r e bound best :
  try_horizontal_line p0 r (segment_dx p0 p1) (segment_dy p0 p1) e bound best
  = Some (fold_left (consider (segment_dx p0 p1) (segment_dy p0 p1))
            (horizontal_candidate p0 p1 r e bound) best).
Proof.
  unfold try_horizontal_line, horizontal_candidate.
  destruct (Double.neqb (segment_dy p0 p1) Double.zero) eqn:Hdy; [|reflexivity].
  rewrite checked_div_nonzero by assumption. cbn [bind].
  match goal with |- context [if ?c then _ else _] => destruct c end;
    cbn [fold_left]; [|reflexivity].
  now rewrite tryEdge_consider.
Qed.

(** [FindExitEdge] folds the selection rule over the boundary candidates,
    and never stops on a division. *)
Lemma FindExitEdge_select p0 p1 r :
  FindExitEdge p0 p1 r
  = Some (select (segment_dx p0 p1) (segment_dy p0 p1)
            (boundary_candidates p0 p1 r)).
Proof.
  unfold FindExitEdge, select, boundary_candidates.
  rewrite try_vertical_line_candidates. cbn [bind].
  rewrite try_vertical_line_candidates. cbn [bind].
  rewrite try_horizontal_line_candidates. cbn [bind].
  rewrite try_horizontal_line_candidates.
  now rewrite !fold_left_app.
Qed.

Lemma FindExitEdge_total p0 p1 r : exists h, FindExitEdge p0 p1 r = Some h.
Proof. rewrite FindExitEdge_select. eauto. Qed.

(** ** [FindExitEdge]: how single candidates fare *)

Lemma consider_edge dx dy held c :
  edge (consider dx dy held c) = edge held \/
  edge (consider dx dy held c) = c_edge c.
Proof.
  unfold consider.
  destruct (accepted dx dy c && replaces dx dy held c); [now right | now left].
Qed.

(** A candidate that does not lie ahead of the start point, on a boundary
    the segment does not leave through, is never taken. *)
Lemma consider_not_positive dx dy held c :
  not_positive (c_t c) -> outward dx dy (c_edge c) = false ->
  consider dx dy held c = held.
Proof.
  unfold consider, accepted, replaces. intros Hn Ho. rewrite Ho.
  destruct (c_t c) as [s|[|]| |[|] m e]; try contradiction; try reflexivity.
  change (Double.ltb (S754_finite true m e) Double.tol) with true.
  now rewrite andb_false_r.
Qed.

Lemma binary_round_aux_negative m e l :
  not_positive (binary_round_aux Double.prec Double.emax true m e l).
Proof.
  unfold binary_round_aux.
  destruct (shr_fexp Double.prec Double.emax m e l) as [mrs' e'].
  destruct (shr_fexp _ _ _ e' loc_Exact) as [mrs'' e''].
  destruct (shr_m mrs''); [exact I| |exact I].
  destruct (e'' <=? Double.emax - Double.prec); exact I.
Qed.

Lemma div_positive_negative m1 e1 m2 e2 :
  not_positive (Double.div (S754_finite false m1 e1) (S754_finite true m2 e2)).
Proof.
  unfold Double.div, SFdiv.
  destruct (SFdiv_core_binary _ _ _ _ _ _) as [[mz ez] lz].
  apply binary_round_aux_negative.
Qed.

(** The held hit sits at parameter [-0.0]: a later candidate is taken only
    through the tie-break. *)
Lemma consider_after_zero dx dy held c :
  t held = S754_zero true ->
  consider dx dy held c = held \/
  (consider dx dy held c = hit_of c /\ wins_tie dx dy (c_edge c) = true).
Proof.
  intro Ht. unfold consider, accepted, replaces. rewrite Ht.
  change (Double.sub (S754_zero true) Double.tol) with (Double.opp Double.tol).
  destruct (Double.ltb (c_t c) (Double.opp Double.tol)); [now left|].
  cbn [orb].
  destruct (wins_tie dx dy (c_edge c)).
  - match goal with |- context [if ?b then _ else _] => destruct b end;
      [right; now split | now left].
  - rewrite andb_false_r, andb_false_r. now left.
Qed.

(** The start point on a boundary the segment leaves through: the candidate
    at parameter [-0.0] is the first one held. *)
Lemma consider_first_at_zero dx dy e along :
  outward dx dy e = true ->
  consider dx dy initial_best (mkCandidate e (S754_zero true) along)
  = mkHit e (S754_zero true) along.
Proof.
  intro Ho. unfold consider, accepted. cbn [c_t c_edge]. now rewrite Ho.
Qed.

Lemma vertical_candidate_cases p0 p1 r e bound :
  vertical_candidate p0 p1 r e bound = [] \/
  (Double.neqb (segment_dx p0 p1) Double.zero = true /\
   exists y,
     vertical_candidate p0 p1 r e bound
     = [mkCandidate e
          (Double.div (Double.of_long (long_sub bound (px p0)))
                      (segment_dx p0 p1)) y]).
Proof.
  unfold vertical_candidate.
  destruct (Double.neqb (segment_dx p0 p1) Double.zero); [|now left].
  match goal with |- context [if ?b then _ else _] => destruct b end;
    [right; split; eauto | now left].
Qed.

Lemma horizontal_candidate_cases p0 p1 r e bound :
  horizontal_candidate p0 p1 r e bound = [] \/
  exists t0 x, horizontal_candidate p0 p1 r e bound = [mkCandidate e t0 x].
Proof.
  unfold horizontal_candidate.
  destruct (Double.neqb (segment_dy p0 p1) Double.zero); [|now left].
  match goal with |- context [if ?b then _ else _] => destruct b end;
    [right; eauto | now left].
Qed.

Lemma neqb_exact_zero z : Double.neqb (exact z) Double.zero = negb (z =? 0).
Proof.
  unfold Double.neqb. change Double.zero with (exact 0). now rewrite eqb_exact.
Qed.

Lemma outward_left dx dy : outward dx dy Left = Double.ltb dx Double.zero.
Proof. unfold outward. cbn [Edge_eqb andb orb]. now rewrite !orb_false_r. Qed.

Lemma outward_right dx dy : outward dx dy Right = Double.gtb dx Double.zero.
Proof. unfold outward. cbn [Edge_eqb andb orb]. now rewrite !orb_false_r. Qed.

(** The start point on the left boundary, the segment going left: the
    crossing of the right boundary lies behind the start point. *)
Lemma right_candidate_behind p0 p1 r held :
  long_point p0 -> long_point p1 ->
  rc_left r < rc_right r -> in_long (rc_right r - rc_left r) ->
  px p0 = rc_left r -> px p1 < px p0 ->
  fold_left (consider (segment_dx p0 p1) (segment_dy p0 p1))
    (vertical_candidate p0 p1 r Right (rc_right r)) held = held.
Proof.
  intros H0 H1 Hlr Hw Hx Hdx.
  destruct (vertical_candidate_cases p0 p1 r Right (rc_right r))
    as [-> | [_ [y ->]]]; [reflexivity|].
  cbn [fold_left]. apply consider_not_positive; cbn [c_t c_edge].
  - rewrite segment_dx_exact by assumption. rewrite Hx in *.
    rewrite long_sub_exact, of_long_long by assumption.
    destruct (rc_right r - rc_left r) as [|w|w] eqn:Ew; try lia.
    destruct (px p1 - rc_left r) as [|d|d] eqn:Ed; try lia.
    apply div_positive_negative.
  - rewrite outward_right, segment_dx_exact by assumption.
    unfold Double.gtb. change Double.zero with (exact 0). rewrite ltb_exact.
    apply Z.ltb_ge. lia.
Qed.

(** The start point on the left boundary: the crossing of the left boundary
    is the start point itself, at parameter [-0.0] when the segment goes
    left. *)
Lemma left_candidate_at_start p0 p1 r :
  long_point p0 -> long_point p1 -> long_rect r ->
  px p0 = rc_left r -> rc_top r <= py p0 <= rc_bottom r -> px p1 < px p0 ->
  vertical_candidate p0 p1 r Left (rc_left r)
  = [mkCandidate Left (S754_zero true) (exact (py p0))].
Proof.
  intros H0 H1 (_ & Ht & _ & Hb) Hx Hy Hdx.
  unfold vertical_candidate.
  rewrite segment_dx_exact, segment_dy_exact by assumption.
  rewrite neqb_exact_zero.
  replace (px p1 - px p0 =? 0) with false by (symmetry; apply Z.eqb_neq; lia).
  cbn [negb]. rewrite <- Hx. unfold long_sub. rewrite Z.sub_diag.
  change (Double.of_long (wrap_long 0)) with (S754_zero false).
  destruct (px p1 - px p0) as [|d|d] eqn:Ed; try lia.
  change (Double.div (S754_zero false) (exact (Z.neg d))) with (S754_zero true).
  destruct (mul_zero_exact true (py p1 - py p0)) as [s' ->].
  rewrite !of_long_long by (assumption || apply H0).
  rewrite add_exact_zero. unfold Double.geb. rewrite !leb_exact.
  replace (rc_top r <=? py p0) with true by (symmetry; apply Z.leb_le; lia).
  replace (py p0 <=? rc_bottom r) with true by (symmetry; apply Z.leb_le; lia).
  reflexivity.
Qed.

(** The start point on the left boundary, the segment not going left: the
    left boundary is not taken. *)
Lemma left_candidate_inward p0 p1 r held :
  long_point p0 -> long_point p1 ->
  px p0 = rc_left r -> px p0 <= px p1 ->
  fold_left (consider (segment_dx p0 p1) (segment_dy p0 p1))
    (vertical_candidate p0 p1 r Left (rc_left r)) held = held.
Proof.
  intros H0 H1 Hx Hdx.
  destruct (vertical_candidate_cases p0 p1 r Left (rc_left r))
    as [-> | [Hnz [y ->]]]; [reflexivity|].
  cbn [fold_left]. rewrite segment_dx_exact in * by assumption.
  rewrite neqb_exact_zero in Hnz. apply negb_true_iff, Z.eqb_neq in Hnz.
  destruct (px p1 - px p0) as [|d|d] eqn:Ed; try lia.
  apply consider_not_positive; cbn [c_t c_edge].
  - rewrite <- Hx. unfold long_sub. rewrite Z.sub_diag. exact I.
  - rewrite outward_left. reflexivity.
Qed.

Lemma wins_tie_vertical dx dy e :
  horiz e = false ->
  wins_tie dx dy e = Double.gtb (Double.abs dy) (Double.abs dx).
Proof. unfold wins_tie. now intros ->. Qed.

(** Start on the left boundary, going left: Left is reported, unless a
    Top/Bottom crossing ties with it and wins the tie-break. *)
Lemma select_going_left p0 p1 r :
  long_point p0 -> long_point p1 -> long_rect r ->
  rc_left r < rc_right r -> in_long (rc_right r - rc_left r) ->
  px p0 = rc_left r -> rc_top r <= py p0 <= rc_bottom r -> px p1 < px p0 ->
  let h := select (segment_dx p0 p1) (segment_dy p0 p1)
             (boundary_candidates p0 p1 r) in
  edge h = Left \/
  ((edge h = Top \/ edge h = Bottom) /\
   Double.gtb (Double.abs (segment_dy p0 p1)) (Double.abs (segment_dx p0 p1))
   = true).
Proof.
  intros H0 H1 Hr Hlr Hw Hx Hy Hdx. unfold select, boundary_candidates.
  rewrite !fold_left_app.
  rewrite right_candidate_behind by assumption.
  rewrite left_candidate_at_start by assumption. cbn [fold_left].
  rewrite consider_first_at_zero.
  2:{ rewrite outward_left, segment_dx_exact by assumption.
      change Double.zero with (exact 0). rewrite ltb_exact.
      apply Z.ltb_lt. lia. }
  set (dx := segment_dx p0 p1). set (dy := segment_dy p0 p1).
  set (hL := mkHit Left (S754_zero true) (exact (py p0))).
  assert (HB : forall held c,
             c_edge c = Bottom \/ c_edge c = Top ->
             t held = S754_zero true ->
             consider dx dy held c = held \/
             (consider dx dy held c = hit_of c /\
              Double.gtb (Double.abs dy) (Double.abs dx) = true)).
  { intros held c Hc Ht.
    destruct (consider_after_zero dx dy held c Ht) as [E | [E W]]; [now left|].
    right. split; [exact E|].
    rewrite wins_tie_vertical in W; [exact W|].
    now destruct Hc as [-> | ->]. }
  destruct (horizontal_candidate_cases p0 p1 r Bottom (rc_bottom r))
    as [-> | (tb & xb & ->)];
  destruct (horizontal_candidate_cases p0 p1 r Top (rc_top r))
    as [-> | (tt & xt & ->)]; cbn [fold_left].
  - now left.
  - destruct (HB hL (mkCandidate Top tt xt)) as [-> | [-> W]];
      [now right | reflexivity | now left | right; split; [now left | exact W]].
  - destruct (HB hL (mkCandidate Bottom tb xb)) as [-> | [-> W]];
      [now left | reflexivity | now left | right; split; [now right | exact W]].
  - destruct (HB hL (mkCandidate Bottom tb xb)) as [-> | [-> W]];
      [now left | reflexivity | |].
    + destruct (HB hL (mkCandidate Top tt xt)) as [-> | [-> W]];
        [now right | reflexivity | now left | right; split; [now left | exact W]].
    + right. split; [|exact W].
      destruct (consider_edge dx dy (hit_of (mkCandidate Bottom tb xb))
                  (mkCandidate Top tt xt)) as [-> | ->]; [now right | now left].
Qed.

(** Start on the left boundary, not going left: Left is not reported. *)
Lemma select_not_going_left p0 p1 r :
  long_point p0 -> long_point p1 ->
  px p0 = rc_left r -> px p0 <= px p1 ->
  edge (select (segment_dx p0 p1) (segment_dy p0 p1)
          (boundary_candidates p0 p1 r)) <> Left.
Proof.
  intros H0 H1 Hx Hdx. unfold select, boundary_candidates.
  rewrite !fold_left_app.
  rewrite (left_candidate_inward p0 p1 r) by assumption.
  set (dx := segment_dx p0 p1). set (dy := segment_dy p0 p1).
  assert (E1 : forall held l e,
             (l = [] \/ exists t0 a, l = [mkCandidate e t0 a]) ->
             edge (fold_left (consider dx dy) l held) = edge held \/
             edge (fold_left (consider dx dy) l held) = e).
  { intros held l e [-> | (t0 & a & ->)]; cbn [fold_left]; [now left|].
    apply consider_edge. }
  destruct (E1 initial_best (vertical_candidate p0 p1 r Right (rc_right r)) Right)
    as [Ea | Ea].
  { destruct (vertical_candidate_cases p0 p1 r Right (rc_right r))
      as [-> | [_ [y ->]]]; eauto. }
  all: set (h1 := fold_left (consider dx dy)
                    (vertical_candidate p0 p1 r Right (rc_right r)) initial_best)
         in *.
  all: destruct (E1 h1 (horizontal_candidate p0 p1 r Bottom (rc_bottom r)) Bottom
                   (horizontal_candidate_cases _ _ _ _ _)) as [Eb | Eb].
  all: set (h2 := fold_left (consider dx dy)
                    (horizontal_candidate p0 p1 r Bottom (rc_bottom r)) h1) in *.
  all: destruct (E1 h2 (horizontal_candidate p0 p1 r Top (rc_top r)) Top
                   (horizontal_candidate_cases _ _ _ _ _)) as [Ec | Ec].
  all: rewrite Ec; try rewrite Eb; try rewrite Ea; discriminate.
Qed.

(** ** [FindExitEdge]: the start point on the left boundary *)

(** C5, as stated, fails at a corner.  The segment from (0,0) to (-1,-2)
    starts on the left boundary of the rectangle (0,0,100,100), within its
    vertical extent, and goes left ([dx = -1 < 0]); the crossings of the
    left and of the top boundary both sit at the start point, the vertical
    motion dominates, and [FindExitEdge] reports Top, not Left. *)
Lemma start_on_left_boundary_reports_top :
  px (mkPOINT 0 0) = rc_left (mkRECT 0 0 100 100) /\
  rc_top (mkRECT 0 0 100 100) <= py (mkPOINT 0 0) <= rc_bottom (mkRECT 0 0 100 100) /\
  Double.ltb (segment_dx (mkPOINT 0 0) (mkPOINT (-1) (-2))) Double.zero = true /\
  FindExitEdge (mkPOINT 0 0) (mkPOINT (-1) (-2)) (mkRECT 0 0 100 100)
  = Some (mkHit Top (S754_zero true) (S754_zero false)) /\
  ~ (exists h,
       FindExitEdge (mkPOINT 0 0) (mkPOINT (-1) (-2)) (mkRECT 0 0 100 100)
       = Some h /\ edge h = Left).
Proof.
  assert (E : FindExitEdge (mkPOINT 0 0) (mkPOINT (-1) (-2)) (mkRECT 0 0 100 100)
              = Some (mkHit Top (S754_zero true) (S754_zero false)))
    by (vm_compute; reflexivity).
  split; [reflexivity|]. split; [simpl; lia|]. split; [reflexivity|].
  split; [exact E|].
  intros (h & Hh & He). rewrite E in Hh. injection Hh as <-. discriminate.
Qed.

(** C5 (amended).  The start point lies on the left boundary of a
    rectangle, within its vertical extent (all coordinates LONGs, the
    width of the rectangle representable).  If [dx < 0], [FindExitEdge]
    reports Left, or else Top or Bottom and then [|dy| > |dx|] (a Top/Bottom
    crossing within the tolerance of the start point has won the tie-break);
    in particular it reports Left whenever [|dx| >= |dy|].  If [dx >= 0] it
    does not report Left. *)
Theorem FindExitEdge_start_on_left_boundary p0 p1 r :
  long_point p0 -> long_point p1 -> long_rect r ->
  rc_left r < rc_right r -> in_long (rc_right r - rc_left r) ->
  px p0 = rc_left r -> rc_top r <= py p0 <= rc_bottom r ->
  exists h,
    FindExitEdge p0 p1 r = Some h /\
    (px p1 < px p0 ->
       edge h = Left \/
       ((edge h = Top \/ edge h = Bottom) /\
        Z.abs (px p1 - px p0) < Z.abs (py p1 - py p0))) /\
    (px p1 < px p0 -> Z.abs (py p1 - py p0) <= Z.abs (px p1 - px p0) ->
       edge h = Left) /\
    (px p0 <= px p1 -> edge h <> Left).
Proof.
  intros H0 H1 Hr Hlr Hw Hx Hy. rewrite FindExitEdge_select.
  eexists. split; [reflexivity|].
  assert (HA : px p1 < px p0 ->
               edge (select (segment_dx p0 p1) (segment_dy p0 p1)
                       (boundary_candidates p0 p1 r)) = Left \/
               ((edge (select (segment_dx p0 p1) (segment_dy p0 p1)
                         (boundary_candidates p0 p1 r)) = Top \/
                 edge (select (segment_dx p0 p1) (segment_dy p0 p1)
                         (boundary_candidates p0 p1 r)) = Bottom) /\
                Z.abs (px p1 - px p0) < Z.abs (py p1 - py p0))).
  { intro Hdx.
    destruct (select_going_left p0 p1 r H0 H1 Hr Hlr Hw Hx Hy Hdx)
      as [E | [E W]]; [now left|].
    right. split; [exact E|].
    rewrite segment_dx_exact, segment_dy_exact in W by assumption.
    unfold Double.gtb in W. rewrite !abs_exact, ltb_exact in W.
    now apply Z.ltb_lt. }
  split; [exact HA|]. split.
  - intros Hdx Hle. destruct (HA Hdx) as [E | [_ W]]; [exact E | lia].
  - now apply select_not_going_left.
Qed.

Lemma FindExitEdge_start_on_left_boundary_witness :
  exists h,
    FindExitEdge (mkPOINT 0 50) (mkPOINT (-3) 51) (mkRECT 0 0 100 100) = Some h /\
    edge h = Left.
Proof.
  destruct (FindExitEdge_start_on_left_boundary
              (mkPOINT 0 50) (mkPOINT (-3) 51) (mkRECT 0 0 100 100))
    as (h & Hh & _ & HL & _).
  - unfold long_point, in_long, LONG_MIN, LONG_MAX; simpl; lia.
  - unfold long_point, in_long, LONG_MIN, LONG_MAX; simpl; lia.
  - unfold long_rect, in_long, LONG_MIN, LONG_MAX; simpl; lia.
  - simpl; lia.
  - unfold in_long, LONG_MIN, LONG_MAX; simpl; lia.
  - reflexivity.
  - simpl; lia.
  - exists h. split; [exact Hh|]. apply HL; simpl; lia.
Defined.

(** ** [FindExitEdge]: divisions *)

(** C9.  [FindExitEdge] evaluates no division by zero, whatever its
    arguments: it always returns a hit.  A boundary test whose axis has zero
    extent leaves the held hit alone, and a division is the only step that
    can fail.  For a segment of length zero the result is the initial hit,
    whose edge is None. *)
Theorem FindExitEdge_no_zero_denominator :
  (forall p0 p1 r, exists h, FindExitEdge p0 p1 r = Some h) /\
  (forall a b, checked_div a b = None <-> Double.eqb b Double.zero = true) /\
  (forall p0 r dx dy e bound best,
     Double.eqb dx Double.zero = true ->
     try_vertical_line p0 r dx dy e bound best = Some best) /\
  (forall p0 r dx dy e bound best,
     Double.eqb dy Double.zero = true ->
     try_horizontal_line p0 r dx dy e bound best = Some best) /\
  (forall p r,
     long_point p ->
     FindExitEdge p p r = Some initial_best /\ edge initial_best = Edge_None).
Proof.
  split; [exact FindExitEdge_total|].
  split.
  { intros a b. unfold checked_div.
    destruct (Double.eqb b Double.zero); split; congruence. }
  split.
  { intros p0 r dx dy e bound best H. unfold try_vertical_line, Double.neqb.
    now rewrite H. }
  split.
  { intros p0 r dx dy e bound best H. unfold try_horizontal_line, Double.neqb.
    now rewrite H. }
  intros p r Hp. split; [|reflexivity].
  unfold FindExitEdge, try_vertical_line, try_horizontal_line.
  rewrite segment_dx_exact, segment_dy_exact by assumption.
  rewrite !Z.sub_diag. reflexivity.
Qed.

Lemma FindExitEdge_no_zero_denominator_witness :
  FindExitEdge (mkPOINT 7 9) (mkPOINT 7 9) (mkRECT 0 0 100 100)
  = Some initial_best.
Proof.
  destruct FindExitEdge_no_zero_denominator as (_ & _ & _ & _ & H).
  apply (H (mkPOINT 7 9) (mkRECT 0 0 100 100)).
  unfold long_point, in_long, LONG_MIN, LONG_MAX; simpl; lia.
Defined.

(** ** [FindExitEdge]: the selection rule *)






(** ** [RemapCursor] *)

Lemma clamp_long_bounds v lo hi : lo <= hi -> lo <= clamp_long v lo hi <= hi.
Proof. intro H. unfold clamp_long. lia. Qed.

(** C2.  The worked example of the proportional mapping: source
    (0,0,1920,1080), destination (1920,0,2560,1440), edge Right, hit
    coordinate 540.  The fraction is 540/1080 = 0.5, the mapped value
    0 + lround(0.5 * 1440) = 720, which the clamp to [1, 1438] leaves alone,
    and the point is (1921, 720). *)
Theorem RemapCursor_proportional_example :
  RemapCursor (mkRECT 0 0 1920 1080) (mkRECT 1920 0 2560 1440) Right
    (Double.of_long 540) = Some (mkPOINT 1921 720) /\
  Double.clamp
    (Double.div (Double.sub (Double.of_long 540) (Double.of_long 0))
                (Double.of_long (long_sub 1080 0)))
    Double.zero Double.one
  = Double.div Double.one Double.two /\
  Double.lround (Double.mul (Double.div Double.one Double.two)
                            (Double.of_long (long_sub 1440 0))) = 720 /\
  long_add 0 1 = 1 /\ long_sub 1440 2 = 1438 /\
  clamp_long (long_add 0 720) 1 1438 = 720 /\
  long_add 1920 1 = 1921.
Proof. repeat split; vm_compute; reflexivity. Qed.

(** The half-open containment of a point in a rectangle. *)
Lemma strictly_inside_contained p r :
  strictly_inside p r ->
  rc_left r <= px p < rc_right r /\ rc_top r <= py p < rc_bottom r.
Proof. unfold strictly_inside. lia. Qed.

(** C6, as stated, fails for a destination narrower than three pixels.
    With source (0,0,10,10), destination (10,0,11,10), edge Right and hit
    coordinate 5, [RemapCursor] succeeds with the point (11,5): its x is the
    right bound of the destination, outside it under the half-open
    convention. *)
Lemma RemapCursor_lands_outside_narrow_destination :
  RemapCursor (mkRECT 0 0 10 10) (mkRECT 10 0 11 10) Right (Double.of_long 5)
  = Some (mkPOINT 11 5) /\
  ~ strictly_inside (mkPOINT 11 5) (mkRECT 10 0 11 10) /\
  ~ (rc_left (mkRECT 10 0 11 10) <= px (mkPOINT 11 5)
     < rc_right (mkRECT 10 0 11 10)).
Proof.
  split; [vm_compute; reflexivity|].
  unfold strictly_inside. simpl. lia.
Qed.

(** C6 (amended).  For every input on which [RemapCursor] succeeds and whose
    destination rectangle (of LONG coordinates) is at least three pixels
    wide and three pixels high, the returned point lies strictly inside the
    destination: the coordinate along the edge is within
    [destStart + 1, destEnd - 2], and the other one is one pixel inside the
    entered edge ([left + 1] for Right, [right - 2] for Left, [top + 1] for
    Bottom, [bottom - 2] for Top). *)
Theorem RemapCursor_lands_inside src dst e hit p :
  long_rect dst ->
  3 <= rc_right dst - rc_left dst -> 3 <= rc_bottom dst - rc_top dst ->
  RemapCursor src dst e hit = Some p ->
  strictly_inside p dst /\ inset_inside p dst /\
  match e with
  | Right => px p = rc_left dst + 1 /\
             axis_start e dst + 1 <= py p <= axis_end e dst - 2
  | Left => px p = rc_right dst - 2 /\
            axis_start e dst + 1 <= py p <= axis_end e dst - 2
  | Bottom => py p = rc_top dst + 1 /\
              axis_start e dst + 1 <= px p <= axis_end e dst - 2
  | Top => py p = rc_bottom dst - 2 /\
           axis_start e dst + 1 <= px p <= axis_end e dst - 2
  | Edge_None => False
  end.
Proof.
  intros (Hl & Ht & Hr & Hb) Hw Hh.
  unfold in_long, LONG_MIN, LONG_MAX in *.
  assert (Lx : long_add (rc_left dst) 1 = rc_left dst + 1)
    by (apply long_add_exact; unfold in_long, LONG_MIN, LONG_MAX; lia).
  assert (Ly : long_add (rc_top dst) 1 = rc_top dst + 1)
    by (apply long_add_exact; unfold in_long, LONG_MIN, LONG_MAX; lia).
  assert (Rx : long_sub (rc_right dst) 2 = rc_right dst - 2)
    by (apply long_sub_exact; unfold in_long, LONG_MIN, LONG_MAX; lia).
  assert (Ry : long_sub (rc_bottom dst) 2 = rc_bottom dst - 2)
    by (apply long_sub_exact; unfold in_long, LONG_MIN, LONG_MAX; lia).
  unfold RemapCursor, strictly_inside, inset_inside.
  destruct e; cbn [axis_start axis_end];
    match goal with |- context [if ?b then None else _] => destruct b end;
    try discriminate; intro H; injection H as <-; cbn [px py];
    rewrite ?Lx, ?Ly, ?Rx, ?Ry.
  all: match goal with
       | |- context [clamp_long ?v ?lo ?hi] =>
           pose proof (clamp_long_bounds v lo hi ltac:(lia))
       end; lia.
Qed.

Lemma RemapCursor_lands_inside_witness :
  strictly_inside (mkPOINT 1921 720) (mkRECT 1920 0 2560 1440).
Proof.
  apply (RemapCursor_lands_inside (mkRECT 0 0 1920 1080)
           (mkRECT 1920 0 2560 1440) Right (Double.of_long 540)
           (mkPOINT 1921 720)).
  - unfold long_rect, in_long, LONG_MIN, LONG_MAX; simpl; lia.
  - simpl; lia.
  - simpl; lia.
  - vm_compute; reflexivity.
Defined.

(** C7.  [RemapCursor] fails, returning no point, whenever the edge is None,
    or the overlap of the two rectangles along the axis it maps on (the
    vertical one for Left/Right, the horizontal one for Top/Bottom) is zero
    or negative, or the source or the destination has a non-positive extent
    along that axis.  The differences are those of the LONG arithmetic, which
    is defined when they are representable. *)
Theorem RemapCursor_rejects src dst e hit :
  e = Edge_None \/
  (in_long (axis_overlap e src dst) /\ axis_overlap e src dst <= 0) \/
  (in_long (axis_length e src) /\ axis_length e src <= 0) \/
  (in_long (axis_length e dst) /\ axis_length e dst <= 0) ->
  RemapCursor src dst e hit = None.
Proof.
  unfold RemapCursor, axis_overlap, axis_length.
  intros [-> | H].
  - cbn. now destruct (_ || _).
  - assert (G : forall ovS ovE sS sE dS dE,
               (in_long (ovE - ovS) /\ ovE - ovS <= 0) \/
               (in_long (sE - sS) /\ sE - sS <= 0) \/
               (in_long (dE - dS) /\ dE - dS <= 0) ->
               (long_sub ovE ovS <=? 0) || (long_sub sE sS <=? 0)
               || (long_sub dE dS <=? 0) = true).
    { intros ovS ovE sS sE dS dE [[R L] | [[R L] | [R L]]];
        rewrite (long_sub_exact _ _ R);
        apply Z.leb_le in L; rewrite L; now rewrite ?orb_true_r. }
    destruct e; cbn [axis_start axis_end] in H; cbn iota beta; rewrite (G _ _ _ _ _ _ H);
      reflexivity.
Qed.

Lemma RemapCursor_rejects_witness :
  RemapCursor (mkRECT 0 0 100 100) (mkRECT 0 120 100 220) Right
    (Double.of_long 50) = None.
Proof.
  apply RemapCursor_rejects. right. left.
  unfold axis_overlap, in_long, LONG_MIN, LONG_MAX. simpl. lia.
Defined.

(** ** The mouse hook *)

Lemma MouseHookProc_injected env nCode wParam ms st :
  Z.land (flags ms) LLMHF_INJECTED <> 0 ->
  MouseHookProc env nCode wParam ms st
  = Some (st, CallNextHookEx nCode wParam ms).
Proof.
  intro H. unfold MouseHookProc.
  destruct ((nCode =? HC_ACTION) && (wParam =? WM_MOUSEMOVE)); [|reflexivity].
  destruct (Z.eqb_spec (Z.land (flags ms) LLMHF_INJECTED) 0) as [E|E];
    [contradiction | reflexivity].
Qed.

Lemma MouseHookProc_suppressed env nCode wParam ms st :
  g_suppressing st = true ->
  MouseHookProc env nCode wParam ms st
  = Some (st, CallNextHookEx nCode wParam ms).
Proof.
  intro H. unfold MouseHookProc. rewrite H.
  destruct ((nCode =? HC_ACTION) && (wParam =? WM_MOUSEMOVE)); [|reflexivity].
  now destruct (negb _).
Qed.

(** C8.  An event whose injected flag is set, and an event that arrives
    while the suppression flag is set, is handed on to the next hook with its
    arguments as received, and the state (monitors, signature, last monitor,
    last position, suppression flag) is left as it was. *)
Theorem MouseHookProc_guards env nCode wParam ms st :
  Z.land (flags ms) LLMHF_INJECTED <> 0 \/ g_suppressing st = true ->
  MouseHookProc env nCode wParam ms st
  = Some (st, CallNextHookEx nCode wParam ms).
Proof.
  intros [H|H].
  - now apply MouseHookProc_injected.
  - now apply MouseHookProc_suppressed.
Qed.

(** The move from (1919, 540) on the left monitor to (1920, 540) on the right
    one is a crossing: the cursor is relocated to (1921, 720) and the event
    swallowed.  The same event with the injected flag set is handed on and
    changes nothing. *)
Lemma MouseHookProc_guards_witness :
  MouseHookProc (reentrant_env example_MonitorFromPoint true)
    HC_ACTION WM_MOUSEMOVE (mkMSLLHOOKSTRUCT (mkPOINT 1920 540) 0) tracking_state
  = Some (set_last 2 (mkPOINT 1921 720) tracking_state, Swallow) /\
  MouseHookProc (reentrant_env example_MonitorFromPoint true)
    HC_ACTION WM_MOUSEMOVE (mkMSLLHOOKSTRUCT (mkPOINT 1920 540) LLMHF_INJECTED)
    tracking_state
  = Some (tracking_state,
          CallNextHookEx HC_ACTION WM_MOUSEMOVE
            (mkMSLLHOOKSTRUCT (mkPOINT 1920 540) LLMHF_INJECTED)).
Proof.
  split; [vm_compute; reflexivity|].
  apply MouseHookProc_guards. left. vm_compute. discriminate.
Defined.

Lemma set_last_suppressing h p st :
  g_suppressing (set_last h p st) = g_suppressing st.
Proof. reflexivity. Qed.

Lemma track_position_suppressing env wParam ms st :
  g_suppressing (track_position env wParam ms st) = g_suppressing st.
Proof.
  unfold track_position. destruct (wParam =? WM_MOUSEMOVE); [|reflexivity].
  now destruct (negb _).
Qed.

(** Whatever the relocation call does and answers, the flag is clear when
    the crossing block is left. *)
Lemma handle_crossing_suppressing env p curMon st :
  g_suppressing st = false ->
  exists st' b,
    handle_crossing env p curMon st = Some (st', b) /\ g_suppressing st' = false.
Proof.
  intro Hs. unfold handle_crossing.
  destruct (_ && _); [|eauto].
  destruct (FindMonitor (g_monitors st) (g_lastMonitor st)) as [src|]; [|eauto].
  destruct (FindMonitor (g_monitors st) curMon) as [dst|]; [|eauto].
  destruct (FindExitEdge_total (g_lastPos st) p (rc src)) as [hit ->].
  cbn [bind].
  destruct (negb (Edge_eqb (edge hit) Edge_None)); [|eauto].
  destruct (RemapCursor _ _ _ _) as [mapped|]; [|eauto].
  destruct (negb (POINT_eqb mapped p)); [|eauto].
  destruct (SetCursorPos env (px mapped) (py mapped) (set_suppressing true st))
    as [st2 [|]]; eauto.
Qed.

(** The relocation call is made with the flag set, and only then. *)
Lemma handle_crossing_relocates_under_flag env1 env2 p curMon st :
  (forall q, MonitorFromPoint env1 q = MonitorFromPoint env2 q) ->
  (forall x0 y0 s, g_suppressing s = true ->
     SetCursorPos env1 x0 y0 s = SetCursorPos env2 x0 y0 s) ->
  handle_crossing env1 p curMon st = handle_crossing env2 p curMon st.
Proof.
  intros Hm Hs. unfold handle_crossing.
  destruct (_ && _); [|reflexivity].
  destruct (FindMonitor (g_monitors st) (g_lastMonitor st)) as [src|];
    [|reflexivity].
  destruct (FindMonitor (g_monitors st) curMon) as [dst|]; [|reflexivity].
  destruct (FindExitEdge (g_lastPos st) p (rc src)) as [hit|]; [|reflexivity].
  cbn [bind].
  destruct (negb (Edge_eqb (edge hit) Edge_None)); [|reflexivity].
  destruct (RemapCursor _ _ _ _) as [mapped|]; [|reflexivity].
  destruct (negb (POINT_eqb mapped p)); [|reflexivity].
  rewrite (Hs _ _ (set_suppressing true st) eq_refl), Hm. reflexivity.
Qed.

(** C10, as stated, fails for the invocation nested in the relocation call:
    it is entered with the flag set, returns at the guard, and the flag is
    still set when it is complete.  Here the outer invocation handles the
    crossing at (1920, 540); the system delivers the move to (1921, 720)
    while [SetCursorPos] runs. *)
Lemma nested_invocation_leaves_flag_set :
  g_suppressing (set_suppressing true tracking_state) = true /\
  MouseHookProc (mkEnv example_MonitorFromPoint (fun _ _ s => (s, false)))
    HC_ACTION WM_MOUSEMOVE (mkMSLLHOOKSTRUCT (mkPOINT 1921 720) LLMHF_INJECTED)
    (set_suppressing true tracking_state)
  = Some (set_suppressing true tracking_state,
          CallNextHookEx HC_ACTION WM_MOUSEMOVE
            (mkMSLLHOOKSTRUCT (mkPOINT 1921 720) LLMHF_INJECTED)) /\
  MouseHookProc (mkEnv example_MonitorFromPoint (fun _ _ s => (s, false)))
    HC_ACTION WM_MOUSEMOVE (mkMSLLHOOKSTRUCT (mkPOINT 1921 720) 0)
    (set_suppressing true tracking_state)
  = Some (set_suppressing true tracking_state,
          CallNextHookEx HC_ACTION WM_MOUSEMOVE
            (mkMSLLHOOKSTRUCT (mkPOINT 1921 720) 0)) /\
  reentrant_SetCursorPos example_MonitorFromPoint true 1921 720
    (set_suppressing true tracking_state)
  = (set_suppressing true tracking_state, true).
Proof. repeat split; vm_compute; reflexivity. Qed.

(** C10 (amended).  A complete invocation of the hook procedure leaves the
    suppression flag as it found it.  An invocation entered with the flag
    clear leaves it clear on every path, whatever the relocation call does to
    the state and whether or not it succeeds; the relocation call itself is
    made with the flag set, and only then.  An invocation entered with the
    flag set (the one nested in the relocation call) leaves it set. *)
Theorem MouseHookProc_suppression_flag :
  (forall env nCode wParam ms st,
     exists st' r,
       MouseHookProc env nCode wParam ms st = Some (st', r) /\
       g_suppressing st' = g_suppressing st) /\
  (forall env1 env2 nCode wParam ms st,
     (forall q, MonitorFromPoint env1 q = MonitorFromPoint env2 q) ->
     (forall x0 y0 s, g_suppressing s = true ->
        SetCursorPos env1 x0 y0 s = SetCursorPos env2 x0 y0 s) ->
     MouseHookProc env1 nCode wParam ms st = MouseHookProc env2 nCode wParam ms st).
Proof.
  split.
  - intros env nCode wParam ms st. unfold MouseHookProc.
    destruct ((nCode =? HC_ACTION) && (wParam =? WM_MOUSEMOVE)); [|eauto].
    destruct (negb (Z.land (flags ms) LLMHF_INJECTED =? 0)); [eauto|].
    destruct (g_suppressing st) eqn:Hs; [eauto|].
    destruct (MonitorFromPoint env (pt ms) =? nullptr).
    + do 2 eexists. split; [reflexivity|].
      now rewrite track_position_suppressing.
    + destruct (handle_crossing_suppressing env (pt ms)
                  (MonitorFromPoint env (pt ms)) st Hs) as (st' & b & -> & Hf).
      cbn [bind snd fst]. destruct b; do 2 eexists; (split; [reflexivity|]).
      * exact Hf.
      * now rewrite track_position_suppressing.
  - intros env1 env2 nCode wParam ms st Hm Hs. unfold MouseHookProc.
    destruct ((nCode =? HC_ACTION) && (wParam =? WM_MOUSEMOVE)); [|reflexivity].
    destruct (negb (Z.land (flags ms) LLMHF_INJECTED =? 0)); [reflexivity|].
    destruct (g_suppressing st); [reflexivity|].
    unfold track_position. rewrite !Hm.
    now rewrite (handle_crossing_relocates_under_flag env1 env2 _ _ _ Hm Hs).
Qed.

Lemma MouseHookProc_suppression_flag_witness :
  MouseHookProc (reentrant_env example_MonitorFromPoint true)
    HC_ACTION WM_MOUSEMOVE (mkMSLLHOOKSTRUCT (mkPOINT 1920 540) 0) tracking_state
  = MouseHookProc
      (mkEnv example_MonitorFromPoint (fun _ _ s => (s, true)))
      HC_ACTION WM_MOUSEMOVE (mkMSLLHOOKSTRUCT (mkPOINT 1920 540) 0)
      tracking_state.
Proof.
  destruct MouseHookProc_suppression_flag as [_ H]. apply H.
  - reflexivity.
  - intros x0 y0 s Hs. cbn [reentrant_env SetCursorPos].
    unfold reentrant_SetCursorPos.
    rewrite MouseHookProc_suppressed by exact Hs. reflexivity.
Defined.

(** ** Sorting: [std_sort] *)

Section Sorting.

Variable A : Type.
Variable less : A -> A -> bool.
Hypothesis less_irrefl : forall a, less a a = false.
Hypothesis less_trans :
  forall a b c, less a b = true -> less b c = true -> less a c = true.

Lemma less_asym a b : less a b = true -> less b a = false.
Proof.
  intro H. destruct (less b a) eqn:E; [|reflexivity].
  rewrite <- (less_irrefl a). symmetry. now apply less_trans with b.
Qed.

(** Elements the order tells apart, or equal ones, can be inserted in
    either order. *)
Lemma sort_insert_comm l a b :
  (less a b = false -> less b a = false -> a = b) ->
  sort_insert less (sort_insert less l a) b
  = sort_insert less (sort_insert less l b) a.
Proof.
  intro T. induction l as [|h rest IH]; cbn [sort_insert].
  - destruct (less b a) eqn:Eba.
    + now rewrite (less_asym _ _ Eba).
    + destruct (less a b) eqn:Eab; [reflexivity|]. now rewrite T.
  - destruct (less a h) eqn:Eah, (less b h) eqn:Ebh; cbn [sort_insert];
      rewrite ?Eah, ?Ebh.
    + destruct (less b a) eqn:Eba.
      * now rewrite (less_asym _ _ Eba).
      * destruct (less a b) eqn:Eab; [reflexivity|]. now rewrite T.
    + destruct (less b a) eqn:Eba; [|reflexivity].
      rewrite (less_trans _ _ _ Eba Eah) in Ebh. discriminate.
    + destruct (less a b) eqn:Eab; [|reflexivity].
      rewrite (less_trans _ _ _ Eab Ebh) in Eah. discriminate.
    + now rewrite IH.
Qed.

Lemma fold_insert_permutation l1 l2 :
  Permutation l1 l2 -> ties_equal less l1 ->
  forall acc,
    fold_left (sort_insert less) l1 acc = fold_left (sort_insert less) l2 acc.
Proof.
  induction 1 as [|a l1 l2 HP IH|a b l|l1 l2 l3 HP1 IH1 HP2 IH2];
    intros T acc; cbn [fold_left].
  - reflexivity.
  - apply IH. intros u v Hu Hv. apply T; now right.
  - f_equal. apply sort_insert_comm.
    apply T; [left; reflexivity | right; left; reflexivity].
  - rewrite IH1 by exact T. apply IH2.
    intros u v Hu Hv.
    apply T; apply (Permutation_in _ (Permutation_sym HP1)); assumption.
Qed.

(** The sorted vector does not depend on the order of the input when the
    order tells apart the elements that differ. *)
Lemma std_sort_permutation_invariant l1 l2 :
  Permutation l1 l2 -> ties_equal less l1 -> std_sort less l1 = std_sort less l2.
Proof. intros HP T. now apply fold_insert_permutation. Qed.

Lemma sort_insert_permutation l a : Permutation (sort_insert less l a) (a :: l).
Proof.
  induction l as [|h rest IH]; cbn [sort_insert]; [reflexivity|].
  destruct (less a h); [reflexivity|].
  rewrite IH. apply perm_swap.
Qed.

Lemma fold_insert_keeps l acc :
  Permutation (fold_left (sort_insert less) l acc) (acc ++ l).
Proof.
  revert acc. induction l as [|a l IH]; intro acc; cbn [fold_left].
  - now rewrite app_nil_r.
  - rewrite IH, sort_insert_permutation. apply Permutation_middle.
Qed.

Lemma std_sort_keeps l : Permutation (std_sort less l) l.
Proof. apply (fold_insert_keeps l []). Qed.

End Sorting.

Lemma sort_insert_map {A B : Type} (f : A -> B) lessA lessB l a :
  (forall u v, lessA u v = lessB (f u) (f v)) ->
  map f (sort_insert lessA l a) = sort_insert lessB (map f l) (f a).
Proof.
  intro H. induction l as [|h rest IH]; cbn [sort_insert map]; [reflexivity|].
  rewrite <- H. destruct (lessA a h); cbn [map]; [reflexivity|]. now rewrite IH.
Qed.

Lemma std_sort_map {A B : Type} (f : A -> B) lessA lessB l :
  (forall u v, lessA u v = lessB (f u) (f v)) ->
  map f (std_sort lessA l) = std_sort lessB (map f l).
Proof.
  intro H. unfold std_sort. change (@nil B) with (map f []).
  generalize (@nil A). induction l as [|a l IH]; intro acc; cbn [fold_left map].
  - reflexivity.
  - rewrite IH. now rewrite (sort_insert_map f lessA lessB).
Qed.

(** ** The sort key of the monitor records *)

Lemma wmemcmp_refl a n : wmemcmp a a n = 0.
Proof.
  revert a. induction n as [|n IH]; intro a; cbn [wmemcmp]; [reflexivity|].
  rewrite Z.ltb_irrefl. apply IH.
Qed.

Lemma wmemcmp_array a b n :
  wmemcmp (device_array a n) (device_array b n) n = wmemcmp a b n.
Proof.
  revert a b. induction n as [|n IH]; intros a b; cbn [wmemcmp device_array hd tl];
    [reflexivity|].
  now rewrite IH.
Qed.

Lemma wmemcmp_zero a b n :
  wmemcmp a b n = 0 <-> device_array a n = device_array b n.
Proof.
  revert a b. induction n as [|n IH]; intros a b; cbn [wmemcmp device_array].
  - tauto.
  - destruct (Z.ltb_spec (hd 0 a) (hd 0 b)).
    + split; [discriminate|]. intro E. injection E as E _. lia.
    + destruct (Z.ltb_spec (hd 0 b) (hd 0 a)).
      * split; [discriminate|]. intro E. injection E as E _. lia.
      * rewrite IH. split.
        -- intro E. f_equal; [lia | exact E].
        -- intro E. now injection E.
Qed.

Lemma wmemcmp_range a b n :
  wmemcmp a b n = -1 \/ wmemcmp a b n = 0 \/ wmemcmp a b n = 1.
Proof.
  revert a b. induction n as [|n IH]; intros a b; cbn [wmemcmp]; [auto|].
  destruct (hd 0 a <? hd 0 b); [auto|].
  destruct (hd 0 b <? hd 0 a); auto.
Qed.

Lemma wmemcmp_antisym a b n : wmemcmp b a n = - wmemcmp a b n.
Proof.
  revert a b. induction n as [|n IH]; intros a b; cbn [wmemcmp]; [reflexivity|].
  destruct (Z.ltb_spec (hd 0 a) (hd 0 b)), (Z.ltb_spec (hd 0 b) (hd 0 a));
    try reflexivity; try lia.
  apply IH.
Qed.

Lemma wmemcmp_trans a b c n :
  wmemcmp a b n < 0 -> wmemcmp b c n < 0 -> wmemcmp a c n < 0.
Proof.
  revert a b c. induction n as [|n IH]; intros a b c; cbn [wmemcmp]; [lia|].
  destruct (Z.ltb_spec (hd 0 a) (hd 0 b)), (Z.ltb_spec (hd 0 b) (hd 0 a)),
    (Z.ltb_spec (hd 0 b) (hd 0 c)), (Z.ltb_spec (hd 0 c) (hd 0 b)),
    (Z.ltb_spec (hd 0 a) (hd 0 c)), (Z.ltb_spec (hd 0 c) (hd 0 a));
    try lia.
  apply IH.
Qed.

Lemma wmemcmp_zero_l a b c n :
  wmemcmp a b n = 0 -> wmemcmp a c n = wmemcmp b c n.
Proof.
  intro E. apply wmemcmp_zero in E.
  rewrite <- (wmemcmp_array a c), <- (wmemcmp_array b c). now rewrite E.
Qed.

Lemma wmemcmp_zero_r a b c n :
  wmemcmp b c n = 0 -> wmemcmp a c n = wmemcmp a b n.
Proof.
  intro E. apply wmemcmp_zero in E.
  rewrite <- (wmemcmp_array a c), <- (wmemcmp_array a b). now rewrite E.
Qed.

Lemma monitor_less_irrefl a : monitor_less a a = false.
Proof.
  unfold monitor_less. rewrite wmemcmp_refl. cbn.
  rewrite Z.eqb_refl. cbn. apply Z.ltb_irrefl.
Qed.

Lemma monitor_less_trans a b c :
  monitor_less a b = true -> monitor_less b c = true -> monitor_less a c = true.
Proof.
  unfold monitor_less.
  pose proof (wmemcmp_trans (device a) (device b) (device c) CCHDEVICENAME) as T.
  pose proof (wmemcmp_zero_l (device a) (device b) (device c) CCHDEVICENAME) as L.
  pose proof (wmemcmp_zero_r (device a) (device b) (device c) CCHDEVICENAME) as R.
  revert T L R.
  generalize (wmemcmp (device a) (device b) CCHDEVICENAME)
             (wmemcmp (device b) (device c) CCHDEVICENAME)
             (wmemcmp (device a) (device c) CCHDEVICENAME).
  intros cab cbc cac T L R.
  destruct (Z.eqb_spec cab 0), (Z.eqb_spec cbc 0), (Z.eqb_spec cac 0);
    cbn [negb];
    destruct (Z.eqb_spec (rc_left (rc a)) (rc_left (rc b))),
             (Z.eqb_spec (rc_left (rc b)) (rc_left (rc c))),
             (Z.eqb_spec (rc_left (rc a)) (rc_left (rc c)));
    cbn [negb]; rewrite ?Z.ltb_lt; lia.
Qed.

(** Two records neither of which sorts before the other share the sort
    key. *)
Lemma monitor_less_tie a b :
  monitor_less a b = false -> monitor_less b a = false -> same_sort_key a b.
Proof.
  unfold monitor_less, same_sort_key.
  rewrite <- wmemcmp_zero.
  rewrite (wmemcmp_antisym (device a) (device b)).
  generalize (wmemcmp (device a) (device b) CCHDEVICENAME). intro cab.
  destruct (Z.eqb_spec cab 0), (Z.eqb_spec (- cab) 0); cbn [negb];
    destruct (Z.eqb_spec (rc_left (rc a)) (rc_left (rc b))),
             (Z.eqb_spec (rc_left (rc b)) (rc_left (rc a)));
    cbn [negb]; rewrite ?Z.ltb_ge; lia.
Qed.

Lemma monitor_less_forget a b :
  monitor_less a b = monitor_less (forget_handle a) (forget_handle b).
Proof.
  unfold monitor_less, forget_handle. cbn [device rc].
  now rewrite wmemcmp_array.
Qed.

Lemma narrow_device_array d n :
  narrow_device (device_array d n) n = narrow_device d n.
Proof.
  revert d. induction n as [|n IH]; intro d; [now destruct d|].
  cbn [device_array narrow_device]. destruct d as [|c d]; cbn [hd tl].
  - reflexivity.
  - now rewrite IH.
Qed.

Lemma signature_entry_forget m :
  signature_entry (forget_handle m) = signature_entry m.
Proof.
  unfold signature_entry, forget_handle. cbn [device rc primary].
  now rewrite narrow_device_array.
Qed.

Lemma concat_entries_forget l :
  concat_entries (map forget_handle l) = concat_entries l.
Proof.
  induction l as [|m l IH]; cbn [map concat_entries]; [reflexivity|].
  now rewrite signature_entry_forget, IH.
Qed.

(** The signature only depends on the records without their handles. *)
Lemma topo_signature_forget l :
  topo_signature l
  = concat_entries (std_sort monitor_less (map forget_handle l)).
Proof.
  unfold topo_signature, BuildTopoSignature. cbn [snd].
  rewrite <- (std_sort_map forget_handle monitor_less monitor_less)
    by apply monitor_less_forget.
  now rewrite concat_entries_forget.
Qed.

Lemma forget_handle_tuple a b :
  monitor_tuple a = monitor_tuple b <-> forget_handle a = forget_handle b.
Proof.
  unfold monitor_tuple, forget_handle.
  generalize (device_array (device a) CCHDEVICENAME)
             (device_array (device b) CCHDEVICENAME).
  intros da db. split; intro E.
  - injection E as -> -> ->. reflexivity.
  - injection E as -> -> ->. reflexivity.
Qed.

(** Same multiset of tuples, sort key telling the tuples apart: same
    signature. *)
Lemma topo_signature_permutation l1 l2 :
  Permutation (map monitor_tuple l1) (map monitor_tuple l2) ->
  keys_distinct l1 ->
  topo_signature l1 = topo_signature l2.
Proof.
  intros HP HK. rewrite !topo_signature_forget. f_equal.
  apply std_sort_permutation_invariant.
  - apply monitor_less_irrefl.
  - apply monitor_less_trans.
  - assert (E : forall l, map forget_handle l
                          = map (fun k : RECT * bool * list Z =>
                                   mkMonitorInfo nullptr (fst (fst k))
                                     (snd (fst k)) (snd k))
                                (map monitor_tuple l)).
    { intro l. rewrite map_map. reflexivity. }
    rewrite !E. now apply Permutation_map.
  - intros a' b' Ha Hb Hab Hba.
    apply in_map_iff in Ha. destruct Ha as (a & <- & Ha).
    apply in_map_iff in Hb. destruct Hb as (b & <- & Hb).
    rewrite <- monitor_less_forget in Hab, Hba.
    apply forget_handle_tuple. apply HK; trivial.
    now apply monitor_less_tie.
Qed.

(** ** The text of the signature *)

Lemma string_app_assoc (a b c : string) : ((a ++ b) ++ c = a ++ (b ++ c))%string.
Proof. induction a as [|ch a IH]; cbn [append]; [reflexivity|]. now rewrite IH. Qed.

Lemma app_String_nonempty (a : string) ch (b : string) :
  (a ++ String ch b)%string <> EmptyString.
Proof. destruct a; discriminate. Qed.

(** Two texts cut at the first occurrence of a separator agree part by
    part. *)
Lemma split_at_char ch (a1 a2 b1 b2 : string) :
  has_char ch a1 = false -> has_char ch a2 = false ->
  (a1 ++ String ch b1 = a2 ++ String ch b2)%string -> a1 = a2 /\ b1 = b2.
Proof.
  revert a2. induction a1 as [|c1 a1 IH]; intros [|c2 a2]; cbn [append has_char];
    intros H1 H2 E.
  - injection E as E. now split.
  - injection E as E1 E2. subst c2. now rewrite Ascii.eqb_refl in H2.
  - injection E as E1 E2. subst c1. now rewrite Ascii.eqb_refl in H1.
  - injection E as E1 E2. subst c2.
    apply orb_false_iff in H1, H2.
    destruct (IH a2 (proj2 H1) (proj2 H2) E2) as [-> ->]. now split.
Qed.

Lemma digits_without_comma d : has_char "," (NilEmpty.string_of_uint d) = false.
Proof. induction d; cbn [NilEmpty.string_of_uint has_char]; trivial. Qed.

Lemma format_ld_without_comma z : has_char "," (format_ld z) = false.
Proof.
  unfold format_ld, NilZero.string_of_int, NilZero.string_of_uint.
  destruct z as [|p|p]; cbn [Z.to_int]; [reflexivity| |].
  - destruct (Pos.to_uint p) eqn:E; try (rewrite <- E; apply digits_without_comma).
    reflexivity.
  - cbn [has_char Ascii.eqb Bool.eqb andb orb].
    destruct (Pos.to_uint p) eqn:E; try (rewrite <- E; apply digits_without_comma).
    reflexivity.
Qed.

Lemma format_ld_injective a b : format_ld a = format_ld b -> a = b.
Proof.
  unfold format_ld. intro E. apply DecimalZ.to_int_inj.
  assert (N : forall z, Z.to_int z <> Pos Nil /\ Z.to_int z <> Neg Nil).
  { intros [|p|p]; cbn [Z.to_int]; split; try discriminate;
      intro F; injection F as F; now apply Unsigned.to_uint_nonnil in F. }
  assert (S : Some (Z.to_int a) = Some (Z.to_int b)).
  { rewrite <- (NilZero.isi (Z.to_int a)) by apply N.
    rewrite <- (NilZero.isi (Z.to_int b)) by apply N.
    now rewrite E. }
  now injection S.
Qed.

Lemma format_bool_without_comma b : has_char "," (format_bool b) = false.
Proof. now destruct b. Qed.

Lemma format_bool_injective a b : format_bool a = format_bool b -> a = b.
Proof. destruct a, b; (reflexivity || discriminate). Qed.

Lemma signature_entry_app m rest :
  (signature_entry m ++ rest)%string
  = (format_ld (rc_left (rc m)) ++
     String "," (format_ld (rc_top (rc m)) ++
     String "," (format_ld (rc_right (rc m)) ++
     String "," (format_ld (rc_bottom (rc m)) ++
     String "," (format_bool (primary m) ++
     String "," (narrow_device (device m) CCHDEVICENAME ++
     String ";" rest))))))%string.
Proof.
  unfold signature_entry. rewrite !string_app_assoc. reflexivity.
Qed.

Lemma signature_entry_injective a b r1 r2 :
  plain_name a -> plain_name b ->
  (signature_entry a ++ r1 = signature_entry b ++ r2)%string ->
  printed_tuple a = printed_tuple b /\ r1 = r2.
Proof.
  unfold plain_name, printed_tuple. intros Pa Pb E.
  rewrite !signature_entry_app in E.
  apply split_at_char in E; try apply format_ld_without_comma.
  destruct E as [E1 E].
  apply split_at_char in E; try apply format_ld_without_comma.
  destruct E as [E2 E].
  apply split_at_char in E; try apply format_ld_without_comma.
  destruct E as [E3 E].
  apply split_at_char in E; try apply format_ld_without_comma.
  destruct E as [E4 E].
  apply split_at_char in E; try apply format_bool_without_comma.
  destruct E as [E5 E].
  apply split_at_char in E; try assumption.
  destruct E as [E6 E].
  apply format_ld_injective in E1, E2, E3, E4. apply format_bool_injective in E5.
  split; [|exact E].
  rewrite E5, E6. do 2 f_equal.
  destruct (rc a), (rc b). cbn in E1, E2, E3, E4. now subst.
Qed.

(** The signature shows the sorted records: their rectangles, primary flags
    and narrowed names can be read back when no name holds a [';']. *)
Lemma concat_entries_injective l1 l2 :
  Forall plain_name l1 -> Forall plain_name l2 ->
  concat_entries l1 = concat_entries l2 ->
  map printed_tuple l1 = map printed_tuple l2.
Proof.
  revert l2. induction l1 as [|a l1 IH]; intros [|b l2] F1 F2 E;
    cbn [concat_entries map] in *.
  - reflexivity.
  - rewrite signature_entry_app in E. symmetry in E.
    now apply app_String_nonempty in E.
  - rewrite signature_entry_app in E. now apply app_String_nonempty in E.
  - inversion F1 as [|? ? Pa F1']. inversion F2 as [|? ? Pb F2']. subst.
    destruct (signature_entry_injective a b _ _ Pa Pb E) as [Et Er].
    now rewrite Et, (IH l2 F1' F2' Er).
Qed.

Lemma topo_signature_injective l1 l2 :
  Forall plain_name l1 -> Forall plain_name l2 ->
  topo_signature l1 = topo_signature l2 ->
  Permutation (map printed_tuple l1) (map printed_tuple l2).
Proof.
  intros F1 F2 E. unfold topo_signature, BuildTopoSignature in E. cbn [snd] in E.
  pose proof (std_sort_keeps _ monitor_less l1) as P1.
  pose proof (std_sort_keeps _ monitor_less l2) as P2.
  apply concat_entries_injective in E.
  - rewrite <- (Permutation_map printed_tuple P1).
    rewrite <- (Permutation_map printed_tuple P2). now rewrite E.
  - eapply Permutation_Forall; [apply Permutation_sym, P1 | exact F1].
  - eapply Permutation_Forall; [apply Permutation_sym, P2 | exact F2].
Qed.

Lemma topo_signature_nil : topo_signature [] = EmptyString.
Proof. reflexivity. Qed.

Lemma topo_signature_nonempty l : l <> [] -> topo_signature l <> EmptyString.
Proof.
  intros Hl E. unfold topo_signature, BuildTopoSignature in E. cbn [snd] in E.
  pose proof (std_sort_keeps _ monitor_less l) as P.
  destruct (std_sort monitor_less l) as [|m rest].
  - apply Permutation_nil in P. contradiction.
  - cbn [concat_entries] in E. rewrite signature_entry_app in E.
    now apply app_String_nonempty in E.
Qed.

(** ** [BuildTopoSignature] as a change detector *)

(** C3, as stated, fails in both directions.  Two records that share device
    name, left and top but differ elsewhere keep the order of the
    enumeration, so the same multiset gives two signatures.  And the
    signature does not tell apart device names that differ only above the
    low byte of a code unit, nor one record whose name holds a [';'] from two
    records. *)
Lemma topo_signature_not_complete :
  (Permutation
     (map monitor_tuple
        [mkMonitorInfo 1 (mkRECT 0 0 10 10) true [65; 49];
         mkMonitorInfo 2 (mkRECT 0 0 20 20) false [65; 49]])
     (map monitor_tuple
        [mkMonitorInfo 2 (mkRECT 0 0 20 20) false [65; 49];
         mkMonitorInfo 1 (mkRECT 0 0 10 10) true [65; 49]]) /\
   topo_signature
     [mkMonitorInfo 1 (mkRECT 0 0 10 10) true [65; 49];
      mkMonitorInfo 2 (mkRECT 0 0 20 20) false [65; 49]]
   = "0,0,10,10,1,A1;0,0,20,20,0,A1;"%string /\
   topo_signature
     [mkMonitorInfo 2 (mkRECT 0 0 20 20) false [65; 49];
      mkMonitorInfo 1 (mkRECT 0 0 10 10) true [65; 49]]
   = "0,0,20,20,0,A1;0,0,10,10,1,A1;"%string) /\
  (~ Permutation
       (map monitor_tuple [mkMonitorInfo 1 (mkRECT 0 0 1 1) false [65]])
       (map monitor_tuple [mkMonitorInfo 1 (mkRECT 0 0 1 1) false [321]]) /\
   topo_signature [mkMonitorInfo 1 (mkRECT 0 0 1 1) false [65]]
   = topo_signature [mkMonitorInfo 1 (mkRECT 0 0 1 1) false [321]]) /\
  (~ Permutation
       (map monitor_tuple
          [mkMonitorInfo 1 (mkRECT 0 0 1 1) false
             [65; 59; 48; 44; 48; 44; 49; 44; 49; 44; 48; 44; 66]])
       (map monitor_tuple
          [mkMonitorInfo 1 (mkRECT 0 0 1 1) false [65];
           mkMonitorInfo 2 (mkRECT 0 0 1 1) false [66]]) /\
   topo_signature
     [mkMonitorInfo 1 (mkRECT 0 0 1 1) false
        [65; 59; 48; 44; 48; 44; 49; 44; 49; 44; 48; 44; 66]]
   = topo_signature
       [mkMonitorInfo 1 (mkRECT 0 0 1 1) false [65];
        mkMonitorInfo 2 (mkRECT 0 0 1 1) false [66]]).
Proof.
  split; [|split].
  - split; [apply perm_swap|]. split; vm_compute; reflexivity.
  - split; [|vm_compute; reflexivity].
    intro P. apply Permutation_length_1 in P. vm_compute in P. congruence.
  - split; [|vm_compute; reflexivity].
    intro P. apply Permutation_length in P. discriminate.
Qed.

(** C3 (amended).  Two monitor lists holding the same multiset of
    (rectangle, primary flag, device name) tuples produce the same signature
    whatever the order of the records, provided any two records of the list
    that share device name, left and top are the same tuple.  Two lists
    whose multisets of (rectangle, primary flag, device name as printed:
    narrowed to [char] and cut at its first zero) differ produce different
    signatures, provided no printed name holds a [';']. *)
Theorem topo_signature_change_detector :
  (forall l1 l2,
     Permutation (map monitor_tuple l1) (map monitor_tuple l2) ->
     keys_distinct l1 ->
     topo_signature l1 = topo_signature l2) /\
  (forall l1 l2,
     Forall plain_name l1 -> Forall plain_name l2 ->
     ~ Permutation (map printed_tuple l1) (map printed_tuple l2) ->
     topo_signature l1 <> topo_signature l2).
Proof.
  split.
  - exact topo_signature_permutation.
  - intros l1 l2 F1 F2 N E. apply N. now apply topo_signature_injective.
Qed.

Lemma topo_signature_change_detector_witness :
  topo_signature
    [mkMonitorInfo 1 (mkRECT 0 0 1920 1080) true display1_name;
     mkMonitorInfo 2 (mkRECT 1920 0 2560 1440) false display2_name]
  = topo_signature
      [mkMonitorInfo 2 (mkRECT 1920 0 2560 1440) false display2_name;
       mkMonitorInfo 1 (mkRECT 0 0 1920 1080) true display1_name] /\
  topo_signature
    [mkMonitorInfo 1 (mkRECT 0 0 1920 1080) true display1_name]
  <> topo_signature
       [mkMonitorInfo 1 (mkRECT 0 0 1920 1200) true display1_name].
Proof.
  destruct topo_signature_change_detector as [Ha Hb]. split.
  - apply Ha; [apply perm_swap|].
    intros a b [<- | [<- | []]] [<- | [<- | []]] (Hd & _); try reflexivity;
      vm_compute in Hd; congruence.
  - apply Hb.
    + repeat constructor.
    + repeat constructor.
    + intro P. apply Permutation_length_1 in P. discriminate.
Defined.

(** ** [RefreshMonitors] when no display is enumerated *)

Lemma RefreshMonitors_empty displays st :
  EnumDisplayMonitors displays = [] ->
  RefreshMonitors displays st
  = if String.eqb EmptyString (g_topoSignature st) then st
    else mkState [] EmptyString nullptr unknown_pos (g_suppressing st).
Proof. intro E. unfold RefreshMonitors. rewrite E. reflexivity. Qed.

Lemma RefreshMonitors_signature displays st :
  g_topoSignature (RefreshMonitors displays st)
  = topo_signature (EnumDisplayMonitors displays).
Proof.
  unfold RefreshMonitors, topo_signature.
  destruct (BuildTopoSignature (EnumDisplayMonitors displays)) as [fresh sig].
  cbn [snd]. destruct (String.eqb_spec sig (g_topoSignature st)) as [E|E];
    [now rewrite E | reflexivity].
Qed.

Lemma RefreshMonitors_suppressing displays st :
  g_suppressing (RefreshMonitors displays st) = g_suppressing st.
Proof.
  unfold RefreshMonitors.
  destruct (BuildTopoSignature (EnumDisplayMonitors displays)) as [fresh sig].
  now destruct (String.eqb sig (g_topoSignature st)).
Qed.

(** C1, as stated, fails.  After the first refresh has found two displays
    and a move event has been tracked, a refresh whose enumeration yields no
    display (none enumerated, or [GetMonitorInfoW] failing on each) replaces
    the monitor list by the empty one, sets the signature to the empty text
    and resets the last monitor and the last position. *)
Lemma RefreshMonitors_drops_snapshot :
  g_monitors tracking_state
  = [mkMonitorInfo 1 (mkRECT 0 0 1920 1080) true display1_name;
     mkMonitorInfo 2 (mkRECT 1920 0 2560 1440) false display2_name] /\
  g_lastMonitor tracking_state = 1 /\
  g_lastPos tracking_state = mkPOINT 1919 540 /\
  EnumDisplayMonitors [] = [] /\
  RefreshMonitors [] tracking_state
  = mkState [] EmptyString nullptr unknown_pos false /\
  EnumDisplayMonitors [(1, None); (2, None)] = [] /\
  RefreshMonitors [(1, None); (2, None)] tracking_state
  = mkState [] EmptyString nullptr unknown_pos false.
Proof. repeat split; vm_compute; reflexivity. Qed.

(** C1 (amended).  On a [RefreshMonitors] call whose enumeration yields no
    display, the fresh signature is the empty text.  If the held signature
    is empty too (nothing has been enumerated before) the state is left as
    it is.  Otherwise, and so after every refresh that has found a display,
    the held snapshot is replaced: the monitor list and the signature become
    empty, the last monitor and the last position are reset to unknown, and
    the suppression flag is kept. *)
Theorem RefreshMonitors_no_displays :
  (forall displays st,
     EnumDisplayMonitors displays = [] ->
     RefreshMonitors displays st
     = if String.eqb EmptyString (g_topoSignature st) then st
       else mkState [] EmptyString nullptr unknown_pos (g_suppressing st)) /\
  (forall earlier st0,
     EnumDisplayMonitors earlier <> [] ->
     g_topoSignature (RefreshMonitors earlier st0) <> EmptyString) /\
  (forall earlier st0 displays,
     EnumDisplayMonitors earlier <> [] ->
     EnumDisplayMonitors displays = [] ->
     RefreshMonitors displays (RefreshMonitors earlier st0)
     = mkState [] EmptyString nullptr unknown_pos (g_suppressing st0)).
Proof.
  assert (N : forall earlier st0,
             EnumDisplayMonitors earlier <> [] ->
             g_topoSignature (RefreshMonitors earlier st0) <> EmptyString).
  { intros earlier st0 H. rewrite RefreshMonitors_signature.
    now apply topo_signature_nonempty. }
  split; [exact RefreshMonitors_empty|]. split; [exact N|].
  intros earlier st0 displays He Hd.
  rewrite (RefreshMonitors_empty _ _ Hd).
  destruct (String.eqb_spec EmptyString
              (g_topoSignature (RefreshMonitors earlier st0))) as [E|E].
  - symmetry in E. now apply N in E.
  - now rewrite RefreshMonitors_suppressing.
Qed.

Lemma RefreshMonitors_no_displays_witness :
  RefreshMonitors [] (RefreshMonitors example_displays initial_state)
  = mkState [] EmptyString nullptr unknown_pos false /\
  RefreshMonitors [] initial_state = initial_state.
Proof.
  destruct RefreshMonitors_no_displays as (H1 & _ & H3). split.
  - apply (H3 example_displays initial_state []).
    + vm_compute. discriminate.
    + reflexivity.
  - apply (H1 [] initial_state). reflexivity.
Defined.

(** * Further properties *)

(** ** The order of the sorted vector *)

Section SortedOutput.

Variable A : Type.
Variable less : A -> A -> bool.
Hypothesis less_irrefl : forall a, less a a = false.
Hypothesis less_trans :
  forall a b c, less a b = true -> less b c = true -> less a c = true.

Lemma sort_insert_sorted l v :
  sorted_by less l -> sorted_by less (sort_insert less l v).
Proof.
  unfold sorted_by. induction 1 as [|h rest HS IH HF]; cbn [sort_insert].
  - constructor; constructor.
  - destruct (less v h) eqn:E.
    + constructor; [constructor; assumption|].
      constructor.
      * now apply (less_asym A less less_irrefl less_trans).
      * rewrite Forall_forall in *. intros x Hx.
        destruct (less x v) eqn:Exv; [|reflexivity].
        rewrite <- (HF x Hx). symmetry. now apply less_trans with v.
    + constructor; [exact IH|].
      apply (Permutation_Forall (Permutation_sym (sort_insert_permutation A less rest v))).
      constructor; assumption.
Qed.

Lemma fold_insert_sorted l acc :
  sorted_by less acc -> sorted_by less (fold_left (sort_insert less) l acc).
Proof.
  revert acc. induction l as [|a l IH]; intros acc H; cbn [fold_left];
    [exact H|].
  apply IH. now apply sort_insert_sorted.
Qed.

Lemma std_sort_sorted l : sorted_by less (std_sort less l).
Proof. apply fold_insert_sorted. constructor. Qed.

(** Without ties there is one sorted arrangement only. *)
Lemma sorted_permutation_unique l1 l2 :
  Permutation l1 l2 -> ties_equal less l1 ->
  sorted_by less l1 -> sorted_by less l2 -> l1 = l2.
Proof.
  unfold sorted_by. revert l2.
  induction l1 as [|a l1 IH]; intros l2 HP T S1 S2.
  - apply Permutation_nil in HP. now subst.
  - destruct l2 as [|b l2];
      [apply Permutation_sym, Permutation_nil in HP; discriminate|].
    inversion S1 as [|? ? S1' F1]; subst.
    inversion S2 as [|? ? S2' F2]; subst.
    rewrite Forall_forall in F1, F2.
    assert (Hab : a = b).
    { assert (Ia : In a (b :: l2))
        by (apply (Permutation_in _ HP); now left).
      assert (Ib : In b (a :: l1))
        by (apply (Permutation_in _ (Permutation_sym HP)); now left).
      destruct Ia as [E | Ia]; [now symmetry|].
      destruct Ib as [E | Ib]; [exact E|].
      apply T; [now left | now right | apply F2, Ia | apply F1, Ib]. }
    subst b. f_equal. apply IH.
    + now apply Permutation_cons_inv with a.
    + intros u v Hu Hv. apply T; now right.
    + exact S1'.
    + exact S2'.
Qed.

End SortedOutput.

Lemma BuildTopoSignature_output mons :
  Permutation (fst (BuildTopoSignature mons)) mons /\
  sorted_by monitor_less (fst (BuildTopoSignature mons)) /\
  snd (BuildTopoSignature mons) = concat_entries (fst (BuildTopoSignature mons)).
Proof.
  unfold BuildTopoSignature. cbn [fst snd]. split; [apply std_sort_keeps|].
  split; [|reflexivity].
  apply std_sort_sorted; [apply monitor_less_irrefl | apply monitor_less_trans].
Qed.

(** X1.  [BuildTopoSignature] leaves its argument holding the same records,
    none lost and none twice, in an order in which no record sorts before an
    earlier one; the text it returns is the concatenation of their
    entries. *)
Theorem BuildTopoSignature_sorts mons :
  Permutation (fst (BuildTopoSignature mons)) mons /\
  sorted_by monitor_less (fst (BuildTopoSignature mons)) /\
  snd (BuildTopoSignature mons) = concat_entries (fst (BuildTopoSignature mons)).
Proof. exact (BuildTopoSignature_output mons). Qed.

Lemma ties_equal_permutation {A : Type} (less : A -> A -> bool) l1 l2 :
  Permutation l1 l2 -> ties_equal less l2 -> ties_equal less l1.
Proof.
  intros HP T a b Ha Hb. apply T; now apply (Permutation_in _ HP).
Qed.

(** X2.  When no two different records of the vector tie in the comparison,
    sorting the vector [BuildTopoSignature] has sorted changes nothing more:
    the sorted vector is the only sorted arrangement of the records, so
    whichever way a second call sorts it, the vector stays and the same text
    comes back. *)
Theorem BuildTopoSignature_idempotent mons :
  ties_equal monitor_less mons ->
  (forall resorted,
     Permutation resorted (fst (BuildTopoSignature mons)) ->
     sorted_by monitor_less resorted ->
     resorted = fst (BuildTopoSignature mons) /\
     concat_entries resorted = snd (BuildTopoSignature mons)) /\
  BuildTopoSignature (fst (BuildTopoSignature mons)) = BuildTopoSignature mons.
Proof.
  intro T.
  destruct (BuildTopoSignature_output mons) as (P & S & E).
  assert (U : forall resorted,
             Permutation resorted (fst (BuildTopoSignature mons)) ->
             sorted_by monitor_less resorted ->
             resorted = fst (BuildTopoSignature mons)).
  { intros resorted HP HS.
    apply (sorted_permutation_unique _ monitor_less); try assumption.
    apply (ties_equal_permutation _ _ mons); [|exact T].
    now apply Permutation_trans with (fst (BuildTopoSignature mons)). }
  split.
  - intros resorted HP HS. rewrite (U resorted HP HS). split; [reflexivity|].
    now symmetry.
  - destruct (BuildTopoSignature_output (fst (BuildTopoSignature mons)))
      as (P2 & S2 & E2).
    apply injective_projections.
    + now apply U.
    + rewrite E2, E. f_equal. now apply U.
Qed.

Lemma BuildTopoSignature_idempotent_witness :
  BuildTopoSignature
    (fst (BuildTopoSignature
            [mkMonitorInfo 2 (mkRECT 1920 0 2560 1440) false display2_name;
             mkMonitorInfo 1 (mkRECT 0 0 1920 1080) true display1_name]))
  = BuildTopoSignature
      [mkMonitorInfo 2 (mkRECT 1920 0 2560 1440) false display2_name;
       mkMonitorInfo 1 (mkRECT 0 0 1920 1080) true display1_name].
Proof.
  apply BuildTopoSignature_idempotent.
  intros a b [<- | [<- | []]] [<- | [<- | []]] H1 H2; try reflexivity;
    vm_compute in H1; vm_compute in H2; discriminate.
Defined.

(** ** [RefreshMonitors]: what a refresh keeps *)

Lemma RefreshMonitors_unchanged displays st :
  topo_signature (EnumDisplayMonitors displays) = g_topoSignature st ->
  RefreshMonitors displays st = st.
Proof.
  unfold RefreshMonitors, topo_signature.
  destruct (BuildTopoSignature (EnumDisplayMonitors displays)) as [fresh sig].
  cbn [snd]. intros ->. now rewrite String.eqb_refl.
Qed.

Lemma RefreshMonitors_changed displays st :
  topo_signature (EnumDisplayMonitors displays) <> g_topoSignature st ->
  RefreshMonitors displays st
  = mkState (fst (BuildTopoSignature (EnumDisplayMonitors displays)))
            (topo_signature (EnumDisplayMonitors displays))
            nullptr unknown_pos (g_suppressing st).
Proof.
  unfold RefreshMonitors, topo_signature.
  destruct (BuildTopoSignature (EnumDisplayMonitors displays)) as [fresh sig].
  cbn [fst snd]. intro H. apply String.eqb_neq in H. now rewrite H.
Qed.

(** X3.  Refreshing twice on the same enumeration is refreshing once: the
    second call finds the signature it has just stored and returns at
    once. *)
Theorem RefreshMonitors_idempotent displays st :
  RefreshMonitors displays (RefreshMonitors displays st)
  = RefreshMonitors displays st.
Proof.
  apply RefreshMonitors_unchanged. symmetry. apply RefreshMonitors_signature.
Qed.

(** X4.  A refresh that enumerates the same (rectangle, primary flag, device
    name) tuples as the held signature was built from, in any order and
    under any handles, changes nothing: the tracked cursor state stays, and
    so does the held monitor list with the handles it had.  This holds
    provided the records the signature was built from that share device
    name, left and top are the same in rectangle, primary flag and device
    name; records that tie in the sort and differ otherwise can come out in
    another order and change the text. *)
Theorem RefreshMonitors_same_displays earlier displays st :
  g_topoSignature st = topo_signature (EnumDisplayMonitors earlier) ->
  Permutation (map monitor_tuple (EnumDisplayMonitors earlier))
              (map monitor_tuple (EnumDisplayMonitors displays)) ->
  keys_distinct (EnumDisplayMonitors earlier) ->
  RefreshMonitors displays st = st.
Proof.
  intros Hs HP HK. apply RefreshMonitors_unchanged. rewrite Hs. symmetry.
  now apply topo_signature_permutation.
Qed.

Lemma RefreshMonitors_same_displays_witness :
  RefreshMonitors
    [(7, Some (mkMONITORINFOEXW (mkRECT 1920 0 2560 1440) 0 display2_name));
     (8, Some (mkMONITORINFOEXW (mkRECT 0 0 1920 1080) 1 display1_name))]
    tracking_state
  = tracking_state.
Proof.
  apply (RefreshMonitors_same_displays example_displays).
  - reflexivity.
  - apply perm_swap.
  - intros a b [<- | [<- | []]] [<- | [<- | []]] (Hd & _); try reflexivity;
      vm_compute in Hd; congruence.
Defined.

Lemma RefreshMonitors_consistent displays st :
  topology_consistent st -> topology_consistent (RefreshMonitors displays st).
Proof.
  intro H.
  destruct (string_dec (topo_signature (EnumDisplayMonitors displays))
                       (g_topoSignature st)) as [E|E].
  - now rewrite RefreshMonitors_unchanged.
  - rewrite RefreshMonitors_changed by assumption.
    unfold topology_consistent. cbn [g_topoSignature g_monitors].
    destruct (BuildTopoSignature_output (EnumDisplayMonitors displays))
      as (_ & S & T).
    split; [|exact S].
    unfold topo_signature. exact T.
Qed.

(** ** [FindMonitor] *)

Lemma FindMonitor_some mons h m :
  FindMonitor mons h = Some m -> handle m = h /\ In m mons.
Proof.
  induction mons as [|a rest IH]; cbn [FindMonitor]; [discriminate|].
  destruct (Z.eqb_spec (handle a) h) as [E|E].
  - intros [= <-]. split; [exact E | now left].
  - intro H. destruct (IH H). split; [assumption | now right].
Qed.

Lemma FindMonitor_none mons h :
  FindMonitor mons h = None <-> (forall m, In m mons -> handle m <> h).
Proof.
  induction mons as [|a rest IH]; cbn [FindMonitor].
  - split; [intros _ m [] | reflexivity].
  - destruct (Z.eqb_spec (handle a) h) as [E|E].
    + split; [discriminate|]. intro H. exfalso. apply (H a); [now left | exact E].
    + rewrite IH. split.
      * intros H m [<- | Hm]; [exact E | now apply H].
      * intros H m Hm. apply H. now right.
Qed.

Lemma FindMonitor_first pre m post :
  (forall x, In x pre -> handle x <> handle m) ->
  FindMonitor (pre ++ m :: post) (handle m) = Some m.
Proof.
  induction pre as [|a pre IH]; intro H.
  - change (FindMonitor ([] ++ m :: post) (handle m))
      with (if handle m =? handle m then Some m
            else FindMonitor post (handle m)).
    now rewrite Z.eqb_refl.
  - change (FindMonitor ((a :: pre) ++ m :: post) (handle m))
      with (if handle a =? handle m then Some a
            else FindMonitor (pre ++ m :: post) (handle m)).
    destruct (Z.eqb_spec (handle a) (handle m)) as [E|E].
    + exfalso. apply (H a); [now left | exact E].
    + apply IH. intros x Hx. apply H. now right.
Qed.

(** X5.  [FindMonitor] returns a record of the list that carries the handle
    asked for, the first such record of the list; it returns nothing exactly
    when no record of the list carries the handle. *)
Theorem FindMonitor_lookup :
  (forall mons h m,
     FindMonitor mons h = Some m -> handle m = h /\ In m mons) /\
  (forall mons h,
     FindMonitor mons h = None <-> (forall m, In m mons -> handle m <> h)) /\
  (forall pre m post,
     (forall x, In x pre -> handle x <> handle m) ->
     FindMonitor (pre ++ m :: post) (handle m) = Some m).
Proof.
  split; [exact FindMonitor_some|]. split; [exact FindMonitor_none|].
  exact FindMonitor_first.
Qed.

Lemma FindMonitor_lookup_witness :
  FindMonitor
    ([mkMonitorInfo 1 (mkRECT 0 0 1920 1080) true display1_name] ++
     mkMonitorInfo 2 (mkRECT 1920 0 2560 1440) false display2_name ::
     [mkMonitorInfo 2 (mkRECT 0 0 1 1) false display1_name])
    (handle (mkMonitorInfo 2 (mkRECT 1920 0 2560 1440) false display2_name))
  = Some (mkMonitorInfo 2 (mkRECT 1920 0 2560 1440) false display2_name).
Proof.
  destruct FindMonitor_lookup as (_ & _ & H). apply H.
  intros x [<- | []]. cbn. discriminate.
Defined.

Lemma FindMonitor_unique mons m :
  NoDup (map handle mons) -> In m mons -> FindMonitor mons (handle m) = Some m.
Proof.
  induction mons as [|a rest IH]; cbn [map FindMonitor]; intros ND Hin;
    [contradiction|].
  inversion ND as [|? ? Hna ND']; subst.
  destruct Hin as [<- | Hin]; [now rewrite Z.eqb_refl|].
  destruct (Z.eqb_spec (handle a) (handle m)) as [E|E]; [|now apply IH].
  exfalso. apply Hna. rewrite E. now apply in_map.
Qed.

Lemma fold_MonitorEnumProc displays acc :
  fold_left MonitorEnumProc displays acc
  = acc ++ flat_map (fun d => match snd d with
                              | Some mi => [record_of (fst d) mi]
                              | None => []
                              end) displays.
Proof.
  revert acc. induction displays as [|d rest IH]; intro acc;
    cbn [fold_left flat_map]; [now rewrite app_nil_r|].
  rewrite IH. unfold MonitorEnumProc at 1.
  destruct (snd d); cbn [app]; [now rewrite <- app_assoc | reflexivity].
Qed.

Lemma EnumDisplayMonitors_flat_map displays :
  EnumDisplayMonitors displays
  = flat_map (fun d => match snd d with
                       | Some mi => [record_of (fst d) mi]
                       | None => []
                       end) displays.
Proof. unfold EnumDisplayMonitors. now rewrite fold_MonitorEnumProc. Qed.

Lemma EnumDisplayMonitors_in displays m :
  In m (EnumDisplayMonitors displays) <->
  exists mi, In (handle m, Some mi) displays /\ m = record_of (handle m) mi.
Proof.
  rewrite EnumDisplayMonitors_flat_map, in_flat_map. split.
  - intros ([h [mi|]] & Hd & Hm); cbn [snd fst] in Hm; [|contradiction].
    destruct Hm as [<- | []]. exists mi. now split.
  - intros (mi & Hd & Hm). exists (handle m, Some mi). split; [exact Hd|].
    cbn [snd fst]. left. now symmetry.
Qed.

Lemma EnumDisplayMonitors_handles displays :
  NoDup (map fst displays) -> NoDup (map handle (EnumDisplayMonitors displays)).
Proof.
  rewrite EnumDisplayMonitors_flat_map.
  induction displays as [|[h o] rest IH]; cbn [map flat_map fst snd]; intro ND;
    [constructor|].
  inversion ND as [|? ? Hn ND']; subst.
  destruct o as [mi|]; cbn [app map]; [|now apply IH].
  constructor; [|now apply IH].
  cbn [record_of handle]. intro Hin. apply Hn.
  apply in_map_iff in Hin. destruct Hin as (m & Hm & Hin).
  apply in_flat_map in Hin. destruct Hin as ([h' [mi'|]] & Hd & Hr);
    cbn [snd fst] in Hr; [|contradiction].
  destruct Hr as [<- | []]. cbn [record_of handle] in Hm. subst h'.
  apply in_map_iff. exists (h, Some mi'). now split.
Qed.

(** X6.  After a refresh that replaces the snapshot, every enumerated
    display whose information query succeeded is found by its handle, with
    the rectangle, primary flag and device name the query gave, provided the
    enumerated handles are distinct; a display whose query failed is not
    found. *)
Theorem FindMonitor_after_refresh displays st :
  topo_signature (EnumDisplayMonitors displays) <> g_topoSignature st ->
  NoDup (map fst displays) ->
  (forall h mi,
     In (h, Some mi) displays ->
     FindMonitor (g_monitors (RefreshMonitors displays st)) h
     = Some (record_of h mi)) /\
  (forall h,
     In (h, None) displays ->
     FindMonitor (g_monitors (RefreshMonitors displays st)) h = None).
Proof.
  intros Hc ND. rewrite RefreshMonitors_changed by assumption.
  cbn [g_monitors].
  destruct (BuildTopoSignature_output (EnumDisplayMonitors displays))
    as (P & _ & _).
  assert (NDs : NoDup (map handle (fst (BuildTopoSignature
                                          (EnumDisplayMonitors displays))))).
  { apply (Permutation_NoDup (l := map handle (EnumDisplayMonitors displays))).
    - apply Permutation_map, Permutation_sym, P.
    - now apply EnumDisplayMonitors_handles. }
  split.
  - intros h mi Hin.
    change h with (handle (record_of h mi)) at 1.
    apply FindMonitor_unique; [exact NDs|].
    apply (Permutation_in _ (Permutation_sym P)).
    apply EnumDisplayMonitors_in. exists mi. now split.
  - intros h Hin. apply FindMonitor_none. intros m Hm Hh.
    apply (Permutation_in _ P) in Hm.
    apply EnumDisplayMonitors_in in Hm. destruct Hm as (mi & Hd & _).
    rewrite Hh in Hd.
    assert (E : Some mi = @None MONITORINFOEXW).
    { clear - ND Hd Hin. induction displays as [|[h' o] rest IH];
        [contradiction|].
      cbn [map fst] in ND. inversion ND as [|? ? Hn ND']; subst.
      destruct Hd as [Hd | Hd], Hin as [Hi | Hi].
      - congruence.
      - injection Hd as -> _. exfalso. apply Hn.
        apply in_map_iff. exists (h, None). now split.
      - injection Hi as -> _. exfalso. apply Hn.
        apply in_map_iff. exists (h, Some mi). now split.
      - now apply IH. }
    discriminate.
Qed.

Lemma FindMonitor_after_refresh_witness :
  FindMonitor (g_monitors (RefreshMonitors example_displays initial_state)) 2
  = Some (record_of 2 (mkMONITORINFOEXW (mkRECT 1920 0 2560 1440) 0
                         display2_name)).
Proof.
  destruct (FindMonitor_after_refresh example_displays initial_state) as [H _].
  - vm_compute. discriminate.
  - repeat constructor; cbn; intuition discriminate.
  - apply H. right. left. reflexivity.
Defined.

(** ** [FindExitEdge]: what a reported hit is *)

Lemma fold_consider_result dx dy l h0 :
  fold_left (consider dx dy) l h0 = h0 \/
  exists c, In c l /\ accepted dx dy c = true /\
            fold_left (consider dx dy) l h0 = hit_of c.
Proof.
  revert h0. induction l as [|c l IH]; intro h0; cbn [fold_left]; [now left|].
  destruct (IH (consider dx dy h0 c)) as [E | (c' & Hin & Ha & E)].
  - rewrite E. unfold consider.
    destruct (accepted dx dy c) eqn:Ha; cbn [andb]; [|now left].
    destruct (replaces dx dy h0 c); [|now left].
    right. exists c. split; [now left|]. now split.
  - right. exists c'. split; [now right|]. now split.
Qed.

Lemma vertical_candidate_in p0 p1 r e bound c :
  In c (vertical_candidate p0 p1 r e bound) ->
  c_edge c = e /\ vertical_crossing p0 p1 r bound c.
Proof.
  unfold vertical_candidate, vertical_crossing.
  destruct (Double.neqb (segment_dx p0 p1) Double.zero) eqn:Hdx; [|intros []].
  match goal with |- context [if ?b then _ else _] => destruct b eqn:Hr end;
    [|intros []].
  intros [<- | []]. cbn [c_edge c_t c_along].
  apply andb_true_iff in Hr. destruct Hr as [H1 H2]. repeat split; assumption.
Qed.

Lemma horizontal_candidate_in p0 p1 r e bound c :
  In c (horizontal_candidate p0 p1 r e bound) ->
  c_edge c = e /\ horizontal_crossing p0 p1 r bound c.
Proof.
  unfold horizontal_candidate, horizontal_crossing.
  destruct (Double.neqb (segment_dy p0 p1) Double.zero) eqn:Hdy; [|intros []].
  match goal with |- context [if ?b then _ else _] => destruct b eqn:Hr end;
    [|intros []].
  intros [<- | []]. cbn [c_edge c_t c_along].
  apply andb_true_iff in Hr. destruct Hr as [H1 H2]. repeat split; assumption.
Qed.

Lemma accepted_range dx dy c :
  accepted dx dy c = true ->
  Double.ltb (c_t c) (Double.opp Double.tol) = false /\
  Double.gtb (c_t c) Double.one = false /\
  (Double.ltb (c_t c) Double.tol = true -> outward dx dy (c_edge c) = true).
Proof.
  unfold accepted. intro H. apply andb_true_iff in H. destruct H as [H1 H2].
  apply negb_true_iff, orb_false_iff in H1. destruct H1 as [H1 H1'].
  repeat split; try assumption. intro Hl. now rewrite Hl in H2.
Qed.

Lemma FindExitEdge_hit_cases p0 p1 r h :
  FindExitEdge p0 p1 r = Some h ->
  h = initial_best \/
  (Double.ltb (t h) (Double.opp Double.tol) = false /\
   Double.gtb (t h) Double.one = false /\
   (Double.ltb (t h) Double.tol = true ->
    outward (segment_dx p0 p1) (segment_dy p0 p1) (edge h) = true) /\
   match edge h with
   | Right => vertical_crossing p0 p1 r (rc_right r)
                (mkCandidate Right (t h) (coord h))
   | Left => vertical_crossing p0 p1 r (rc_left r)
               (mkCandidate Left (t h) (coord h))
   | Bottom => horizontal_crossing p0 p1 r (rc_bottom r)
                 (mkCandidate Bottom (t h) (coord h))
   | Top => horizontal_crossing p0 p1 r (rc_top r)
              (mkCandidate Top (t h) (coord h))
   | Edge_None => False
   end).
Proof.
  rewrite FindExitEdge_select. intros [= <-]. unfold select.
  destruct (fold_consider_result (segment_dx p0 p1) (segment_dy p0 p1)
              (boundary_candidates p0 p1 r) initial_best)
    as [-> | (c & Hin & Ha & ->)]; [now left|].
  right. destruct (accepted_range _ _ _ Ha) as (R1 & R2 & R3).
  unfold hit_of. cbn [t edge coord].
  split; [exact R1|]. split; [exact R2|]. split; [exact R3|].
  unfold boundary_candidates in Hin.
  repeat (apply in_app_or in Hin; destruct Hin as [Hin | Hin]).
  - apply vertical_candidate_in in Hin. destruct Hin as [E V]. rewrite E.
    now destruct c.
  - apply vertical_candidate_in in Hin. destruct Hin as [E V]. rewrite E.
    now destruct c.
  - apply horizontal_candidate_in in Hin. destruct Hin as [E V]. rewrite E.
    now destruct c.
  - apply horizontal_candidate_in in Hin. destruct Hin as [E V]. rewrite E.
    now destruct c.
Qed.

(** X7.  What [FindExitEdge] returns is either the initial no-hit value
    (edge None, parameter 2.0, coordinate 0.0) or the crossing of the
    boundary line it names: the parameter is the quotient computed for that
    line and lies in [-1e-9, 1], below 1e-9 only if the segment leaves
    through that boundary, and the coordinate is the one computed for that
    line and lies within the closed extent of the rectangle. *)
Theorem FindExitEdge_reports_a_crossing p0 p1 r h :
  FindExitEdge p0 p1 r = Some h ->
  h = initial_best \/
  (Double.ltb (t h) (Double.opp Double.tol) = false /\
   Double.gtb (t h) Double.one = false /\
   (Double.ltb (t h) Double.tol = true ->
    outward (segment_dx p0 p1) (segment_dy p0 p1) (edge h) = true) /\
   match edge h with
   | Right => vertical_crossing p0 p1 r (rc_right r)
                (mkCandidate Right (t h) (coord h))
   | Left => vertical_crossing p0 p1 r (rc_left r)
               (mkCandidate Left (t h) (coord h))
   | Bottom => horizontal_crossing p0 p1 r (rc_bottom r)
                 (mkCandidate Bottom (t h) (coord h))
   | Top => horizontal_crossing p0 p1 r (rc_top r)
              (mkCandidate Top (t h) (coord h))
   | Edge_None => False
   end).
Proof. apply FindExitEdge_hit_cases. Qed.

Lemma FindExitEdge_reports_a_crossing_witness :
  vertical_crossing (mkPOINT 1919 540) (mkPOINT 1920 540)
    (mkRECT 0 0 1920 1080) 1920
    (mkCandidate Right Double.one (Double.of_long 540)).
Proof.
  destruct (FindExitEdge_reports_a_crossing
              (mkPOINT 1919 540) (mkPOINT 1920 540) (mkRECT 0 0 1920 1080)
              (mkHit Right Double.one (Double.of_long 540)))
    as [E | (_ & _ & _ & H)].
  - vm_compute. reflexivity.
  - discriminate E.
  - exact H.
Defined.

(** X8.  A segment with no vertical extent is never reported to leave
    through Top or Bottom, and one with no horizontal extent never through
    Left or Right: the tests of those boundary lines are skipped. *)
Theorem FindExitEdge_axis_aligned p0 p1 r h :
  long_point p0 -> long_point p1 ->
  FindExitEdge p0 p1 r = Some h ->
  (py p1 = py p0 -> edge h <> Top /\ edge h <> Bottom) /\
  (px p1 = px p0 -> edge h <> Left /\ edge h <> Right).
Proof.
  intros H0 H1 Hh.
  assert (Zy : py p1 = py p0 ->
               Double.neqb (segment_dy p0 p1) Double.zero = false).
  { intro E. rewrite segment_dy_exact, E, Z.sub_diag by assumption.
    reflexivity. }
  assert (Zx : px p1 = px p0 ->
               Double.neqb (segment_dx p0 p1) Double.zero = false).
  { intro E. rewrite segment_dx_exact, E, Z.sub_diag by assumption.
    reflexivity. }
  destruct (FindExitEdge_hit_cases p0 p1 r h Hh) as [-> | (_ & _ & _ & Hc)].
  - split; intros _; split; discriminate.
  - split; intro E; split; intro Ee; rewrite Ee in Hc;
      destruct Hc as [Hn _]; rewrite ?(Zy E), ?(Zx E) in Hn; discriminate.
Qed.

Lemma FindExitEdge_axis_aligned_witness :
  edge (mkHit Right Double.one (Double.of_long 540)) <> Top /\
  edge (mkHit Right Double.one (Double.of_long 540)) <> Bottom.
Proof.
  apply (FindExitEdge_axis_aligned (mkPOINT 1919 540) (mkPOINT 1920 540)
           (mkRECT 0 0 1920 1080)).
  - unfold long_point, in_long, LONG_MIN, LONG_MAX; simpl; lia.
  - unfold long_point, in_long, LONG_MIN, LONG_MAX; simpl; lia.
  - vm_compute. reflexivity.
  - reflexivity.
Defined.

(** ** [RemapCursor]: when it succeeds, and where the ends go *)

(** X9.  With the differences of the LONG arithmetic representable,
    [RemapCursor] returns a point exactly when the edge is one of Left,
    Right, Top, Bottom, the two rectangles overlap along the axis it maps on
    and both have a positive extent along it; the hit coordinate plays no
    part in that. *)
Theorem RemapCursor_succeeds_iff src dst e hit :
  in_long (axis_overlap e src dst) ->
  in_long (axis_length e src) -> in_long (axis_length e dst) ->
  ((exists p, RemapCursor src dst e hit = Some p) <->
   e <> Edge_None /\ 0 < axis_overlap e src dst /\
   0 < axis_length e src /\ 0 < axis_length e dst).
Proof.
  unfold axis_overlap, axis_length, RemapCursor. intros Ho Hs Hd.
  destruct e; cbn [axis_start axis_end] in *; cbn iota beta;
    rewrite (long_sub_exact _ _ Ho), (long_sub_exact _ _ Hs),
      (long_sub_exact _ _ Hd);
    (split; [intros [p Hp] | intros (Hn & H1 & H2 & H3)]).
  all: try (exfalso; now apply Hn).
  all: try (match type of Hp with
            | context [if ?b then None else _] => destruct b eqn:Hb
            end; try discriminate;
            apply orb_false_iff in Hb; destruct Hb as [Hb H3];
            apply orb_false_iff in Hb; destruct Hb as [H1 H2];
            apply Z.leb_gt in H1, H2, H3;
            repeat split; (assumption || discriminate)).
  all: try (apply Z.leb_gt in H1, H2, H3; rewrite H1, H2, H3; cbn [orb];
            eexists; reflexivity).
Qed.

Lemma RemapCursor_succeeds_iff_witness :
  exists p,
    RemapCursor (mkRECT 0 0 1920 1080) (mkRECT 1920 0 2560 1440) Right
      (Double.of_long 540) = Some p.
Proof.
  apply RemapCursor_succeeds_iff;
    try (unfold axis_overlap, axis_length, in_long, LONG_MIN, LONG_MAX;
         simpl; lia).
  split; [discriminate|].
  unfold axis_overlap, axis_length; simpl; lia.
Defined.

Lemma div_eucl_div_mod a b : Z.div_eucl a b = (a / b, a mod b).
Proof. unfold Z.div, Z.modulo. now destruct (Z.div_eucl a b). Qed.

(** A number divided by itself is 1. *)
Lemma div_self m e :
  Zpos (digits2_pos m) = 53 ->
  Double.div (S754_finite false m e) (S754_finite false m e) = Double.one.
Proof.
  intro Hd. unfold Double.div, SFdiv, SFdiv_core_binary, Zdigits2.
  rewrite Hd.
  replace (53 + e - (53 + e)) with 0 by lia.
  replace (e - e) with 0 by lia.
  change (Z.min (fexp Double.prec Double.emax 0) 0) with (-53).
  change (0 - -53) with 53.
  cbv iota beta.
  rewrite Z.shiftl_mul_pow2 by lia.
  rewrite div_eucl_div_mod.
  rewrite (Z.mul_comm (Zpos m)), Z.div_mul, Z.mod_mul by discriminate.
  replace (new_location (Zpos m) 0) with loc_Exact.
  - vm_compute. reflexivity.
  - unfold new_location, new_location_even, new_location_odd.
    now destruct (Z.even (Zpos m)).
Qed.

(** 1 times a number is the number. *)
Lemma mul_one m e :
  Zpos (digits2_pos m) = 53 -> -1074 <= e <= 971 ->
  Double.mul Double.one (S754_finite false m e) = S754_finite false m e.
Proof.
  intros Hd He.
  change Double.one with (S754_finite false 4503599627370496 (-52)).
  unfold Double.mul, SFmul. cbn [xorb].
  change (Pos.mul 4503599627370496 m) with (shl m 52).
  rewrite binary_round_aux_shl;
    [f_equal | exact Hd |]; change (Z.of_nat 52) with 52; lia.
Qed.

Lemma normal_digits p :
  Zpos (digits2_pos p) <= 53 ->
  Zpos (digits2_pos (shl p (Z.to_nat (53 - Zpos (digits2_pos p))))) = 53.
Proof. intro H. rewrite digits_shl. lia. Qed.

(** [lround] gives back an integer held in a double. *)
Lemma lround_exact z : in_long z -> Double.lround (exact z) = z.
Proof.
  intro Hz.
  assert (G : forall s p, in_long (Zpos p) ->
              Double.lround (normal s p 0) = if s then Zneg p else Zpos p).
  { intros s p Hp. unfold normal, Double.lround.
    pose proof (digits_pos_bounds p) as [Hlo _].
    assert (Hd : Zpos (digits2_pos p) <= 32).
    { destruct (Z.le_gt_cases (Zpos (digits2_pos p)) 32) as [|Hgt]; [assumption|].
      assert (2 ^ 32 <= 2 ^ (Zpos (digits2_pos p) - 1))
        by (apply Z.pow_le_mono_r; lia).
      unfold in_long, LONG_MAX in Hp. change (2 ^ 32) with 4294967296 in *. lia. }
    set (d := Zpos (digits2_pos p)) in *.
    destruct (0 - (53 - d)) as [|k|k] eqn:Ek; try lia.
    assert (Hk : Zpos k = Z.of_nat (Z.to_nat (53 - d))) by lia.
    rewrite Zpos_shl, <- Hk.
    rewrite Z.shiftr_div_pow2, Z.div_mul by (try apply Z.pow_nonzero; lia).
    rewrite Z.mul_pow2_bits_low by lia.
    unfold in_long, LONG_MIN, LONG_MAX in *.
    destruct s.
    - change (- Zpos p) with (Zneg p).
      destruct (Z.leb_spec (-2147483648) (Zneg p)), (Z.leb_spec (Zneg p) 2147483647);
        cbn [andb]; (reflexivity || lia).
    - destruct (Z.leb_spec (-2147483648) (Zpos p)), (Z.leb_spec (Zpos p) 2147483647);
        cbn [andb]; (reflexivity || lia). }
  destruct z as [|p|p]; cbn [exact]; [reflexivity | now apply G |].
  unfold in_long, LONG_MIN, LONG_MAX in Hz.
  destruct (Pos.eq_dec p 2147483648) as [->|Hne]; [vm_compute; reflexivity|].
  apply G. unfold in_long, LONG_MIN, LONG_MAX. lia.
Qed.

Lemma exact_positive_normal z :
  0 < z -> small z ->
  exists m e, exact z = S754_finite false m e /\
              Zpos (digits2_pos m) = 53 /\ -1074 <= e <= 971.
Proof.
  intros Hz Hs. destruct z as [|p|p]; try lia. unfold small in Hs.
  pose proof (small_digits p ltac:(lia)) as Hd.
  cbn [exact]. unfold normal. do 2 eexists. split; [reflexivity|].
  split; [now apply normal_digits | lia].
Qed.

Lemma pct_at_start sS len :
  in_long sS -> 0 < len -> in_long len ->
  Double.clamp
    (Double.div (Double.sub (Double.of_long sS) (Double.of_long sS))
                (Double.of_long len))
    Double.zero Double.one = Double.zero.
Proof.
  intros Hs Hl Hr. rewrite sub_of_long, Z.sub_diag, of_long_long by assumption.
  destruct (exact_positive_normal len Hl (in_long_small _ Hr))
    as (m & e & -> & _). reflexivity.
Qed.

Lemma pct_at_end sS sE :
  in_long sS -> in_long sE -> 0 < sE - sS -> in_long (sE - sS) ->
  Double.clamp
    (Double.div (Double.sub (Double.of_long sE) (Double.of_long sS))
                (Double.of_long (sE - sS)))
    Double.zero Double.one = Double.one.
Proof.
  intros Hs He Hl Hr. rewrite sub_of_long, of_long_long by assumption.
  destruct (exact_positive_normal _ Hl (in_long_small _ Hr))
    as (m & e & -> & Hd & _).
  now rewrite div_self.
Qed.

Lemma lround_zero_times len :
  0 < len -> in_long len ->
  Double.lround (Double.mul Double.zero (Double.of_long len)) = 0.
Proof.
  intros Hl Hr. rewrite of_long_long by assumption.
  destruct (exact_positive_normal len Hl (in_long_small _ Hr))
    as (m & e & -> & _). reflexivity.
Qed.

Lemma lround_one_times len :
  0 < len -> in_long len ->
  Double.lround (Double.mul Double.one (Double.of_long len)) = len.
Proof.
  intros Hl Hr. rewrite of_long_long by assumption.
  destruct (exact_positive_normal len Hl (in_long_small _ Hr))
    as (m & e & E & Hd & He).
  rewrite E, mul_one, <- E by assumption. now apply lround_exact.
Qed.

(** X10.  The ends of the source extent go to the ends of the inset
    destination extent: a hit at the start of the source extent gives the
    coordinate [destStart + 1], a hit at its end gives [destEnd - 2], for a
    destination of at least three pixels along the axis. *)
Theorem RemapCursor_endpoints src dst e :
  e <> Edge_None ->
  in_long (axis_start e src) -> in_long (axis_end e src) ->
  in_long (axis_start e dst) -> in_long (axis_end e dst) ->
  in_long (axis_overlap e src dst) -> 0 < axis_overlap e src dst ->
  in_long (axis_length e src) -> 0 < axis_length e src ->
  in_long (axis_length e dst) -> 3 <= axis_length e dst ->
  exists p q,
    RemapCursor src dst e (Double.of_long (axis_start e src)) = Some p /\
    along_coordinate e p = axis_start e dst + 1 /\
    RemapCursor src dst e (Double.of_long (axis_end e src)) = Some q /\
    along_coordinate e q = axis_end e dst - 2.
Proof.
  unfold axis_overlap, axis_length, RemapCursor.
  intros Hn HsS HsE HdS HdE Ho Hop Hs Hsp Hd Hdp.
  assert (Hd0 : 0 < axis_end e dst - axis_start e dst) by lia.
  assert (C : forall dS dE : Z,
             in_long dS -> in_long dE -> in_long (dE - dS) -> 3 <= dE - dS ->
             clamp_long (long_add dS 0) (long_add dS 1) (long_sub dE 2) = dS + 1 /\
             clamp_long (long_add dS (dE - dS)) (long_add dS 1) (long_sub dE 2)
             = dE - 2).
  { intros dS dE H1 H2 H3 H4. unfold in_long, LONG_MIN, LONG_MAX in *.
    rewrite !long_add_exact, long_sub_exact
      by (unfold in_long, LONG_MIN, LONG_MAX; lia).
    unfold clamp_long. split; lia. }
  destruct e; try (exfalso; now apply Hn);
    cbn [axis_start axis_end along_coordinate] in *; cbn iota beta;
    rewrite (long_sub_exact _ _ Ho), (long_sub_exact _ _ Hs),
      (long_sub_exact _ _ Hd);
    apply Z.leb_gt in Hop; apply Z.leb_gt in Hsp; apply Z.leb_gt in Hd0;
    rewrite Hop, Hsp, Hd0; cbn [orb];
    apply Z.leb_gt in Hsp; apply Z.leb_gt in Hd0;
    rewrite pct_at_start, pct_at_end, lround_zero_times, lround_one_times
      by assumption;
    do 2 eexists; (split; [reflexivity|]); cbn [px py];
    (split; [now apply C|]); (split; [reflexivity|]); cbn [px py];
    now apply C.
Qed.

Lemma RemapCursor_endpoints_witness :
  exists p q,
    RemapCursor (mkRECT 0 0 1920 1080) (mkRECT 1920 0 2560 1440) Right
      (Double.of_long 0) = Some p /\
    py p = 1 /\
    RemapCursor (mkRECT 0 0 1920 1080) (mkRECT 1920 0 2560 1440) Right
      (Double.of_long 1080) = Some q /\
    py q = 1438.
Proof.
  apply (RemapCursor_endpoints (mkRECT 0 0 1920 1080)
           (mkRECT 1920 0 2560 1440) Right);
    try discriminate;
    unfold axis_overlap, axis_length, in_long, LONG_MIN, LONG_MAX; simpl; lia.
Defined.

(** ** The mouse hook: which events relocate the cursor *)

Lemma POINT_eqb_eq a b : POINT_eqb a b = true <-> a = b.
Proof.
  unfold POINT_eqb. rewrite andb_true_iff, !Z.eqb_eq.
  destruct a, b; cbn [px py]. split.
  - intros [-> ->]. reflexivity.
  - intros [= -> ->]. now split.
Qed.

Lemma handle_crossing_skipped env p curMon st :
  g_lastMonitor st = nullptr \/ curMon = g_lastMonitor st \/
  px (g_lastPos st) = LONG_MIN \/
  FindMonitor (g_monitors st) (g_lastMonitor st) = None \/
  FindMonitor (g_monitors st) curMon = None ->
  handle_crossing env p curMon st = Some (st, false).
Proof.
  unfold handle_crossing. intros [H | [H | [H | [H | H]]]].
  - rewrite H, Z.eqb_refl. reflexivity.
  - rewrite H, Z.eqb_refl. now rewrite andb_false_r.
  - rewrite H, Z.eqb_refl. now rewrite andb_false_r.
  - rewrite H. now destruct (_ && _).
  - rewrite H. destruct (_ && _); [|reflexivity].
    now destruct (FindMonitor (g_monitors st) (g_lastMonitor st)).
Qed.

Lemma MouseHookProc_tracks env ms st :
  Z.land (flags ms) LLMHF_INJECTED = 0 -> g_suppressing st = false ->
  MonitorFromPoint env (pt ms) = nullptr \/
  g_lastMonitor st = nullptr \/
  MonitorFromPoint env (pt ms) = g_lastMonitor st \/
  px (g_lastPos st) = LONG_MIN \/
  FindMonitor (g_monitors st) (g_lastMonitor st) = None \/
  FindMonitor (g_monitors st) (MonitorFromPoint env (pt ms)) = None ->
  MouseHookProc env HC_ACTION WM_MOUSEMOVE ms st
  = Some ((if MonitorFromPoint env (pt ms) =? nullptr then st
           else set_last (MonitorFromPoint env (pt ms)) (pt ms) st),
          CallNextHookEx HC_ACTION WM_MOUSEMOVE ms).
Proof.
  intros Hi Hs H. unfold MouseHookProc. rewrite Hi, Hs. cbn [andb negb Z.eqb].
  change (HC_ACTION =? HC_ACTION) with true.
  change (WM_MOUSEMOVE =? WM_MOUSEMOVE) with true. cbn [andb].
  unfold track_position. change (WM_MOUSEMOVE =? WM_MOUSEMOVE) with true.
  destruct (Z.eqb_spec (MonitorFromPoint env (pt ms)) nullptr) as [E|E];
    cbn [negb]; [reflexivity|].
  destruct H as [H | H]; [contradiction|].
  rewrite (handle_crossing_skipped env (pt ms) _ st H). reflexivity.
Qed.

(** X11.  A move event (not injected, flag clear) is handed on, and no
    relocation is tried whatever [SetCursorPos] would do, whenever no
    display holds the point, or the last monitor or the last position is
    unknown, or the point is still on the last monitor, or one of the two
    monitors is not in the held list.  The state is untouched when no
    display holds the point; otherwise the display and the point become the
    last monitor and the last position. *)
Theorem MouseHookProc_no_crossing env ms st :
  Z.land (flags ms) LLMHF_INJECTED = 0 -> g_suppressing st = false ->
  MonitorFromPoint env (pt ms) = nullptr \/
  g_lastMonitor st = nullptr \/
  MonitorFromPoint env (pt ms) = g_lastMonitor st \/
  px (g_lastPos st) = LONG_MIN \/
  FindMonitor (g_monitors st) (g_lastMonitor st) = None \/
  FindMonitor (g_monitors st) (MonitorFromPoint env (pt ms)) = None ->
  MouseHookProc env HC_ACTION WM_MOUSEMOVE ms st
  = Some ((if MonitorFromPoint env (pt ms) =? nullptr then st
           else set_last (MonitorFromPoint env (pt ms)) (pt ms) st),
          CallNextHookEx HC_ACTION WM_MOUSEMOVE ms).
Proof. apply MouseHookProc_tracks. Qed.

Lemma MouseHookProc_no_crossing_witness :
  MouseHookProc (reentrant_env example_MonitorFromPoint true)
    HC_ACTION WM_MOUSEMOVE (mkMSLLHOOKSTRUCT (mkPOINT 1900 500) 0) tracking_state
  = Some (set_last 1 (mkPOINT 1900 500) tracking_state,
          CallNextHookEx HC_ACTION WM_MOUSEMOVE
            (mkMSLLHOOKSTRUCT (mkPOINT 1900 500) 0)).
Proof.
  apply (MouseHookProc_no_crossing
           (reentrant_env example_MonitorFromPoint true)
           (mkMSLLHOOKSTRUCT (mkPOINT 1900 500) 0) tracking_state).
  - reflexivity.
  - reflexivity.
  - right. right. left. reflexivity.
Defined.

(** X12.  After a refresh that has found the topology changed, the next move
    event is never treated as a crossing: it is handed on, and tracking
    starts again from its point. *)
Theorem MouseHookProc_after_topology_change env displays st0 ms :
  topo_signature (EnumDisplayMonitors displays) <> g_topoSignature st0 ->
  Z.land (flags ms) LLMHF_INJECTED = 0 -> g_suppressing st0 = false ->
  MouseHookProc env HC_ACTION WM_MOUSEMOVE ms (RefreshMonitors displays st0)
  = Some ((if MonitorFromPoint env (pt ms) =? nullptr
           then RefreshMonitors displays st0
           else set_last (MonitorFromPoint env (pt ms)) (pt ms)
                  (RefreshMonitors displays st0)),
          CallNextHookEx HC_ACTION WM_MOUSEMOVE ms).
Proof.
  intros Hc Hi Hs. apply MouseHookProc_tracks; [exact Hi | |].
  - now rewrite RefreshMonitors_suppressing.
  - right. left. now rewrite RefreshMonitors_changed.
Qed.

Lemma MouseHookProc_after_topology_change_witness :
  MouseHookProc (reentrant_env example_MonitorFromPoint true)
    HC_ACTION WM_MOUSEMOVE (mkMSLLHOOKSTRUCT (mkPOINT 1920 540) 0)
    (RefreshMonitors
       [(1, Some (mkMONITORINFOEXW (mkRECT 0 0 1920 1080) 1 display1_name))]
       tracking_state)
  = Some (set_last 2 (mkPOINT 1920 540)
            (RefreshMonitors
               [(1, Some (mkMONITORINFOEXW (mkRECT 0 0 1920 1080) 1
                            display1_name))]
               tracking_state),
          CallNextHookEx HC_ACTION WM_MOUSEMOVE
            (mkMSLLHOOKSTRUCT (mkPOINT 1920 540) 0)).
Proof.
  apply (MouseHookProc_after_topology_change
           (reentrant_env example_MonitorFromPoint true)
           [(1, Some (mkMONITORINFOEXW (mkRECT 0 0 1920 1080) 1 display1_name))]
           tracking_state (mkMSLLHOOKSTRUCT (mkPOINT 1920 540) 0)).
  - vm_compute. discriminate.
  - reflexivity.
  - reflexivity.
Defined.

Lemma handle_crossing_total env p curMon st :
  exists st' b, handle_crossing env p curMon st = Some (st', b).
Proof.
  unfold handle_crossing.
  destruct (_ && _); [|eauto].
  destruct (FindMonitor (g_monitors st) (g_lastMonitor st)) as [src|]; [|eauto].
  destruct (FindMonitor (g_monitors st) curMon) as [dst|]; [|eauto].
  destruct (FindExitEdge_total (g_lastPos st) p (rc src)) as [hit ->].
  cbn [bind].
  destruct (negb (Edge_eqb (edge hit) Edge_None)); [|eauto].
  destruct (RemapCursor _ _ _ _) as [mapped|]; [|eauto].
  destruct (negb (POINT_eqb mapped p)); [|eauto].
  destruct (SetCursorPos env (px mapped) (py mapped) (set_suppressing true st))
    as [st2 [|]]; eauto.
Qed.

Lemma MouseHookProc_total env nCode wParam ms st :
  exists st' r, MouseHookProc env nCode wParam ms st = Some (st', r).
Proof.
  unfold MouseHookProc.
  destruct ((nCode =? HC_ACTION) && (wParam =? WM_MOUSEMOVE)); [|eauto].
  destruct (negb (Z.land (flags ms) LLMHF_INJECTED =? 0)); [eauto|].
  destruct (g_suppressing st); [eauto|].
  destruct (MonitorFromPoint env (pt ms) =? nullptr); [eauto|].
  destruct (handle_crossing_total env (pt ms) (MonitorFromPoint env (pt ms)) st)
    as (st' & b & ->).
  cbn [bind snd fst]. destruct b; eauto.
Qed.

(** X13.  An event that is handed on is handed on with the arguments
    received.  If it is a move event that is tracked (not injected, flag
    clear) and a display holds its point, that display and the point are the
    last monitor and the last position afterwards, also when a relocation was
    tried and failed, and the flag is clear; if no display holds the point
    the state is as before. *)
Theorem MouseHookProc_handed_on env nCode wParam ms st st' n w m :
  MouseHookProc env nCode wParam ms st = Some (st', CallNextHookEx n w m) ->
  n = nCode /\ w = wParam /\ m = ms /\
  (nCode = HC_ACTION -> wParam = WM_MOUSEMOVE ->
   Z.land (flags ms) LLMHF_INJECTED = 0 -> g_suppressing st = false ->
   if MonitorFromPoint env (pt ms) =? nullptr then st' = st
   else g_lastMonitor st' = MonitorFromPoint env (pt ms) /\
        g_lastPos st' = pt ms /\ g_suppressing st' = false).
Proof.
  unfold MouseHookProc.
  destruct ((nCode =? HC_ACTION) && (wParam =? WM_MOUSEMOVE)) eqn:Hm.
  2:{ intros [= <- <- <- <-]. do 3 (split; [reflexivity|]).
      intros -> -> _ _. discriminate Hm. }
  destruct (Z.eqb_spec (Z.land (flags ms) LLMHF_INJECTED) 0) as [Hi|Hi];
    cbn [negb].
  2:{ intros [= <- <- <- <-]. do 3 (split; [reflexivity|]).
      intros _ _ Hi'. contradiction. }
  destruct (g_suppressing st) eqn:Hs.
  { intros [= <- <- <- <-]. do 3 (split; [reflexivity|]).
    intros _ _ _ Hs'. discriminate Hs'. }
  apply andb_true_iff in Hm. destruct Hm as [_ Hw]. apply Z.eqb_eq in Hw.
  unfold track_position. rewrite Hw.
  change (WM_MOUSEMOVE =? WM_MOUSEMOVE) with true.
  destruct (Z.eqb_spec (MonitorFromPoint env (pt ms)) nullptr) as [E|E];
    cbn [negb].
  { intros [= <- <- <- <-]. do 3 (split; [reflexivity|]). reflexivity. }
  destruct (handle_crossing_suppressing env (pt ms)
              (MonitorFromPoint env (pt ms)) st Hs) as (st1 & b & -> & Hf).
  cbn [bind snd fst]. destruct b; [discriminate|].
  intros [= <- <- <- <-]. do 3 (split; [reflexivity|]).
  intros _ _ _ _. split; [reflexivity|]. split; [reflexivity | exact Hf].
Qed.

Lemma MouseHookProc_handed_on_witness :
  g_lastMonitor (set_last 1 (mkPOINT 1900 500) tracking_state) = 1 /\
  g_lastPos (set_last 1 (mkPOINT 1900 500) tracking_state) = mkPOINT 1900 500 /\
  g_suppressing (set_last 1 (mkPOINT 1900 500) tracking_state) = false.
Proof.
  destruct (MouseHookProc_handed_on
              (reentrant_env example_MonitorFromPoint true)
              HC_ACTION WM_MOUSEMOVE (mkMSLLHOOKSTRUCT (mkPOINT 1900 500) 0)
              tracking_state (set_last 1 (mkPOINT 1900 500) tracking_state)
              HC_ACTION WM_MOUSEMOVE (mkMSLLHOOKSTRUCT (mkPOINT 1900 500) 0))
    as (_ & _ & _ & H).
  - vm_compute. reflexivity.
  - apply H; reflexivity.
Defined.

Lemma handle_crossing_relocated env p curMon st st' :
  handle_crossing env p curMon st = Some (st', true) ->
  g_lastMonitor st <> nullptr /\ curMon <> g_lastMonitor st /\
  px (g_lastPos st) <> LONG_MIN /\
  exists src dst hit target,
    FindMonitor (g_monitors st) (g_lastMonitor st) = Some src /\
    FindMonitor (g_monitors st) curMon = Some dst /\
    FindExitEdge (g_lastPos st) p (rc src) = Some hit /\
    edge hit <> Edge_None /\
    RemapCursor (rc src) (rc dst) (edge hit) (coord hit) = Some target /\
    target <> p /\
    snd (SetCursorPos env (px target) (py target) (set_suppressing true st))
    = true /\
    st' = set_last (MonitorFromPoint env target) target
            (set_suppressing false
               (fst (SetCursorPos env (px target) (py target)
                       (set_suppressing true st)))).
Proof.
  unfold handle_crossing.
  destruct (Z.eqb_spec (g_lastMonitor st) nullptr) as [|H1]; cbn [negb andb];
    [discriminate|].
  destruct (Z.eqb_spec curMon (g_lastMonitor st)) as [|H2]; cbn [negb andb];
    [discriminate|].
  destruct (Z.eqb_spec (px (g_lastPos st)) LONG_MIN) as [|H3]; cbn [negb];
    [discriminate|].
  destruct (FindMonitor (g_monitors st) (g_lastMonitor st)) as [src|];
    [|discriminate].
  destruct (FindMonitor (g_monitors st) curMon) as [dst|]; [|discriminate].
  destruct (FindExitEdge (g_lastPos st) p (rc src)) as [hit|] eqn:Hf;
    [|discriminate].
  cbn [bind].
  destruct (Edge_eqb (edge hit) Edge_None) eqn:He; cbn [negb]; [discriminate|].
  destruct (RemapCursor (rc src) (rc dst) (edge hit) (coord hit))
    as [target|] eqn:Hr; [|discriminate].
  destruct (POINT_eqb target p) eqn:Hp; cbn [negb]; [discriminate|].
  destruct (SetCursorPos env (px target) (py target) (set_suppressing true st))
    as [st2 ok] eqn:Hc.
  destruct ok; [|discriminate]. intros [= <-].
  do 3 (split; [assumption|]).
  exists src, dst, hit, target.
  do 2 (split; [reflexivity|]). split; [exact Hf|].
  split; [intro E; rewrite E in He; discriminate|].
  split; [exact Hr|].
  split; [intro E; apply POINT_eqb_eq in E; congruence|].
  rewrite Hc. split; reflexivity.
Qed.

(** X14.  An event is swallowed only if it is a move event, not injected,
    received with the flag clear, the last monitor is known and is not the
    display holding the point, both are in the held list, [FindExitEdge]
    reports an edge, [RemapCursor] yields a point other than the event's,
    and [SetCursorPos] on that point has answered success.  The last
    position is then the point the cursor was sent to, and the last monitor
    is what [MonitorFromPoint] reports for that point, which need not be the
    display the event was on. *)
Theorem MouseHookProc_swallow env nCode wParam ms st st' :
  MouseHookProc env nCode wParam ms st = Some (st', Swallow) ->
  nCode = HC_ACTION /\ wParam = WM_MOUSEMOVE /\
  Z.land (flags ms) LLMHF_INJECTED = 0 /\ g_suppressing st = false /\
  g_lastMonitor st <> nullptr /\
  MonitorFromPoint env (pt ms) <> g_lastMonitor st /\
  exists src dst hit target,
    FindMonitor (g_monitors st) (g_lastMonitor st) = Some src /\
    FindMonitor (g_monitors st) (MonitorFromPoint env (pt ms)) = Some dst /\
    FindExitEdge (g_lastPos st) (pt ms) (rc src) = Some hit /\
    edge hit <> Edge_None /\
    RemapCursor (rc src) (rc dst) (edge hit) (coord hit) = Some target /\
    target <> pt ms /\
    snd (SetCursorPos env (px target) (py target) (set_suppressing true st))
    = true /\
    g_lastPos st' = target /\
    g_lastMonitor st' = MonitorFromPoint env target /\
    g_suppressing st' = false.
Proof.
  unfold MouseHookProc.
  destruct (Z.eqb_spec nCode HC_ACTION) as [Hn|]; cbn [andb]; [|discriminate].
  destruct (Z.eqb_spec wParam WM_MOUSEMOVE) as [Hw|]; [|discriminate].
  destruct (Z.eqb_spec (Z.land (flags ms) LLMHF_INJECTED) 0) as [Hi|];
    cbn [negb]; [|discriminate].
  destruct (g_suppressing st) eqn:Hs; [discriminate|].
  destruct (MonitorFromPoint env (pt ms) =? nullptr); [discriminate|].
  destruct (handle_crossing env (pt ms) (MonitorFromPoint env (pt ms)) st)
    as [[st1 b]|] eqn:Hh; cbn [bind snd fst]; [|discriminate].
  destruct b; [|discriminate]. intros [= <-].
  apply handle_crossing_relocated in Hh.
  destruct Hh as (H1 & H2 & _ & src & dst & hit & target
                  & F1 & F2 & F3 & F4 & F5 & F6 & F7 & ->).
  do 6 (split; [first [assumption | reflexivity]|]).
  exists src, dst, hit, target.
  do 7 (split; [assumption|]). split; [reflexivity|]. split; reflexivity.
Qed.

Lemma MouseHookProc_swallow_witness :
  g_lastPos (set_last 2 (mkPOINT 1921 720) tracking_state) = mkPOINT 1921 720.
Proof.
  destruct (MouseHookProc_swallow
              (reentrant_env example_MonitorFromPoint true)
              HC_ACTION WM_MOUSEMOVE (mkMSLLHOOKSTRUCT (mkPOINT 1920 540) 0)
              tracking_state (set_last 2 (mkPOINT 1921 720) tracking_state))
    as (_ & _ & _ & _ & _ & _ & src & dst & hit & target
        & F1 & F2 & F3 & _ & F5 & _ & _ & <- & _).
  - vm_compute. reflexivity.
  - reflexivity.
Defined.

(** ** The mouse hook: what it leaves alone *)

Lemma handle_crossing_keeps_topology env p curMon st st' b :
  (forall x0 y0 s,
     g_suppressing s = true ->
     g_monitors (fst (SetCursorPos env x0 y0 s)) = g_monitors s /\
     g_topoSignature (fst (SetCursorPos env x0 y0 s)) = g_topoSignature s) ->
  handle_crossing env p curMon st = Some (st', b) ->
  g_monitors st' = g_monitors st /\ g_topoSignature st' = g_topoSignature st.
Proof.
  intro HK. unfold handle_crossing.
  destruct (_ && _); [|now intros [= <- <-]].
  destruct (FindMonitor (g_monitors st) (g_lastMonitor st)) as [src|];
    [|now intros [= <- <-]].
  destruct (FindMonitor (g_monitors st) curMon) as [dst|];
    [|now intros [= <- <-]].
  destruct (FindExitEdge (g_lastPos st) p (rc src)) as [hit|]; [|discriminate].
  cbn [bind].
  destruct (negb (Edge_eqb (edge hit) Edge_None)); [|now intros [= <- <-]].
  destruct (RemapCursor _ _ _ _) as [target|]; [|now intros [= <- <-]].
  destruct (negb (POINT_eqb target p)); [|now intros [= <- <-]].
  pose proof (HK (px target) (py target) (set_suppressing true st) eq_refl)
    as [K1 K2].
  destruct (SetCursorPos env (px target) (py target) (set_suppressing true st))
    as [st2 ok].
  cbn [fst] in K1, K2. destruct ok; intros [= <- <-]; now split.
Qed.

Lemma MouseHookProc_frame env nCode wParam ms st st' r :
  (forall x0 y0 s,
     g_suppressing s = true ->
     g_monitors (fst (SetCursorPos env x0 y0 s)) = g_monitors s /\
     g_topoSignature (fst (SetCursorPos env x0 y0 s)) = g_topoSignature s) ->
  MouseHookProc env nCode wParam ms st = Some (st', r) ->
  g_monitors st' = g_monitors st /\ g_topoSignature st' = g_topoSignature st.
Proof.
  intro HK. unfold MouseHookProc.
  assert (T : forall s, g_monitors (track_position env wParam ms s) = g_monitors s /\
                        g_topoSignature (track_position env wParam ms s)
                        = g_topoSignature s).
  { intro s. unfold track_position. destruct (wParam =? WM_MOUSEMOVE);
      [|now split]. destruct (negb _); now split. }
  destruct ((nCode =? HC_ACTION) && (wParam =? WM_MOUSEMOVE));
    [|now intros [= <- <-]].
  destruct (negb (Z.land (flags ms) LLMHF_INJECTED =? 0));
    [now intros [= <- <-]|].
  destruct (g_suppressing st); [now intros [= <- <-]|].
  destruct (MonitorFromPoint env (pt ms) =? nullptr).
  - intros [= <- <-]. apply T.
  - destruct (handle_crossing env (pt ms) (MonitorFromPoint env (pt ms)) st)
      as [[st1 b]|] eqn:Hh; cbn [bind snd fst]; [|discriminate].
    destruct (handle_crossing_keeps_topology _ _ _ _ _ _ HK Hh) as [K1 K2].
    destruct b; intros [= <- <-].
    + now split.
    + destruct (T st1) as [T1 T2]. rewrite T1, T2. now split.
Qed.

(** X15.  The hook procedure never changes the held monitor list or the
    held signature, as long as the relocation call, which runs with the flag
    set, leaves them alone: only the last monitor, the last position and the
    flag are its to write. *)
Theorem MouseHookProc_keeps_topology env nCode wParam ms st st' r :
  (forall x0 y0 s,
     g_suppressing s = true ->
     g_monitors (fst (SetCursorPos env x0 y0 s)) = g_monitors s /\
     g_topoSignature (fst (SetCursorPos env x0 y0 s)) = g_topoSignature s) ->
  MouseHookProc env nCode wParam ms st = Some (st', r) ->
  g_monitors st' = g_monitors st /\ g_topoSignature st' = g_topoSignature st.
Proof. apply MouseHookProc_frame. Qed.

Lemma reentrant_env_keeps_state mfp ok :
  relocation_keeps_state (reentrant_env mfp ok).
Proof.
  intros x0 y0 s Hs. cbn [reentrant_env SetCursorPos].
  unfold reentrant_SetCursorPos.
  now rewrite MouseHookProc_suppressed by exact Hs.
Qed.

Lemma MouseHookProc_keeps_topology_witness :
  g_monitors (set_last 2 (mkPOINT 1921 720) tracking_state)
  = g_monitors tracking_state /\
  g_topoSignature (set_last 2 (mkPOINT 1921 720) tracking_state)
  = g_topoSignature tracking_state.
Proof.
  apply (MouseHookProc_keeps_topology
           (reentrant_env example_MonitorFromPoint true)
           HC_ACTION WM_MOUSEMOVE (mkMSLLHOOKSTRUCT (mkPOINT 1920 540) 0)
           tracking_state (set_last 2 (mkPOINT 1921 720) tracking_state)
           Swallow).
  - intros x0 y0 s Hs.
    now rewrite (reentrant_env_keeps_state example_MonitorFromPoint true x0 y0 s Hs).
  - vm_compute. reflexivity.
Defined.

Lemma MouseHookProc_flag_clear env nCode wParam ms st st' r :
  g_suppressing st = false ->
  MouseHookProc env nCode wParam ms st = Some (st', r) ->
  g_suppressing st' = false.
Proof.
  intro Hs. unfold MouseHookProc.
  destruct ((nCode =? HC_ACTION) && (wParam =? WM_MOUSEMOVE));
    [|now intros [= <- <-]].
  destruct (negb (Z.land (flags ms) LLMHF_INJECTED =? 0));
    [now intros [= <- <-]|].
  rewrite Hs.
  destruct (MonitorFromPoint env (pt ms) =? nullptr).
  - intros [= <- <-]. now rewrite track_position_suppressing.
  - destruct (handle_crossing_suppressing env (pt ms)
                (MonitorFromPoint env (pt ms)) st Hs) as (st1 & b & -> & Hf).
    cbn [bind snd fst]. destruct b; intros [= <- <-]; [exact Hf|].
    now rewrite track_position_suppressing.
Qed.

(** ** The message loop and [main] *)

Lemma WndProc_state displays msg wParam st :
  fst (WndProc displays msg wParam st) = st \/
  fst (WndProc displays msg wParam st) = RefreshMonitors displays st.
Proof.
  unfold WndProc.
  destruct ((msg =? WM_DISPLAYCHANGE) || (msg =? WM_SETTINGCHANGE));
    [now right|].
  destruct (msg =? WM_TIMER).
  - destruct (wParam =? TIMER_TOPO_CHECK); [now right | now left].
  - destruct (msg =? WM_CLOSE); now left.
Qed.

Lemma dispatch_invariant env st i :
  relocation_keeps_state env ->
  topology_consistent st -> g_suppressing st = false ->
  exists st',
    dispatch env st i = Some st' /\
    topology_consistent st' /\ g_suppressing st' = false.
Proof.
  intros HK [Hsig Hsort] Hs. destruct i as [nCode wParam ms | displays msg wParam];
    cbn [dispatch].
  - destruct (MouseHookProc_total env nCode wParam ms st) as (st' & r & E).
    rewrite E. cbn [bind fst]. exists st'. split; [reflexivity|].
    destruct (MouseHookProc_frame env nCode wParam ms st st' r) as [K1 K2];
      [|exact E|].
    + intros x0 y0 s Hf. now rewrite (HK x0 y0 s Hf).
    + split; [|now apply (MouseHookProc_flag_clear _ _ _ _ _ _ _ Hs E)].
      unfold topology_consistent. now rewrite K1, K2.
  - eexists. split; [reflexivity|].
    destruct (WndProc_state displays msg wParam st) as [-> | ->].
    + now split.
    + split; [now apply RefreshMonitors_consistent|].
      now rewrite RefreshMonitors_suppressing.
Qed.

(** X16.  Through every sequence of hook calls and window messages the
    program runs to the end of the sequence, and what holds at the start
    holds at the end: the held signature is the concatenation of the
    entries of the held monitor list in the order it is held in, the list is
    in sorted order, and the suppression flag is clear; this for a system
    whose relocation call comes back with the globals as it found them. *)
Theorem message_loop_invariant env inputs st :
  relocation_keeps_state env ->
  topology_consistent st -> g_suppressing st = false ->
  exists st',
    message_loop env inputs st = Some st' /\
    topology_consistent st' /\ g_suppressing st' = false.
Proof.
  intro HK. revert st. induction inputs as [|i rest IH]; intros st Hc Hs;
    cbn [message_loop].
  - exists st. now split.
  - destruct (dispatch_invariant env st i HK Hc Hs) as (st1 & -> & Hc1 & Hs1).
    cbn [bind]. now apply IH.
Qed.

Lemma initial_state_consistent : topology_consistent initial_state.
Proof. split; [reflexivity | constructor]. Qed.

Lemma message_loop_invariant_witness :
  exists st',
    message_loop (reentrant_env example_MonitorFromPoint true)
      [WindowMessage example_displays WM_DISPLAYCHANGE 0;
       HookCall HC_ACTION WM_MOUSEMOVE (mkMSLLHOOKSTRUCT (mkPOINT 1919 540) 0);
       HookCall HC_ACTION WM_MOUSEMOVE (mkMSLLHOOKSTRUCT (mkPOINT 1920 540) 0);
       WindowMessage example_displays WM_TIMER TIMER_TOPO_CHECK]
      initial_state = Some st' /\
    topology_consistent st' /\ g_suppressing st' = false.
Proof.
  apply message_loop_invariant.
  - apply reentrant_env_keeps_state.
  - apply initial_state_consistent.
  - reflexivity.
Defined.

Lemma message_loop_total env inputs st :
  exists st', message_loop env inputs st = Some st'.
Proof.
  revert st. induction inputs as [|i rest IH]; intro st; cbn [message_loop];
    [eauto|].
  destruct i as [nCode wParam ms | displays msg wParam]; cbn [dispatch].
  - destruct (MouseHookProc_total env nCode wParam ms st) as (st' & r & ->).
    cbn [bind fst]. apply IH.
  - cbn [bind]. apply IH.
Qed.

Lemma first_refresh_monitors displays :
  g_monitors (RefreshMonitors displays initial_state) = [] <->
  EnumDisplayMonitors displays = [].
Proof.
  split.
  - intro H.
    destruct (EnumDisplayMonitors displays) as [|m rest] eqn:E; [reflexivity|].
    exfalso.
    assert (N : topo_signature (EnumDisplayMonitors displays)
                <> g_topoSignature initial_state).
    { rewrite E. now apply topo_signature_nonempty. }
    rewrite (RefreshMonitors_changed _ _ N) in H. cbn [g_monitors] in H.
    destruct (BuildTopoSignature_output (EnumDisplayMonitors displays))
      as (P & _). rewrite H, E in P.
    now apply Permutation_nil in P.
  - intro E. rewrite RefreshMonitors_empty by exact E. reflexivity.
Qed.

(** X17.  When the first enumeration yields no monitor record, [main]
    returns 1 right after the refresh: no window class is registered, no
    window or timer created and no hook installed.  Whenever [main] reaches
    the installation of the hook, the held monitor list is not empty. *)
Theorem main_needs_a_monitor env os displays inputs :
  (EnumDisplayMonitors displays = [] ->
   main env os displays inputs
   = Some ([SetProcessDpiAwarenessContext; SetConsoleCtrlHandler],
           initial_state, 1)) /\
  (forall calls st code,
     main env os displays inputs = Some (calls, st, code) ->
     In SetWindowsHookExW calls ->
     EnumDisplayMonitors displays <> [] /\
     g_monitors (RefreshMonitors displays initial_state) <> []).
Proof.
  split.
  - intro E. unfold main. rewrite RefreshMonitors_empty by exact E. reflexivity.
  - intros calls st code. unfold main.
    destruct (g_monitors (RefreshMonitors displays initial_state))
      as [|m rest] eqn:Em.
    + intros [= <- _ _] Hin. cbn in Hin. intuition discriminate.
    + intros _ _. split; [|discriminate].
      intro E. apply first_refresh_monitors in E. congruence.
Qed.

Lemma main_needs_a_monitor_witness :
  main (reentrant_env example_MonitorFromPoint true)
    (mkStartup true true true true) [(1, None)] []
  = Some ([SetProcessDpiAwarenessContext; SetConsoleCtrlHandler],
          initial_state, 1).
Proof.
  apply (main_needs_a_monitor (reentrant_env example_MonitorFromPoint true)
           (mkStartup true true true true) [(1, None)] []).
  reflexivity.
Defined.

Lemma main_outcome env os displays inputs :
  exists calls st code,
    main env os displays inputs = Some (calls, st, code) /\
    (code = 0 \/ code = 1) /\
    (code = 0 <->
     EnumDisplayMonitors displays <> [] /\ RegisterClassW_ok os = true /\
     CreateWindowExW_ok os = true /\ SetTimer_ok os = true /\
     SetWindowsHookExW_ok os = true) /\
    (In UnhookWindowsHookEx calls <-> code = 0) /\
    (In KillTimer calls <-> code = 0) /\
    (In DestroyWindow calls <->
     EnumDisplayMonitors displays <> [] /\ RegisterClassW_ok os = true /\
     CreateWindowExW_ok os = true) /\
    (In DestroyWindow calls -> last calls SetConsoleCtrlHandler = DestroyWindow).
Proof.
  unfold main.
  destruct (g_monitors (RefreshMonitors displays initial_state))
    as [|m rest] eqn:Em.
  { assert (E : EnumDisplayMonitors displays = [])
      by now apply first_refresh_monitors.
    do 3 eexists. split; [reflexivity|]. cbn [In].
    repeat split; intros; try congruence; try tauto; intuition congruence. }
  assert (E : EnumDisplayMonitors displays <> []).
  { intro E. apply first_refresh_monitors in E. congruence. }
  destruct (message_loop_total env inputs (RefreshMonitors displays initial_state))
    as (st' & L).
  destruct os as [[|] [|] [|] [|]]; cbn [negb RegisterClassW_ok CreateWindowExW_ok
    SetTimer_ok SetWindowsHookExW_ok app]; rewrite ?L; cbn [bind];
    do 3 eexists; (split; [reflexivity|]); simpl app; simpl In; simpl last;
    repeat split; intros; try congruence; try tauto; intuition congruence.
Qed.

(** A start-up that fails ends [main] before the message loop. *)
Lemma main_failed_startup env os displays inputs :
  EnumDisplayMonitors displays = [] \/ RegisterClassW_ok os = false \/
  CreateWindowExW_ok os = false \/ SetTimer_ok os = false \/
  SetWindowsHookExW_ok os = false ->
  exists calls,
    main env os displays inputs
    = Some (calls, RefreshMonitors displays initial_state, 1) /\
    main env os displays [] = main env os displays inputs.
Proof.
  intro H. unfold main.
  destruct (g_monitors (RefreshMonitors displays initial_state))
    as [|m rest] eqn:Em; [eexists; split; reflexivity|].
  assert (E : EnumDisplayMonitors displays <> []).
  { intro E. apply first_refresh_monitors in E. congruence. }
  destruct os as [[|] [|] [|] [|]];
    cbn [negb RegisterClassW_ok CreateWindowExW_ok SetTimer_ok
         SetWindowsHookExW_ok] in *;
    try (eexists; split; reflexivity).
  exfalso. intuition congruence.
Qed.

(** X18.  Whenever [main] returns, it returns 0 or 1; that the message loop
    ends is not claimed.  [main] returns 0 exactly when a monitor was found
    and the window class, the window, the timer and the hook were all set
    up, and exactly then it has removed the hook and killed the timer.  Once
    the window has been created, [DestroyWindow] is the last call on every
    path; it is never called without a created window.  When no monitor is
    found or one of the four start-up calls fails, [main] does return, with
    1 and the globals of the first refresh, without entering the message
    loop: the outcome is the same whatever would reach the program. *)
Theorem main_releases_what_it_acquired env os displays inputs :
  (forall calls st code,
     main env os displays inputs = Some (calls, st, code) ->
     (code = 0 \/ code = 1) /\
     (code = 0 <->
      EnumDisplayMonitors displays <> [] /\ RegisterClassW_ok os = true /\
      CreateWindowExW_ok os = true /\ SetTimer_ok os = true /\
      SetWindowsHookExW_ok os = true) /\
     (In UnhookWindowsHookEx calls <-> code = 0) /\
     (In KillTimer calls <-> code = 0) /\
     (In DestroyWindow calls <->
      EnumDisplayMonitors displays <> [] /\ RegisterClassW_ok os = true /\
      CreateWindowExW_ok os = true) /\
     (In DestroyWindow calls ->
      last calls SetConsoleCtrlHandler = DestroyWindow)) /\
  (EnumDisplayMonitors displays = [] \/ RegisterClassW_ok os = false \/
   CreateWindowExW_ok os = false \/ SetTimer_ok os = false \/
   SetWindowsHookExW_ok os = false ->
   exists calls,
     main env os displays inputs
     = Some (calls, RefreshMonitors displays initial_state, 1) /\
     main env os displays [] = main env os displays inputs).
Proof.
  split; [|apply main_failed_startup].
  intros calls st code H.
  destruct (main_outcome env os displays inputs)
    as (calls' & st' & code' & H' & P).
  rewrite H in H'. injection H' as <- <- <-. exact P.
Qed.

Lemma main_releases_what_it_acquired_witness :
  last [SetProcessDpiAwarenessContext; SetConsoleCtrlHandler; RegisterClassW;
        CreateWindowExW; SetTimer; SetWindowsHookExW; UnhookWindowsHookEx;
        KillTimer; DestroyWindow] SetConsoleCtrlHandler = DestroyWindow /\
  exists calls,
    main (reentrant_env example_MonitorFromPoint true)
      (mkStartup true true false true) example_displays
      [WindowMessage example_displays WM_CLOSE 0]
    = Some (calls, RefreshMonitors example_displays initial_state, 1).
Proof.
  split.
  - destruct (main_releases_what_it_acquired
                (reentrant_env example_MonitorFromPoint true)
                (mkStartup true true true true) example_displays
                [HookCall HC_ACTION WM_MOUSEMOVE
                   (mkMSLLHOOKSTRUCT (mkPOINT 1919 540) 0);
                 WindowMessage example_displays WM_CLOSE 0])
      as [H _].
    destruct (H [SetProcessDpiAwarenessContext; SetConsoleCtrlHandler;
                 RegisterClassW; CreateWindowExW; SetTimer; SetWindowsHookExW;
                 UnhookWindowsHookEx; KillTimer; DestroyWindow]
                tracking_state 0)
      as (_ & _ & _ & _ & _ & L).
    + vm_compute. reflexivity.
    + apply L. simpl. tauto.
  - destruct (main_releases_what_it_acquired
                (reentrant_env example_MonitorFromPoint true)
                (mkStartup true true false true) example_displays
                [WindowMessage example_displays WM_CLOSE 0])
      as [_ H].
    destruct H as (calls & E & _).
    + right. right. right. left. reflexivity.
    + exists calls. exact E.
Defined.

(** ** The comparison given to [std::sort] *)

Lemma same_sort_key_tie a b :
  same_sort_key a b -> monitor_less a b = false /\ monitor_less b a = false.
Proof.
  unfold same_sort_key, monitor_less. intros (Hd & Hl & Ht).
  apply wmemcmp_zero in Hd.
  rewrite (wmemcmp_antisym (device a) (device b)).
  revert Hd. generalize (wmemcmp (device a) (device b) CCHDEVICENAME).
  intros c ->. rewrite Hl, Ht. change (- 0) with 0.
  rewrite !Z.eqb_refl. cbn [negb].
  split; apply Z.ltb_irrefl.
Qed.

(** X19.  The comparison [BuildTopoSignature] hands to [std::sort] is a
    strict weak ordering, as the library requires: no record sorts before
    itself, the comparison is transitive, and two records are unordered
    exactly when they share device name, left and top, which is an
    equivalence. *)
Theorem monitor_less_strict_weak_order :
  (forall a, monitor_less a a = false) /\
  (forall a b c,
     monitor_less a b = true -> monitor_less b c = true ->
     monitor_less a c = true) /\
  (forall a b,
     (monitor_less a b = false /\ monitor_less b a = false) <->
     same_sort_key a b) /\
  (forall a b c, same_sort_key a b -> same_sort_key b c -> same_sort_key a c).
Proof.
  split; [exact monitor_less_irrefl|]. split; [exact monitor_less_trans|].
  split.
  - intros a b. split.
    + intros [H1 H2]. now apply monitor_less_tie.
    + apply same_sort_key_tie.
  - unfold same_sort_key. intros a b c (D1 & L1 & T1) (D2 & L2 & T2).
    split; [exact (eq_trans D1 D2)|]. split; [exact (eq_trans L1 L2)|].
    exact (eq_trans T1 T2).
Qed.

(** ** Where a relocation goes *)

Lemma RemapCursor_inset src dst e hit p :
  long_rect dst ->
  3 <= rc_right dst - rc_left dst -> 3 <= rc_bottom dst - rc_top dst ->
  RemapCursor src dst e hit = Some p -> inset_inside p dst.
Proof.
  intros (Hl & Ht & Hr & Hb) Hw Hh.
  unfold in_long, LONG_MIN, LONG_MAX in *.
  assert (Lx : long_add (rc_left dst) 1 = rc_left dst + 1)
    by (apply long_add_exact; unfold in_long, LONG_MIN, LONG_MAX; lia).
  assert (Ly : long_add (rc_top dst) 1 = rc_top dst + 1)
    by (apply long_add_exact; unfold in_long, LONG_MIN, LONG_MAX; lia).
  assert (Rx : long_sub (rc_right dst) 2 = rc_right dst - 2)
    by (apply long_sub_exact; unfold in_long, LONG_MIN, LONG_MAX; lia).
  assert (Ry : long_sub (rc_bottom dst) 2 = rc_bottom dst - 2)
    by (apply long_sub_exact; unfold in_long, LONG_MIN, LONG_MAX; lia).
  unfold RemapCursor, inset_inside.
  destruct e;
    match goal with |- context [if ?b then None else _] => destruct b end;
    try discriminate; intro H; injection H as <-; cbn [px py];
    rewrite ?Lx, ?Ly, ?Rx, ?Ry.
  all: match goal with
       | |- context [clamp_long ?v ?lo ?hi] =>
           pose proof (clamp_long_bounds v lo hi ltac:(lia))
       end; lia.
Qed.

(** X20.  When an event is swallowed, the point the cursor was sent to, now
    the last position, lies within the rectangle of the held record of the
    display the event was on, at least one pixel from its first and from its
    last pixel on both axes, provided that rectangle has LONG coordinates and
    is at least three pixels wide and high. *)
Theorem MouseHookProc_relocates_inside env nCode wParam ms st st' dst :
  MouseHookProc env nCode wParam ms st = Some (st', Swallow) ->
  FindMonitor (g_monitors st) (MonitorFromPoint env (pt ms)) = Some dst ->
  long_rect (rc dst) ->
  3 <= rc_right (rc dst) - rc_left (rc dst) ->
  3 <= rc_bottom (rc dst) - rc_top (rc dst) ->
  inset_inside (g_lastPos st') (rc dst) /\ g_lastPos st' <> pt ms.
Proof.
  intros Hm Hf Hl Hw Hh. unfold MouseHookProc in Hm.
  destruct ((nCode =? HC_ACTION) && (wParam =? WM_MOUSEMOVE));
    [|discriminate].
  destruct (negb (Z.land (flags ms) LLMHF_INJECTED =? 0)); [discriminate|].
  destruct (g_suppressing st); [discriminate|].
  destruct (MonitorFromPoint env (pt ms) =? nullptr); [discriminate|].
  destruct (handle_crossing env (pt ms) (MonitorFromPoint env (pt ms)) st)
    as [[st1 b]|] eqn:Hc; cbn [bind snd fst] in Hm; [|discriminate].
  destruct b; [|discriminate]. injection Hm as <-.
  apply handle_crossing_relocated in Hc.
  destruct Hc as (_ & _ & _ & src & dst' & hit & target
                  & _ & F2 & _ & _ & F5 & F6 & _ & ->).
  rewrite Hf in F2. injection F2 as <-. cbn [set_last g_lastPos].
  split; [|exact F6]. now apply (RemapCursor_inset (rc src) _ (edge hit) (coord hit)).
Qed.

Lemma MouseHookProc_relocates_inside_witness :
  inset_inside (g_lastPos (set_last 2 (mkPOINT 1921 720) tracking_state))
    (mkRECT 1920 0 2560 1440).
Proof.
  apply (MouseHookProc_relocates_inside
           (reentrant_env example_MonitorFromPoint true)
           HC_ACTION WM_MOUSEMOVE (mkMSLLHOOKSTRUCT (mkPOINT 1920 540) 0)
           tracking_state (set_last 2 (mkPOINT 1921 720) tracking_state)
           (mkMonitorInfo 2 (mkRECT 1920 0 2560 1440) false display2_name)).
  - vm_compute. reflexivity.
  - vm_compute. reflexivity.
  - unfold long_rect, in_long, LONG_MIN, LONG_MAX; simpl; lia.
  - simpl; lia.
  - simpl; lia.
Defined.

(** ** [FindExitEdge]: straight moves *)

Lemma digits_from_bounds p k :
  2 ^ (k - 1) <= Zpos p < 2 ^ k -> Zpos (digits2_pos p) = k.
Proof.
  intros [Hlo Hhi]. destruct (digits_pos_bounds p) as [Dlo Dhi].
  set (d := Zpos (digits2_pos p)) in *.
  assert (0 < d) by (unfold d; lia).
  destruct (Z.lt_trichotomy d k) as [Hlt | [Heq | Hgt]]; [|exact Heq|].
  - assert (2 ^ d <= 2 ^ (k - 1)) by (apply Z.pow_le_mono_r; lia). lia.
  - assert (2 ^ k <= 2 ^ (d - 1)).
    { destruct (Z.le_gt_cases 0 k).
      - apply Z.pow_le_mono_r; lia.
      - rewrite (Z.pow_neg_r 2 k) in Hhi by lia. lia. }
    lia.
Qed.

Lemma round_nearest_even_cases m l :
  round_nearest_even m l = m \/ round_nearest_even m l = m + 1.
Proof.
  destruct l as [|[| |]]; cbn [round_nearest_even]; auto.
  destruct (Z.even m); auto.
Qed.

(** The second normalisation of [binary_round_aux]: a mantissa of 53 bits
    stays, and 2^53, reached by rounding up, becomes 2^52 one exponent
    higher. *)
Lemma round_carry s q e (mr : Z) :
  Zpos (digits2_pos q) = 53 -> -1074 <= e <= 970 ->
  mr = Zpos q \/ mr = Zpos q + 1 ->
  exists m e',
    (let '(mrs, e2) := shr_fexp Double.prec Double.emax mr e loc_Exact in
     match shr_m mrs with
     | Z0 => S754_zero s
     | Zpos m => if e2 <=? Double.emax - Double.prec
                 then S754_finite s m e2 else S754_infinity s
     | Zneg _ => S754_nan
     end) = S754_finite s m e' /\
    (e' = e \/ (e' = e + 1 /\ m = 4503599627370496%positive)).
Proof.
  intros Hd He Hm.
  assert (Hq : 2 ^ 52 <= Zpos q < 2 ^ 53).
  { pose proof (digits_pos_bounds q) as B. rewrite Hd in B. exact B. }
  assert (Keep : forall p, Zpos (digits2_pos p) = 53 -> mr = Zpos p ->
            exists m e',
    (let '(mrs, e2) := shr_fexp Double.prec Double.emax mr e loc_Exact in
     match shr_m mrs with
     | Z0 => S754_zero s
     | Zpos m => if e2 <=? Double.emax - Double.prec
                 then S754_finite s m e2 else S754_infinity s
     | Zneg _ => S754_nan
     end) = S754_finite s m e' /\
    (e' = e \/ (e' = e + 1 /\ m = 4503599627370496%positive))).
  { intros p Hp ->. exists p, e.
    change (Zpos p) with (Zpos (shl p 0)).
    rewrite shr_fexp_shl by (trivial; simpl; lia).
    cbn [shr_m Z.of_nat]. rewrite Z.add_0_r.
    destruct (Z.leb_spec e (Double.emax - Double.prec)) as [_|Hbad];
      [split; [reflexivity | left; reflexivity]|].
    unfold Double.emax, Double.prec in Hbad. lia. }
  destruct Hm as [-> | ->]; [now apply (Keep q)|].
  destruct (Z.eq_dec (Zpos q + 1) (2 ^ 53)) as [Htop | Hlow].
  - exists 4503599627370496%positive, (e + 1).
    rewrite Htop. change (2 ^ 53) with (Zpos (shl 4503599627370496 1)).
    rewrite shr_fexp_shl by (trivial; simpl; lia).
    change (Z.of_nat 1) with 1. cbn [shr_m].
    destruct (Z.leb_spec (e + 1) (Double.emax - Double.prec)) as [_|Hbad];
      [split; [reflexivity | right; split; reflexivity]|].
    unfold Double.emax, Double.prec in Hbad. lia.
  - apply (Keep (q + 1)%positive); [|lia].
    apply digits_from_bounds. change (53 - 1) with 52. lia.
Qed.

(** Rounding a mantissa of 53 or 54 bits: the exponent goes up by the one
    bit dropped, and by one more only when the mantissa becomes 2^52. *)
Lemma binary_round_aux_long s q e l :
  53 <= Zpos (digits2_pos q) <= 54 -> -1074 <= e <= 969 ->
  exists m e',
    binary_round_aux Double.prec Double.emax s (Zpos q) e l = S754_finite s m e' /\
    (e' = e + (Zpos (digits2_pos q) - 53) \/
     (e' = e + (Zpos (digits2_pos q) - 53) + 1 /\ m = 4503599627370496%positive)).
Proof.
  intros Hd He. unfold binary_round_aux.
  destruct (Z.eq_dec (Zpos (digits2_pos q)) 53) as [H53 | H54].
  - unfold shr_fexp at 1, Zdigits2. rewrite H53.
    replace (fexp Double.prec Double.emax (53 + e) - e) with 0
      by (unfold fexp, emin, Double.prec, Double.emax; lia).
    cbn [shr].
    assert (Hm : shr_m (shr_record_of_loc (Zpos q) l) = Zpos q)
      by (destruct l as [|[| |]]; reflexivity).
    rewrite Hm.
    destruct (round_carry s q e
                (round_nearest_even (Zpos q)
                   (loc_of_shr_record (shr_record_of_loc (Zpos q) l))))
      as (m & e' & E & C);
      [exact H53 | lia | apply round_nearest_even_cases |].
    exists m, e'. split; [exact E|]. lia.
  - assert (E54 : Zpos (digits2_pos q) = 54) by lia.
    unfold shr_fexp at 1, Zdigits2. rewrite E54.
    replace (fexp Double.prec Double.emax (54 + e) - e) with 1
      by (unfold fexp, emin, Double.prec, Double.emax; lia).
    cbn [shr iter_pos].
    assert (Hs : exists p r0 s0,
               Zpos (digits2_pos p) = 53 /\
               shr_1 (shr_record_of_loc (Zpos q) l)
               = Build_shr_record (Zpos p) r0 s0).
    { destruct q as [p|p|]; simpl digits2_pos in E54.
      - exists p. destruct l as [|[| |]]; do 2 eexists; (split; [lia | reflexivity]).
      - exists p. destruct l as [|[| |]]; do 2 eexists; (split; [lia | reflexivity]).
      - discriminate. }
    destruct Hs as (p & r0 & s0 & Hp & ->). cbn [shr_m].
    destruct (round_carry s p (e + 1)
                (round_nearest_even (Zpos p)
                   (loc_of_shr_record (Build_shr_record (Zpos p) r0 s0))))
      as (m & e' & E & C);
      [exact Hp | lia | apply round_nearest_even_cases |].
    exists m, e'. split; [exact E|]. lia.
Qed.

Lemma digits_le a b :
  Zpos a <= Zpos b -> Zpos (digits2_pos a) <= Zpos (digits2_pos b).
Proof.
  intro H. destruct (digits_pos_bounds a) as [Alo _].
  destruct (digits_pos_bounds b) as [_ Bhi].
  destruct (Z.le_gt_cases (Zpos (digits2_pos a)) (Zpos (digits2_pos b)))
    as [|Hgt]; [assumption|].
  assert (2 ^ Zpos (digits2_pos b) <= 2 ^ (Zpos (digits2_pos a) - 1))
    by (apply Z.pow_le_mono_r; lia).
  lia.
Qed.

(** The division of two numbers with 53-bit mantissas: the quotient of the
    mantissas is taken to 53 or 54 bits and rounded. *)
Lemma div_normalised s1 s2 m1 e1 m2 e2 :
  Zpos (digits2_pos m1) = 53 -> Zpos (digits2_pos m2) = 53 ->
  -1021 <= e1 - e2 ->
  Double.div (S754_finite s1 m1 e1) (S754_finite s2 m2 e2)
  = binary_round_aux Double.prec Double.emax (xorb s1 s2)
      (Zpos m1 * 2 ^ 53 / Zpos m2) (e1 - e2 - 53)
      (new_location (Zpos m2) ((Zpos m1 * 2 ^ 53) mod Zpos m2)).
Proof.
  intros H1 H2 He. unfold Double.div, SFdiv, SFdiv_core_binary, Zdigits2.
  rewrite H1, H2.
  replace (53 + e1 - (53 + e2)) with (e1 - e2) by lia.
  replace (Z.min (fexp Double.prec Double.emax (e1 - e2)) (e1 - e2))
    with (e1 - e2 - 53)
    by (unfold fexp, emin, Double.prec, Double.emax; lia).
  replace (e1 - e2 - (e1 - e2 - 53)) with 53 by lia.
  cbv iota beta.
  rewrite Z.shiftl_mul_pow2 by lia.
  rewrite div_eucl_div_mod. reflexivity.
Qed.

Lemma mantissa_quotient m1 m2 :
  2 ^ 52 <= m1 < 2 ^ 53 -> 2 ^ 52 <= m2 < 2 ^ 53 ->
  2 ^ 52 <= m1 * 2 ^ 53 / m2 < 2 ^ 54 /\
  (m1 < m2 -> m1 * 2 ^ 53 / m2 < 2 ^ 53).
Proof.
  change (2 ^ 52) with 4503599627370496.
  change (2 ^ 53) with 9007199254740992.
  change (2 ^ 54) with 18014398509481984.
  intros H1 H2. repeat split.
  - apply Z.div_le_lower_bound; lia.
  - apply Z.div_lt_upper_bound; lia.
  - intro H. apply Z.div_lt_upper_bound; lia.
Qed.

(** A quotient of two numbers of one sign, the first no further from zero
    than the second, is a number in (0, 1]: rounding does not take it
    above 1. *)
Lemma div_normal_unit s pa pb :
  Zpos pa <= Zpos pb < 2 ^ 53 ->
  unit_fraction (Double.div (normal s pa 0) (normal s pb 0)).
Proof.
  intros [Hab Hb].
  pose proof (small_digits pb Hb) as Db.
  pose proof (digits_le pa pb Hab) as Dab.
  assert (Da : Zpos (digits2_pos pa) <= 53) by lia.
  destruct (Z.eq_dec (Zpos pa) (Zpos pb)) as [Heq | Hne].
  - injection Heq as ->. unfold normal.
    assert (Hs : forall m e,
               Double.div (S754_finite s m e) (S754_finite s m e)
               = Double.div (S754_finite false m e) (S754_finite false m e))
      by (intros m e; now destruct s).
    rewrite Hs, div_self by (apply normal_digits; exact Db).
    right. split; reflexivity.
  - unfold normal.
    set (da := Zpos (digits2_pos pa)) in *.
    set (db := Zpos (digits2_pos pb)) in *.
    assert (Ha0 : 0 < da) by (unfold da; lia).
    pose proof (normal_digits pa Da) as N1. fold da in N1.
    pose proof (normal_digits pb Db) as N2. fold db in N2.
    rewrite div_normalised by (trivial; lia).
    assert (B1 : 2 ^ 52 <= Zpos (shl pa (Z.to_nat (53 - da))) < 2 ^ 53).
    { pose proof (digits_pos_bounds (shl pa (Z.to_nat (53 - da)))) as B.
      rewrite N1 in B. exact B. }
    assert (B2 : 2 ^ 52 <= Zpos (shl pb (Z.to_nat (53 - db))) < 2 ^ 53).
    { pose proof (digits_pos_bounds (shl pb (Z.to_nat (53 - db)))) as B.
      rewrite N2 in B. exact B. }
    destruct (mantissa_quotient _ _ B1 B2) as [Q Qlt].
    assert (Hsame : da = db ->
              Zpos (shl pa (Z.to_nat (53 - da))) < Zpos (shl pb (Z.to_nat (53 - db)))).
    { intro E. rewrite <- E, !Zpos_shl.
      apply Z.mul_lt_mono_pos_r; [apply Z.pow_pos_nonneg; lia | lia]. }
    set (M1 := Zpos (shl pa (Z.to_nat (53 - da)))) in *.
    set (M2 := Zpos (shl pb (Z.to_nat (53 - db)))) in *.
    cbn [xorb]. replace (xorb s s) with false by now destruct s.
    destruct (M1 * 2 ^ 53 / M2) as [|q|q] eqn:Eq;
      [change (2 ^ 52) with 4503599627370496 in Q; lia | |
       change (2 ^ 52) with 4503599627370496 in Q; lia].
    assert (Dq : 53 <= Zpos (digits2_pos q) <= 54 /\
                 (da = db -> Zpos (digits2_pos q) = 53)).
    { destruct (Z.lt_ge_cases (Zpos q) (2 ^ 53)) as [Hl | Hg].
      - rewrite (digits_from_bounds q 53) by (change (53 - 1) with 52; lia). lia.
      - rewrite (digits_from_bounds q 54) by (change (54 - 1) with 53; lia).
        split; [lia|]. intro E. specialize (Qlt (Hsame E)). lia. }
    destruct Dq as [Dq Dsame].
    destruct (binary_round_aux_long false q (0 - (53 - da) - (0 - (53 - db)) - 53)
                (new_location M2 ((M1 * 2 ^ 53) mod M2)) Dq ltac:(lia))
      as (m & e' & -> & C).
    cbn [unit_fraction].
    destruct (Z.eq_dec da db) as [E | NE].
    + specialize (Dsame E). lia.
    + lia.
Qed.

(** A quotient of two integers held in doubles is a number, with the sign
    of the quotient. *)
Lemma div_normal_finite s1 s2 pa pb :
  Zpos pa < 2 ^ 53 -> Zpos pb < 2 ^ 53 ->
  exists m e,
    Double.div (normal s1 pa 0) (normal s2 pb 0) = S754_finite (xorb s1 s2) m e.
Proof.
  intros Ha Hb.
  pose proof (small_digits pa Ha) as Da. pose proof (small_digits pb Hb) as Db.
  unfold normal.
  set (da := Zpos (digits2_pos pa)) in *.
  set (db := Zpos (digits2_pos pb)) in *.
  assert (Ha0 : 0 < da) by (unfold da; lia).
  assert (Hb0 : 0 < db) by (unfold db; lia).
  pose proof (normal_digits pa Da) as N1. fold da in N1.
  pose proof (normal_digits pb Db) as N2. fold db in N2.
  rewrite div_normalised by (trivial; lia).
  assert (B1 : 2 ^ 52 <= Zpos (shl pa (Z.to_nat (53 - da))) < 2 ^ 53).
  { pose proof (digits_pos_bounds (shl pa (Z.to_nat (53 - da)))) as B.
    rewrite N1 in B. exact B. }
  assert (B2 : 2 ^ 52 <= Zpos (shl pb (Z.to_nat (53 - db))) < 2 ^ 53).
  { pose proof (digits_pos_bounds (shl pb (Z.to_nat (53 - db)))) as B.
    rewrite N2 in B. exact B. }
  destruct (mantissa_quotient _ _ B1 B2) as [Q _].
  set (M1 := Zpos (shl pa (Z.to_nat (53 - da)))) in *.
  set (M2 := Zpos (shl pb (Z.to_nat (53 - db)))) in *.
  destruct (M1 * 2 ^ 53 / M2) as [|q|q] eqn:Eq;
    [change (2 ^ 52) with 4503599627370496 in Q; lia | |
     change (2 ^ 52) with 4503599627370496 in Q; lia].
  assert (Dq : 53 <= Zpos (digits2_pos q) <= 54).
  { destruct (Z.lt_ge_cases (Zpos q) (2 ^ 53)) as [Hl | Hg].
    - rewrite (digits_from_bounds q 53) by (change (53 - 1) with 52; lia). lia.
    - rewrite (digits_from_bounds q 54) by (change (54 - 1) with 53; lia). lia. }
  destruct (binary_round_aux_long (xorb s1 s2) q
              (0 - (53 - da) - (0 - (53 - db)) - 53)
              (new_location M2 ((M1 * 2 ^ 53) mod M2)) Dq ltac:(lia))
    as (m & e' & -> & _).
  eauto.
Qed.

(** The parameter of a crossing: a zero or a number. *)
Lemma div_exact_value a d :
  small a -> small d -> d <> 0 ->
  (exists s, Double.div (exact a) (exact d) = S754_zero s) \/
  (exists s m e, Double.div (exact a) (exact d) = S754_finite s m e).
Proof.
  intros Ha Hd Hnz.
  destruct d as [|pd|pd]; [contradiction| |];
    destruct a as [|pa|pa];
    try (left; eexists; reflexivity); right; cbn [exact].
  - destruct (div_normal_finite false false pa pd) as (m & e & ->);
      [exact Ha | exact Hd | eauto].
  - destruct (div_normal_finite true false pa pd) as (m & e & ->);
      [exact Ha | exact Hd | eauto].
  - destruct (div_normal_finite false true pa pd) as (m & e & ->);
      [exact Ha | exact Hd | eauto].
  - destruct (div_normal_finite true true pa pd) as (m & e & ->);
      [exact Ha | exact Hd | eauto].
Qed.

(** The crossing of a boundary line that lies between the start point and
    the end point, the end point included. *)
Lemma div_exact_exit a d :
  small d -> (0 <= a <= d /\ 0 < d) \/ (d <= a <= 0 /\ d < 0) ->
  exit_parameter (Double.div (exact a) (exact d)).
Proof.
  intros Hd H. unfold small in Hd.
  destruct d as [|pd|pd]; [lia| |]; destruct a as [|pa|pa]; try lia.
  - right. eexists. reflexivity.
  - left. apply div_normal_unit. simpl Z.abs in Hd. lia.
  - right. eexists. reflexivity.
  - left. apply div_normal_unit. simpl Z.abs in Hd. lia.
Qed.

(** The crossing of a boundary line that lies on the other side of the
    start point, or at it. *)
Lemma div_exact_behind a d :
  small a -> small d -> (a <= 0 /\ 0 < d) \/ (0 <= a /\ d < 0) ->
  not_positive (Double.div (exact a) (exact d)).
Proof.
  intros Ha Hd H.
  destruct d as [|pd|pd]; [lia| |]; destruct a as [|pa|pa]; try lia;
    try exact I; cbn [exact].
  - destruct (div_normal_finite true false pa pd) as (m & e & ->);
      [exact Ha | exact Hd | exact I].
  - destruct (div_normal_finite false true pa pd) as (m & e & ->);
      [exact Ha | exact Hd | exact I].
Qed.

(** The first candidate with a parameter in [0, 1], on the boundary the
    segment leaves through, is taken. *)
Lemma consider_exit dx dy e t0 along :
  exit_parameter t0 -> outward dx dy e = true ->
  consider dx dy initial_best (mkCandidate e t0 along) = mkHit e t0 along.
Proof.
  intros Ht Ho. unfold consider, accepted, replaces. cbn [c_t c_edge].
  rewrite Ho.
  destruct Ht as [Hu | [s ->]].
  - destruct t0 as [| | |[|] m e0]; try contradiction. cbn [unit_fraction] in Hu.
    assert (H1 : Double.gtb (S754_finite false m e0) Double.one = false).
    { unfold Double.gtb, Double.ltb, SFltb.
      change Double.one with (S754_finite false 4503599627370496 (-52)).
      cbn [SFcompare].
      destruct Hu as [Hlt | [-> ->]].
      - destruct (Z.compare_spec (-52) e0); first [lia | reflexivity].
      - reflexivity. }
    assert (H2 : Double.ltb (S754_finite false m e0)
                   (Double.sub (t initial_best) Double.tol) = true).
    { cbn [t initial_best].
      replace (Double.sub Double.two Double.tol)
        with (S754_finite false 9007199250237392 (-52))
        by (vm_compute; reflexivity).
      unfold Double.ltb, SFltb. cbn [SFcompare].
      destruct Hu as [Hlt | [-> ->]].
      - destruct (Z.compare_spec e0 (-52)); first [lia | reflexivity].
      - reflexivity. }
    rewrite H1, H2.
    change (Double.ltb (S754_finite false m e0) (Double.opp Double.tol)) with false.
    cbn [orb negb andb].
    now destruct (Double.ltb (S754_finite false m e0) Double.tol).
  - now destruct s.
Qed.

Lemma small_difference a b : in_long a -> in_long b -> small (a - b).
Proof.
  unfold in_long, LONG_MIN, LONG_MAX, small.
  change (2 ^ 53) with 9007199254740992. lia.
Qed.

(** The test of a vertical boundary line on a level segment: the crossing
    keeps the height of the start point. *)
Lemma vertical_candidate_level p0 p1 r e bound :
  long_point p0 -> long_point p1 -> long_rect r ->
  py p1 = py p0 -> px p1 <> px p0 -> in_long (bound - px p0) ->
  rc_top r <= py p0 <= rc_bottom r ->
  vertical_candidate p0 p1 r e bound
  = [mkCandidate e
       (Double.div (exact (bound - px p0)) (exact (px p1 - px p0)))
       (exact (py p0))].
Proof.
  intros H0 H1 (_ & Ht & _ & Hb) Hy Hx Hbd Hin.
  unfold vertical_candidate.
  rewrite segment_dx_exact, segment_dy_exact by assumption.
  rewrite neqb_exact_zero.
  replace (px p1 - px p0 =? 0) with false by (symmetry; apply Z.eqb_neq; lia).
  cbn [negb]. rewrite long_sub_exact by assumption.
  rewrite !of_long_long by (assumption || apply H0).
  rewrite Hy, Z.sub_diag. change (exact 0) with (S754_zero false).
  assert (Hm : exists s,
             Double.mul (Double.div (exact (bound - px p0)) (exact (px p1 - px p0)))
                        (S754_zero false) = S754_zero s).
  { destruct (div_exact_value (bound - px p0) (px p1 - px p0))
      as [[s ->] | (s & m & e0 & ->)];
      [now apply in_long_small
      | apply small_difference; [apply H1 | apply H0]
      | lia
      | eexists; reflexivity
      | eexists; reflexivity]. }
  destruct Hm as [s ->]. rewrite add_exact_zero.
  unfold Double.geb. rewrite !leb_exact.
  replace (rc_top r <=? py p0) with true by (symmetry; apply Z.leb_le; lia).
  replace (py p0 <=? rc_bottom r) with true by (symmetry; apply Z.leb_le; lia).
  reflexivity.
Qed.

(** The test of a horizontal boundary line on an upright segment. *)
Lemma horizontal_candidate_upright p0 p1 r e bound :
  long_point p0 -> long_point p1 -> long_rect r ->
  px p1 = px p0 -> py p1 <> py p0 -> in_long (bound - py p0) ->
  rc_left r <= px p0 <= rc_right r ->
  horizontal_candidate p0 p1 r e bound
  = [mkCandidate e
       (Double.div (exact (bound - py p0)) (exact (py p1 - py p0)))
       (exact (px p0))].
Proof.
  intros H0 H1 (Hl & _ & Hr & _) Hx Hy Hbd Hin.
  unfold horizontal_candidate.
  rewrite segment_dx_exact, segment_dy_exact by assumption.
  rewrite neqb_exact_zero.
  replace (py p1 - py p0 =? 0) with false by (symmetry; apply Z.eqb_neq; lia).
  cbn [negb]. rewrite long_sub_exact by assumption.
  rewrite !of_long_long by (assumption || apply H0).
  rewrite Hx, Z.sub_diag. change (exact 0) with (S754_zero false).
  assert (Hm : exists s,
             Double.mul (Double.div (exact (bound - py p0)) (exact (py p1 - py p0)))
                        (S754_zero false) = S754_zero s).
  { destruct (div_exact_value (bound - py p0) (py p1 - py p0))
      as [[s ->] | (s & m & e0 & ->)];
      [now apply in_long_small
      | apply small_difference; [apply H1 | apply H0]
      | lia
      | eexists; reflexivity
      | eexists; reflexivity]. }
  destruct Hm as [s ->]. rewrite add_exact_zero.
  unfold Double.geb. rewrite !leb_exact.
  replace (rc_left r <=? px p0) with true by (symmetry; apply Z.leb_le; lia).
  replace (px p0 <=? rc_right r) with true by (symmetry; apply Z.leb_le; lia).
  reflexivity.
Qed.

Lemma vertical_candidate_upright p0 p1 r e bound :
  long_point p0 -> long_point p1 -> px p1 = px p0 ->
  vertical_candidate p0 p1 r e bound = [].
Proof.
  intros H0 H1 Hx. unfold vertical_candidate.
  rewrite segment_dx_exact by assumption. now rewrite Hx, Z.sub_diag.
Qed.

Lemma horizontal_candidate_level p0 p1 r e bound :
  long_point p0 -> long_point p1 -> py p1 = py p0 ->
  horizontal_candidate p0 p1 r e bound = [].
Proof.
  intros H0 H1 Hy. unfold horizontal_candidate.
  rewrite segment_dy_exact by assumption. now rewrite Hy, Z.sub_diag.
Qed.

Lemma outward_top dx dy : outward dx dy Top = Double.ltb dy Double.zero.
Proof. unfold outward. cbn [Edge_eqb andb orb]. now rewrite orb_false_r. Qed.

Lemma outward_bottom dx dy : outward dx dy Bottom = Double.gtb dy Double.zero.
Proof. unfold outward. now cbn [Edge_eqb andb orb]. Qed.

Lemma gtb_exact_zero z : Double.gtb (exact z) Double.zero = (0 <? z).
Proof. unfold Double.gtb. change Double.zero with (exact 0). apply ltb_exact. Qed.

Lemma ltb_exact_zero z : Double.ltb (exact z) Double.zero = (z <? 0).
Proof. change Double.zero with (exact 0). apply ltb_exact. Qed.

Lemma FindExitEdge_straight e p0 p1 r :
  long_point p0 -> long_point p1 -> long_rect r ->
  in_long (rc_right r - rc_left r) -> in_long (rc_bottom r - rc_top r) ->
  within p0 r -> leaves_straight e p0 p1 r ->
  exists h,
    FindExitEdge p0 p1 r = Some h /\ edge h = e /\
    coord h = Double.of_long (along_coordinate e p0).
Proof.
  intros H0 H1 Hr Hw Hh [Hx Hy] Hm.
  assert (Hr' := Hr). destruct Hr' as (Rl & Rt & Rr & Rb).
  assert (L0 := H0). destruct L0 as [X0 Y0].
  assert (L1 := H1). destruct L1 as [X1 Y1].
  unfold in_long, LONG_MIN, LONG_MAX in *.
  rewrite FindExitEdge_select.
  exists (select (segment_dx p0 p1) (segment_dy p0 p1)
            (boundary_candidates p0 p1 r)).
  split; [reflexivity|].
  unfold select, boundary_candidates.
  assert (Sx : small (px p1 - px p0))
    by (apply small_difference; unfold in_long, LONG_MIN, LONG_MAX; lia).
  assert (Sy : small (py p1 - py p0))
    by (apply small_difference; unfold in_long, LONG_MIN, LONG_MAX; lia).
  destruct e; cbn [leaves_straight] in Hm; [contradiction| | | |];
    destruct Hm as (Hs & Hd & Hb); cbn [along_coordinate].
  - (* Left *)
    rewrite (vertical_candidate_level p0 p1 r Right), (vertical_candidate_level p0 p1 r Left),
      !horizontal_candidate_level
      by (trivial; unfold in_long, LONG_MIN, LONG_MAX; lia).
    cbn [List.app fold_left].
    rewrite (consider_not_positive _ _ initial_best); cbn [c_t c_edge].
    + rewrite consider_exit.
      * split; [reflexivity|]. cbn [coord]. symmetry. apply of_long_long.
        unfold in_long, LONG_MIN, LONG_MAX; lia.
      * apply div_exact_exit; [exact Sx | lia].
      * rewrite outward_left, segment_dx_exact, ltb_exact_zero by assumption.
        apply Z.ltb_lt. lia.
    + apply div_exact_behind; [apply in_long_small; unfold in_long, LONG_MIN, LONG_MAX; lia | exact Sx | lia].
    + rewrite outward_right, segment_dx_exact, gtb_exact_zero by assumption.
      apply Z.ltb_ge. lia.
  - (* Right *)
    rewrite (vertical_candidate_level p0 p1 r Right), (vertical_candidate_level p0 p1 r Left),
      !horizontal_candidate_level
      by (trivial; unfold in_long, LONG_MIN, LONG_MAX; lia).
    cbn [List.app fold_left].
    rewrite consider_exit.
    + rewrite consider_not_positive; cbn [c_t c_edge].
      * split; [reflexivity|]. cbn [coord]. symmetry. apply of_long_long.
        unfold in_long, LONG_MIN, LONG_MAX; lia.
      * apply div_exact_behind; [apply in_long_small; unfold in_long, LONG_MIN, LONG_MAX; lia | exact Sx | lia].
      * rewrite outward_left, segment_dx_exact, ltb_exact_zero by assumption.
        apply Z.ltb_ge. lia.
    + apply div_exact_exit; [exact Sx | lia].
    + rewrite outward_right, segment_dx_exact, gtb_exact_zero by assumption.
      apply Z.ltb_lt. lia.
  - (* Top *)
    rewrite !vertical_candidate_upright,
      (horizontal_candidate_upright p0 p1 r Bottom),
      (horizontal_candidate_upright p0 p1 r Top)
      by (trivial; unfold in_long, LONG_MIN, LONG_MAX; lia).
    cbn [List.app fold_left].
    rewrite (consider_not_positive _ _ initial_best); cbn [c_t c_edge].
    + rewrite consider_exit.
      * split; [reflexivity|]. cbn [coord]. symmetry. apply of_long_long.
        unfold in_long, LONG_MIN, LONG_MAX; lia.
      * apply div_exact_exit; [exact Sy | lia].
      * rewrite outward_top, segment_dy_exact, ltb_exact_zero by assumption.
        apply Z.ltb_lt. lia.
    + apply div_exact_behind; [apply in_long_small; unfold in_long, LONG_MIN, LONG_MAX; lia | exact Sy | lia].
    + rewrite outward_bottom, segment_dy_exact, gtb_exact_zero by assumption.
      apply Z.ltb_ge. lia.
  - (* Bottom *)
    rewrite !vertical_candidate_upright,
      (horizontal_candidate_upright p0 p1 r Bottom),
      (horizontal_candidate_upright p0 p1 r Top)
      by (trivial; unfold in_long, LONG_MIN, LONG_MAX; lia).
    cbn [List.app fold_left].
    rewrite consider_exit.
    + rewrite consider_not_positive; cbn [c_t c_edge].
      * split; [reflexivity|]. cbn [coord]. symmetry. apply of_long_long.
        unfold in_long, LONG_MIN, LONG_MAX; lia.
      * apply div_exact_behind; [apply in_long_small; unfold in_long, LONG_MIN, LONG_MAX; lia | exact Sy | lia].
      * rewrite outward_top, segment_dy_exact, ltb_exact_zero by assumption.
        apply Z.ltb_ge. lia.
    + apply div_exact_exit; [exact Sy | lia].
    + rewrite outward_bottom, segment_dy_exact, gtb_exact_zero by assumption.
      apply Z.ltb_lt. lia.
Qed.

(** X21.  A straight move along an axis, from a point within the rectangle
    (its boundary included) to a point on or beyond one of its boundary
    lines, is reported as leaving through that boundary, at the coordinate
    of the start point along it; this for LONG coordinates and a rectangle
    whose width and height are representable. *)
Theorem FindExitEdge_straight_exit e p0 p1 r :
  long_point p0 -> long_point p1 -> long_rect r ->
  in_long (rc_right r - rc_left r) -> in_long (rc_bottom r - rc_top r) ->
  within p0 r -> leaves_straight e p0 p1 r ->
  exists h,
    FindExitEdge p0 p1 r = Some h /\ edge h = e /\
    coord h = Double.of_long (along_coordinate e p0).
Proof. apply FindExitEdge_straight. Qed.

Lemma FindExitEdge_straight_exit_witness :
  exists h,
    FindExitEdge (mkPOINT 100 540) (mkPOINT 2500 540) (mkRECT 0 0 1920 1080)
    = Some h /\ edge h = Right /\ coord h = Double.of_long 540.
Proof.
  apply (FindExitEdge_straight_exit Right (mkPOINT 100 540) (mkPOINT 2500 540)
           (mkRECT 0 0 1920 1080));
    unfold long_point, long_rect, within, leaves_straight, in_long,
      LONG_MIN, LONG_MAX; simpl; lia.
Defined.

(** ** The mouse hook: a straight move across a boundary *)

Lemma RemapCursor_entry src dst e hit :
  in_long (axis_overlap e src dst) ->
  in_long (axis_length e src) -> in_long (axis_length e dst) ->
  e <> Edge_None -> 0 < axis_overlap e src dst ->
  0 < axis_length e src -> 0 < axis_length e dst ->
  exists p,
    RemapCursor src dst e hit = Some p /\
    across_coordinate e p = entry_coordinate e dst.
Proof.
  unfold axis_overlap, axis_length, RemapCursor. intros Ho Hs Hd Hn H1 H2 H3.
  destruct e; [now elim Hn| | | |]; cbn [axis_start axis_end] in *;
    cbn iota beta;
    rewrite (long_sub_exact _ _ Ho), (long_sub_exact _ _ Hs),
      (long_sub_exact _ _ Hd);
    apply Z.leb_gt in H1, H2, H3; rewrite H1, H2, H3; cbn [orb];
    eexists; (split; [reflexivity|]); reflexivity.
Qed.

(** X22.  A tracked move event whose point lies straight along an axis
    from the last position, on or beyond a boundary line of the last
    monitor's held rectangle, the last position being within that rectangle
    and the event's display being another held one that overlaps it along
    the boundary: [RemapCursor] yields a point whose coordinate across the
    boundary is one pixel in from the destination's first pixel (leaving
    through Right or Bottom) or two in from its end (Left or Top).  If that
    point is not the event's and [SetCursorPos] answers success, the event is
    swallowed and the point becomes the last position; if it is the event's
    point, the event is handed on and tracked. *)
Theorem MouseHookProc_straight_crossing env e ms st src dst :
  Z.land (flags ms) LLMHF_INJECTED = 0 -> g_suppressing st = false ->
  MonitorFromPoint env (pt ms) <> nullptr ->
  g_lastMonitor st <> nullptr ->
  MonitorFromPoint env (pt ms) <> g_lastMonitor st ->
  px (g_lastPos st) <> LONG_MIN ->
  FindMonitor (g_monitors st) (g_lastMonitor st) = Some src ->
  FindMonitor (g_monitors st) (MonitorFromPoint env (pt ms)) = Some dst ->
  long_point (g_lastPos st) -> long_point (pt ms) -> long_rect (rc src) ->
  in_long (rc_right (rc src) - rc_left (rc src)) ->
  in_long (rc_bottom (rc src) - rc_top (rc src)) ->
  within (g_lastPos st) (rc src) ->
  leaves_straight e (g_lastPos st) (pt ms) (rc src) ->
  in_long (axis_overlap e (rc src) (rc dst)) ->
  in_long (axis_length e (rc dst)) ->
  0 < axis_overlap e (rc src) (rc dst) ->
  0 < axis_length e (rc src) -> 0 < axis_length e (rc dst) ->
  exists target,
    RemapCursor (rc src) (rc dst) e
      (Double.of_long (along_coordinate e (g_lastPos st))) = Some target /\
    across_coordinate e target = entry_coordinate e (rc dst) /\
    (target <> pt ms ->
     snd (SetCursorPos env (px target) (py target) (set_suppressing true st))
     = true ->
     exists st',
       MouseHookProc env HC_ACTION WM_MOUSEMOVE ms st = Some (st', Swallow) /\
       g_lastPos st' = target /\
       g_lastMonitor st' = MonitorFromPoint env target) /\
    (target = pt ms ->
     MouseHookProc env HC_ACTION WM_MOUSEMOVE ms st
     = Some (set_last (MonitorFromPoint env (pt ms)) (pt ms) st,
             CallNextHookEx HC_ACTION WM_MOUSEMOVE ms)).
Proof.
  intros Hi Hs Hc Hl Hne Hp Fs Fd L0 L1 Lr Hw Hh Hin Hout Ho Hd O1 O2 O3.
  destruct (FindExitEdge_straight e (g_lastPos st) (pt ms) (rc src))
    as (h & Hf & He & Hco); try assumption.
  assert (En : e <> Edge_None) by (intros ->; exact Hout).
  assert (Hsrc : in_long (axis_length e (rc src)))
    by (unfold axis_length; destruct e; cbn [axis_start axis_end]; assumption).
  destruct (RemapCursor_entry (rc src) (rc dst) e
              (Double.of_long (along_coordinate e (g_lastPos st))))
    as (target & Hr & Ha); try assumption.
  exists target. split; [exact Hr|]. split; [exact Ha|].
  assert (Hh' : handle_crossing env (pt ms) (MonitorFromPoint env (pt ms)) st
          = if negb (POINT_eqb target (pt ms)) then
              let st1 := set_suppressing true st in
              let '(st2, ok) := SetCursorPos env (px target) (py target) st1 in
              let st3 := set_suppressing false st2 in
              if ok
              then Some (set_last (MonitorFromPoint env target) target st3, true)
              else Some (st3, false)
            else Some (st, false)).
  { unfold handle_crossing.
    apply Z.eqb_neq in Hl, Hne, Hp. rewrite Hl, Hne, Hp. cbn [negb andb].
    rewrite Fs, Fd, Hf. cbn [bind]. rewrite He, Hco, Hr.
    now destruct e; [elim En| | | |]. }
  assert (Hm : MouseHookProc env HC_ACTION WM_MOUSEMOVE ms st
          = r <- handle_crossing env (pt ms) (MonitorFromPoint env (pt ms)) st ;;
            if snd r then Some (fst r, Swallow)
            else Some (track_position env WM_MOUSEMOVE ms (fst r),
                       CallNextHookEx HC_ACTION WM_MOUSEMOVE ms)).
  { unfold MouseHookProc. rewrite !Z.eqb_refl, Hi, Hs. cbn [andb negb Z.eqb].
    apply Z.eqb_neq in Hc. now rewrite Hc. }
  split.
  - intros Hd' Hok. rewrite Hm, Hh'.
    replace (POINT_eqb target (pt ms)) with false.
    2:{ symmetry. apply not_true_iff_false. intro E.
        apply POINT_eqb_eq in E. contradiction. }
    cbn [negb]. cbv zeta.
    destruct (SetCursorPos env (px target) (py target) (set_suppressing true st))
      as [st2 ok]. cbn [snd] in Hok. subst ok.
    cbn [bind snd fst]. eexists. split; [reflexivity|]. split; reflexivity.
  - intros ->. rewrite Hm, Hh'.
    replace (POINT_eqb (pt ms) (pt ms)) with true
      by (symmetry; now apply POINT_eqb_eq).
    cbn [negb bind snd fst]. unfold track_position.
    rewrite Z.eqb_refl. apply Z.eqb_neq in Hc. rewrite Hc. reflexivity.
Qed.

Lemma MouseHookProc_straight_crossing_witness :
  exists target,
    RemapCursor (mkRECT 0 0 1920 1080) (mkRECT 1920 0 2560 1440) Right
      (Double.of_long 540) = Some target /\
    across_coordinate Right target = 1921.
Proof.
  destruct (MouseHookProc_straight_crossing
              (reentrant_env example_MonitorFromPoint true) Right
              (mkMSLLHOOKSTRUCT (mkPOINT 1920 540) 0) tracking_state
              (mkMonitorInfo 1 (mkRECT 0 0 1920 1080) true display1_name)
              (mkMonitorInfo 2 (mkRECT 1920 0 2560 1440) false display2_name))
    as (target & Hr & Ha & _).
  all: try (vm_compute; reflexivity).
  all: try (vm_compute; discriminate).
  all: try (unfold long_point, long_rect, within, leaves_straight, in_long,
              axis_overlap, axis_length, LONG_MIN, LONG_MAX; simpl; lia).
  exists target. split; [exact Hr | exact Ha].
Defined.

(** ** [BuildTopoSignature]: the buffer *)

Lemma double_digits d :
  (nb_digits (Little.double d) <= S (nb_digits d))%nat /\
  (nb_digits (Little.succ_double d) <= S (nb_digits d))%nat.
Proof.
  induction d as [|d [IH1 IH2]|d [IH1 IH2]|d [IH1 IH2]|d [IH1 IH2]|d [IH1 IH2]
                  |d [IH1 IH2]|d [IH1 IH2]|d [IH1 IH2]|d [IH1 IH2]|d [IH1 IH2]];
    cbn [Little.double Little.succ_double nb_digits]; lia.
Qed.

Lemma revapp_digits d d' :
  nb_digits (revapp d d') = (nb_digits d + nb_digits d')%nat.
Proof.
  revert d'. induction d as [|d IH|d IH|d IH|d IH|d IH|d IH|d IH|d IH|d IH|d IH];
    intro d'; cbn [revapp nb_digits]; [reflexivity | rewrite IH; cbn [nb_digits]; lia ..].
Qed.

Lemma to_little_uint_digits p :
  (nb_digits (Pos.to_little_uint p) <= Pos.to_nat (digits2_pos p))%nat.
Proof.
  induction p as [p IH|p IH|]; cbn [Pos.to_little_uint digits2_pos].
  - pose proof (proj2 (double_digits (Pos.to_little_uint p))). lia.
  - pose proof (proj1 (double_digits (Pos.to_little_uint p))). lia.
  - cbn. lia.
Qed.

Lemma string_of_uint_length d :
  String.length (NilEmpty.string_of_uint d) = nb_digits d.
Proof. induction d; cbn [NilEmpty.string_of_uint String.length nb_digits]; congruence. Qed.

Lemma long_digits p : Zpos p <= 2147483648 -> (Pos.to_nat (digits2_pos p) <= 32)%nat.
Proof.
  intro H. destruct (digits_pos_bounds p) as [Hlo _].
  destruct (Z.le_gt_cases (Zpos (digits2_pos p)) 32) as [|Hgt]; [lia|].
  assert (2 ^ 32 <= 2 ^ (Zpos (digits2_pos p) - 1))
    by (apply Z.pow_le_mono_r; lia).
  change (2 ^ 32) with 4294967296 in *. lia.
Qed.

(** [%ld] of a LONG takes at most 33 characters. *)
Lemma format_ld_length z :
  in_long z -> (String.length (format_ld z) <= 33)%nat.
Proof.
  unfold in_long, LONG_MIN, LONG_MAX, format_ld. intro H.
  assert (G : forall p, Zpos p <= 2147483648 ->
              (String.length (NilZero.string_of_uint (Pos.to_uint p)) <= 32)%nat).
  { intros p Hp. unfold NilZero.string_of_uint.
    pose proof (to_little_uint_digits p). pose proof (long_digits p Hp).
    assert (L : (String.length (NilEmpty.string_of_uint (Pos.to_uint p)) <= 32)%nat).
    { rewrite string_of_uint_length. unfold Pos.to_uint.
      unfold Decimal.rev. rewrite revapp_digits. cbn [nb_digits]. lia. }
    destruct (Pos.to_uint p); [cbn; lia | exact L ..]. }
  destruct z as [|p|p]; cbn [Z.to_int NilZero.string_of_int String.length].
  - cbn. lia.
  - specialize (G p ltac:(lia)). lia.
  - specialize (G p ltac:(lia)). lia.
Qed.

Lemma length_append s1 s2 :
  String.length (s1 ++ s2) = (String.length s1 + String.length s2)%nat.
Proof. induction s1 as [|c s1 IH]; simpl; [reflexivity | now rewrite IH]. Qed.

Lemma append_assoc (s1 s2 s3 : string) :
  ((s1 ++ s2) ++ s3 = s1 ++ (s2 ++ s3))%string.
Proof. induction s1 as [|c s1 IH]; simpl; [reflexivity | now rewrite IH]. Qed.

Lemma substring_all s n :
  (String.length s <= n)%nat -> substring 0 n s = s.
Proof.
  revert n. induction s as [|c s IH]; intros n H.
  - now destruct n.
  - destruct n as [|n]; cbn [String.length] in H; [lia|].
    cbn [substring]. f_equal. apply IH. lia.
Qed.

(** X23.  The buffer of [BuildTopoSignature] never cuts the formatted text
    short: for a record with LONG coordinates the text of the [snprintf]
    call is shorter than the 256 bytes of the buffer, so what is appended to
    the signature is the whole text, and the entry is the one
    [signature_entry] gives. *)
Theorem snprintf_never_truncates m :
  long_rect (rc m) ->
  (String.length (formatted_rectangle m) < 256)%nat /\
  snprintf 256 (formatted_rectangle m) = formatted_rectangle m /\
  buffered_entry m = signature_entry m.
Proof.
  intros (Hl & Ht & Hr & Hb).
  assert (L : (String.length (formatted_rectangle m) <= 138)%nat).
  { unfold formatted_rectangle. rewrite !length_append.
    pose proof (format_ld_length _ Hl). pose proof (format_ld_length _ Ht).
    pose proof (format_ld_length _ Hr). pose proof (format_ld_length _ Hb).
    assert (String.length (format_bool (primary m)) = 1)%nat
      by now destruct (primary m).
    change (String.length ",") with 1%nat. lia. }
  assert (S : snprintf 256 (formatted_rectangle m) = formatted_rectangle m).
  { unfold snprintf. apply substring_all. cbn. lia. }
  split; [lia|]. split; [exact S|].
  unfold buffered_entry. rewrite S. unfold formatted_rectangle, signature_entry.
  now rewrite !append_assoc.
Qed.

Lemma snprintf_never_truncates_witness :
  buffered_entry (mkMonitorInfo 1 (mkRECT 0 0 1920 1080) true display1_name)
  = signature_entry (mkMonitorInfo 1 (mkRECT 0 0 1920 1080) true display1_name).
Proof.
  apply snprintf_never_truncates.
  unfold long_rect, in_long, LONG_MIN, LONG_MAX; simpl; lia.
Defined.
